(** * Word-Spotting: the batch preprocessor (OELP_Word2/preprocessor.py)

    A shallow embedding of class [Preprocessor]: the constructor and its two
    assertions, the CTC label budget [_truncate_label], the line synthesiser
    [_simulate_text_line], the per-image normaliser [process_img] and the
    batch pipeline [process_batch].

    Python objects that the code shares and writes in place (numpy arrays and
    lists) live in a store; a reference is an index into it.  Exceptions are
    an outcome of a computation, and the ambient random source of module
    [random] is a tape of integers that [randint] consumes. *)

From Stdlib Require Import ZArith String Ascii List Floats Uint63 Lia Bool.
From stdpp Require Import base list strings option numbers.

Open Scope Z_scope.

(** ** Python exceptions and the computation monad *)

Inductive exn : Type :=
  | AssertionError
  | IndexError
  | AttributeError
  | ValueError
  | TypeError.

(** ** numpy arrays (two axes)

    An array is its shape and its cells; [item a r c] is [a[r, c]] and only
    the cells with [r < shape0 a] and [c < shape1 a] are part of the array. *)

Record ndarray (T : Type) : Type := mk_ndarray {
  shape0 : nat;
  shape1 : nat;
  item : nat -> nat -> T
}.
Arguments mk_ndarray {T}.
Arguments shape0 {T}.
Arguments shape1 {T}.
Arguments item {T}.

(** [np.ones], [np.zeros]: a constant array. *)
Definition nd_full {T} (h w : nat) (v : T) : ndarray T :=
  mk_ndarray h w (fun _ _ => v).

(** Elementwise operations ([astype], arithmetic with a scalar). *)
Definition nd_map {T U} (f : T -> U) (a : ndarray T) : ndarray U :=
  mk_ndarray (shape0 a) (shape1 a) (fun r c => f (item a r c)).

(** [cv2.transpose]: dst(i, j) = src(j, i). *)
Definition nd_transpose {T} (a : ndarray T) : ndarray T :=
  mk_ndarray (shape1 a) (shape0 a) (fun r c => item a c r).

(** A slice bound of [a[i:...]] on an axis of length [n], as Python
    normalises it: a negative bound counts from the end, and the result is
    clipped to [0, n]. *)
Definition slice_bound (i : Z) (n : nat) : nat :=
  Z.to_nat (if i <? 0 then Z.max (i + Z.of_nat n) 0 else Z.min i (Z.of_nat n)).

(** numpy broadcasting of one axis: the lengths agree, or the source has
    length 1 and is repeated. *)
Definition broadcastable (src dst : nat) : bool :=
  (src =? dst)%nat || (src =? 1)%nat.

(** [target[y:y2, x:x2] = src]: the window is normalised and clipped, the
    source must broadcast to it (numpy raises ValueError otherwise), and the
    cells of the window are overwritten with copies of the source's. *)
Definition nd_setitem {T} (target : ndarray T) (y y2 x x2 : Z) (src : ndarray T)
  : option (ndarray T) :=
  let r0 := slice_bound y (shape0 target) in
  let nr := (slice_bound y2 (shape0 target) - r0)%nat in
  let c0 := slice_bound x (shape1 target) in
  let nc := (slice_bound x2 (shape1 target) - c0)%nat in
  if broadcastable (shape0 src) nr && broadcastable (shape1 src) nc then
    Some (mk_ndarray (shape0 target) (shape1 target) (fun r c =>
      if (r0 <=? r)%nat && (r <? r0 + nr)%nat && (c0 <=? c)%nat && (c <? c0 + nc)%nat
      then item src (if (shape0 src =? nr)%nat then r - r0 else 0)%nat
                    (if (shape1 src =? nc)%nat then c - c0 else 0)%nat
      else item target r c))
  else None.

(** Scalars.  A [uint8] cell is a [Z] in [0, 256) and arithmetic on it wraps;
    a [float64] cell is a binary64 float.  [np.float] is Python's [float]. *)
Definition uint8 (z : Z) : Z := z mod 256.

Definition u8_to_float (v : Z) : float := PrimFloat.of_uint63 (Uint63.of_Z v).

(** ** The store *)

(** A reference: the index of the object in the store. *)
Abbreviation loc := nat (only parsing).

Inductive object : Type :=
  | NdUint8 (a : ndarray Z)
  | NdFloat64 (a : ndarray float)
  | ImgList (l : list (option loc))   (* a list of images: None or an array *)
  | StrList (l : list string).        (* a list of str *)

Record world : Type := mk_world {
  heap : list object;
  tape : nat -> Z;     (* the outcomes the random source will produce *)
  drawn : nat          (* how many of them have been consumed *)
}.

Definition set_heap (w : world) (h : list object) : world :=
  mk_world h (tape w) (drawn w).

Inductive outcome (A : Type) : Type :=
  | Ok (a : A) (w : world)
  | Raise (e : exn) (w : world).
Arguments Ok {A}.
Arguments Raise {A}.

Definition M (A : Type) : Type := world -> outcome A.

#[export] Instance M_ret : MRet M := fun A a w => Ok a w.
#[export] Instance M_bind : MBind M := fun A B f m w =>
  match m w with
  | Ok a w' => f a w'
  | Raise e w' => Raise e w'
  end.

Definition raise {A} (e : exn) : M A := fun w => Raise e w.

Definition final {A} (o : outcome A) : world :=
  match o with Ok _ w => w | Raise _ w => w end.

(** A new object; its reference is the next free index. *)
Definition alloc (o : object) : M loc :=
  fun w => Ok (length (heap w)) (set_heap w (heap w ++ [o])).

(** Reading through a reference.  Python has no dangling reference; a store
    without the object is ill-formed and reported as TypeError. *)
Definition load (l : loc) : M object :=
  fun w => match heap w !! l with
           | Some o => Ok o w
           | None => Raise TypeError w
           end.

(** Overwriting the object behind a reference (in-place mutation). *)
Definition store (l : loc) (o : object) : M unit :=
  fun w => Ok tt (set_heap w (<[l := o]> (heap w))).

(** [random.randint(lo, hi)]: the next outcome of the tape, in [lo, hi]. *)
Definition randint (lo hi : Z) : M Z :=
  fun w => Ok (lo + tape w (drawn w) mod (hi - lo + 1))
              (mk_world (heap w) (tape w) (S (drawn w))).

(** Loops.  [for_each xs body s]: a [for] statement over [xs] whose body
    updates the local variables [s]; [list_comp xs f]: a list comprehension. *)
Fixpoint for_each {A S} (xs : list A) (body : A -> S -> M S) (s : S) : M S :=
  match xs with
  | [] => mret s
  | x :: rest => s' ← body x s; for_each rest body s'
  end.

Fixpoint list_comp {A B} (xs : list A) (f : A -> M B) : M (list B) :=
  match xs with
  | [] => mret []
  | x :: rest => y ← f x; ys ← list_comp rest f; mret (y :: ys)
  end.

(** [range(n)] *)
Definition range (n : Z) : list nat := seq 0 (Z.to_nat n).

(** *** Lists *)

Definition list_items_img (l : loc) : M (list (option loc)) :=
  o ← load l;
  match o with ImgList xs => mret xs | _ => raise TypeError end.

Definition list_items_str (l : loc) : M (list string) :=
  o ← load l;
  match o with StrList xs => mret xs | _ => raise TypeError end.

(** [l[k]] for a non-negative [k]: IndexError past the end. *)
Definition list_getitem_img (l : loc) (k : nat) : M (option loc) :=
  xs ← list_items_img l;
  match xs !! k with Some x => mret x | None => raise IndexError end.

Definition list_getitem_str (l : loc) (k : nat) : M string :=
  xs ← list_items_str l;
  match xs !! k with Some x => mret x | None => raise IndexError end.

(** [l.append(x)] *)
Definition list_append_img (l : loc) (x : option loc) : M unit :=
  xs ← list_items_img l; store l (ImgList (xs ++ [x])).

Definition list_append_str (l : loc) (x : string) : M unit :=
  xs ← list_items_str l; store l (StrList (xs ++ [x])).

(** *** Arrays *)

(** [img.shape] of an image variable: None has no attribute [shape]. *)
Definition shape_of (img : option loc) : M (Z * Z) :=
  match img with
  | None => raise AttributeError
  | Some l =>
      o ← load l;
      match o with
      | NdUint8 a => mret (Z.of_nat (shape0 a), Z.of_nat (shape1 a))
      | NdFloat64 a => mret (Z.of_nat (shape0 a), Z.of_nat (shape1 a))
      | _ => raise AttributeError
      end
  end.

(** [np.ones([h, w], np.uint8)] and [np.zeros((h, w))]: negative dimensions
    are not allowed. *)
Definition np_ones_uint8 (h w : Z) : M loc :=
  if (h <? 0) || (w <? 0) then raise ValueError
  else alloc (NdUint8 (nd_full (Z.to_nat h) (Z.to_nat w) 1)).

Definition np_zeros (h w : Z) : M loc :=
  if (h <? 0) || (w <? 0) then raise ValueError
  else alloc (NdFloat64 (nd_full (Z.to_nat h) (Z.to_nat w) 0%float)).

(** [a * k] on a uint8 array: a new array, the product wraps. *)
Definition nd_mul_uint8 (l : loc) (k : Z) : M loc :=
  o ← load l;
  match o with
  | NdUint8 a => alloc (NdUint8 (nd_map (fun v => uint8 (v * k)) a))
  | _ => raise TypeError
  end.

(** [target[y:y2, x:x2] = src] on uint8 arrays.  The images handed to the
    line synthesiser are uint8 arrays; the cast numpy would apply to a
    source of another dtype is outside this development (TypeError). *)
Definition setitem_window (target : loc) (y y2 x x2 : Z) (src : option loc) : M unit :=
  match src with
  | None => raise TypeError
  | Some s =>
      so ← load s;
      tobj ← load target;
      match tobj, so with
      | NdUint8 t, NdUint8 a =>
          match nd_setitem t y y2 x x2 a with
          | Some t' => store target (NdUint8 t')
          | None => raise ValueError
          end
      | _, _ => raise TypeError
      end
  end.

(** [img.astype(np.float)]: a new float64 array. *)
Definition astype_float (l : loc) : M loc :=
  o ← load l;
  match o with
  | NdUint8 a => alloc (NdFloat64 (nd_map u8_to_float a))
  | NdFloat64 a => alloc (NdFloat64 a)
  | _ => raise AttributeError
  end.

(** An operation that builds a new float64 array from a float64 array. *)
Definition float_op (f : ndarray float -> ndarray float) (l : loc) : M loc :=
  o ← load l;
  match o with
  | NdFloat64 a => alloc (NdFloat64 (f a))
  | _ => raise TypeError
  end.

(** [cv2.transpose(img)]: a new float64 array with the axes swapped.  For
    an array without cells (a zero dimension) OpenCV produces no matrix and
    the call returns None. *)
Definition cv2_transpose (l : loc) : M (option loc) :=
  o ← load l;
  match o with
  | NdFloat64 a =>
      if (shape0 a =? 0)%nat || (shape1 a =? 0)%nat then mret None
      else r ← alloc (NdFloat64 (nd_transpose a)); mret (Some r)
  | _ => raise TypeError
  end.

(** [img / k]: None has no division (TypeError). *)
Definition nd_truediv (img : option loc) (k : float) : M loc :=
  match img with
  | None => raise TypeError
  | Some l => float_op (nd_map (fun v => v / k)%float) l
  end.

Definition nd_sub (l : loc) (k : float) : M loc :=
  float_op (nd_map (fun v => v - k)%float) l.

(** ** dataloader_iam.Batch

    The class is declared outside the sources at hand; the preprocessor
    builds it positionally from two lists and an integer and reads the three
    attributes below. *)
Record Batch : Type := mk_Batch {
  imgs : loc;
  gt_texts : loc;
  batch_size : Z
}.

(** ** class Preprocessor *)

Record Preprocessor : Type := mk_Preprocessor {
  img_size : Z * Z;
  padding : Z;
  dynamic_width : bool;
  data_augmentation : bool;
  line_mode : bool
}.

(** [Preprocessor.__init__]: two assertions, then the five attributes. *)
Definition __init__ (img_size : Z * Z) (padding : Z)
    (dynamic_width data_augmentation line_mode : bool) : exn + Preprocessor :=
  if negb (negb (dynamic_width && data_augmentation)) then inl AssertionError
  else if negb (negb ((0 <? padding) && negb dynamic_width)) then inl AssertionError
  else inr (mk_Preprocessor img_size padding dynamic_width data_augmentation line_mode).

(** [Preprocessor._truncate_label]: the body of the [for] loop runs on the
    indices of [text] in order, carrying [cost]; [text[:i]] is
    [substring 0 i text]. *)
Fixpoint truncate_loop (text : string) (max_text_len : Z) (idx : list nat) (cost : Z)
  : string :=
  match idx with
  | [] => text
  | i :: rest =>
      let cost :=
        if negb (i =? 0)%nat && bool_decide (String.get i text = String.get (i - 1) text)
        then cost + 2
        else cost + 1 in
      if max_text_len <? cost then substring 0 i text
      else truncate_loop text max_text_len rest cost
  end.

Definition _truncate_label (text : string) (max_text_len : Z) : string :=
  truncate_loop text max_text_len (seq 0 (String.length text)) 0.

(** [Preprocessor._simulate_text_line].  The local variables of the loops
    are their carried state: [(sel_imgs, word_seps, h, w)] for the loop that
    selects the words ([select_word] is its body), the cursor [x] for the
    loop that pastes them ([paste_word] is its body); [simulate_line] is the
    body of the loop over the batch. *)
Definition select_word (self : Preprocessor) (batch : Batch) (i : nat) (num_words : Z)
    (j : nat) : list (option loc) * list Z * Z * Z -> M (list (option loc) * list Z * Z * Z) :=
  fun '(sel_imgs, word_seps, h, w) =>
    let default_word_sep := 30 in
    curr_sel_img ← list_getitem_img (imgs batch)
                     (Z.to_nat ((Z.of_nat i + Z.of_nat j) mod batch_size batch));
    curr_word_sep ← (if data_augmentation self then randint 20 50
                     else mret default_word_sep);
    '(s0, s1) ← shape_of curr_sel_img;
    let h := Z.max h s0 in
    let w := w + s1 in
    let sel_imgs := sel_imgs ++ [curr_sel_img] in
    if Z.of_nat j + 1 <? num_words
    then mret (sel_imgs, word_seps ++ [curr_word_sep], h, w + curr_word_sep)
    else mret (sel_imgs, word_seps, h, w).

Definition select_words (self : Preprocessor) (batch : Batch) (i : nat) (num_words : Z)
  : M (list (option loc) * list Z * Z * Z) :=
  for_each (range num_words) (select_word self batch i num_words) ([], [0], 0, 0).

Definition paste_word (target : loc) (h : Z) (word : option loc * Z) (x : Z) : M Z :=
  let '(curr_sel_img, curr_word_sep) := word in
  let x := x + curr_word_sep in
  '(s0, s1) ← shape_of curr_sel_img;
  let y := (h - s0) `div` 2 in
  setitem_window target y (y + s0) x (x + s1) curr_sel_img;;
  mret (x + s1).

Definition paste_words (target : loc) (h : Z) (sel_imgs : list (option loc))
    (word_seps : list Z) : M Z :=
  for_each (zip sel_imgs word_seps) (paste_word target h) 0.

Definition simulate_line (self : Preprocessor) (batch : Batch)
    (res_imgs res_gt_texts : loc) (i : nat) : M unit :=
  let default_num_words := 5 in
  (* number of words to put into current line *)
  num_words ← (if data_augmentation self then randint 1 8 else mret default_num_words);
  (* concat ground truth texts *)
  words ← list_comp (range num_words)
            (fun j => list_getitem_str (gt_texts batch)
                        (Z.to_nat ((Z.of_nat i + Z.of_nat j) mod batch_size batch)));
  let curr_gt := String.concat " " words in
  list_append_str res_gt_texts curr_gt;;
  (* put selected word images into list, compute target image size *)
  '(sel_imgs, word_seps, h, w) ← select_words self batch i num_words;
  (* put all selected word images into target image *)
  ones ← np_ones_uint8 h w;
  target ← nd_mul_uint8 ones 255;
  paste_words target h sel_imgs word_seps;;
  (* put image of line into result *)
  list_append_img res_imgs (Some target).

Definition _simulate_text_line (self : Preprocessor) (batch : Batch) : M Batch :=
  res_imgs ← alloc (ImgList []);
  res_gt_texts ← alloc (StrList []);
  for_each (range (batch_size batch))
    (fun i (_ : unit) => simulate_line self batch res_imgs res_gt_texts i) tt;;
  mret (mk_Batch res_imgs res_gt_texts (batch_size batch)).

(** [Preprocessor.process_img]: [img_size] is (width, height) and
    [img_size[::-1]] is (height, width). *)
Definition process_img (self : Preprocessor) (img : option loc) : M loc :=
  (* there are damaged files in IAM dataset - just use black image instead *)
  img ← match img with
        | None => np_zeros (img_size self).2 (img_size self).1
        | Some l => mret l
        end;
  img ← astype_float img;
  (* transpose for TF *)
  img ← cv2_transpose img;
  quot ← nd_truediv img 255;
  nd_sub quot 0.5.

(** [Preprocessor.process_batch].  The comprehensions iterate over the lists
    as they are when the iteration starts; no iteration writes to them. *)
Definition process_batch (self : Preprocessor) (batch : Batch) : M Batch :=
  batch ← (if line_mode self then _simulate_text_line self batch else mret batch);
  items ← list_items_img (imgs batch);
  res ← list_comp items (process_img self);
  res_imgs ← alloc (ImgList (Some <$> res));
  img0 ← list_getitem_img res_imgs 0;
  '(s0, _) ← shape_of img0;
  let max_text_len := s0 `div` 4 in
  texts ← list_items_str (gt_texts batch);
  res_gt_texts ← alloc (StrList ((fun gt_text => _truncate_label gt_text max_text_len) <$> texts));
  mret (mk_Batch res_imgs res_gt_texts (batch_size batch)).

(** [main]: the demo at the end of the module.  [img] is what [cv2.imread]
    returned, None when the file could not be read; the result of
    [process_img] is bound to a local variable and dropped. *)
Definition main (img : option loc) : M unit :=
  match __init__ (256, 32) 0 false true false with
  | inl e => raise e
  | inr self => img_aug ← process_img self img; mret tt
  end.

(** * Specifications

    The notions the properties below are stated with: what the truncation
    costs, what a normalised image and a synthesised line look like, and the
    judgements used to reason about runs of the pipeline. *)

(** ** Outcomes of runs *)

(** The objects below [n] are those of [h] and [h'] is at least as long. *)
Definition grows (n : nat) (h h' : list object) : Prop :=
  (length h <= length h')%nat /\ forall l, (l < n)%nat -> h' !! l = h !! l.

(** The outcome of running [m] from [w]: [Q] holds of a returned value and
    the world it is returned in, [E] of a raised exception and its world. *)
Definition wpx {A} (m : M A) (w : world)
    (Q : A -> world -> Prop) (E : exn -> world -> Prop) : Prop :=
  match m w with
  | Ok a w' => Q a w'
  | Raise e w' => E e w'
  end.

Arguments wpx : simpl never.

(** [m] writes to no object below [n]: run from a store that has them, it
    leaves them as they are, on return and on exception, and what it returns
    satisfies [P]. *)
Definition frames {A} (n : nat) (m : M A) (P : A -> Prop) : Prop :=
  forall w, (n <= length (heap w))%nat ->
    wpx m w (fun a w' => grows n (heap w) (heap w') /\ P a)
            (fun _ w' => grows n (heap w) (heap w')).

(** ** Normalised images *)

(** The float64 view of an array, as [astype(np.float)] computes it. *)
Definition as_float (o : object) : option (ndarray float) :=
  match o with
  | NdUint8 a => Some (nd_map u8_to_float a)
  | NdFloat64 a => Some a
  | _ => None
  end.

(** What [process_img] makes of a float64 array: transposed, then divided by
    255, then shifted by 0.5. *)
Definition normalized (a : ndarray float) : ndarray float :=
  nd_map (fun v => v - 0.5)%float (nd_map (fun v => v / 255)%float (nd_transpose a)).

(** The canvas that stands for a missing image: zeros, (height, width). *)
Definition blank (self : Preprocessor) : ndarray float :=
  nd_full (Z.to_nat (img_size self).2) (Z.to_nat (img_size self).1) 0%float.

(** An array with at least one cell. *)
Definition nonempty {T} (a : ndarray T) : Prop :=
  (0 < shape0 a)%nat /\ (0 < shape1 a)%nat.

(** The array that [process_img] normalises: the image, when it has cells,
    or the blank canvas when the image is missing and both components of the
    target size are positive.  ([cv2.transpose] gives None for an array
    without cells.) *)
Definition image_source (self : Preprocessor) (h : list object) (img : option loc)
    (a : ndarray float) : Prop :=
  match img with
  | Some l => exists o, h !! l = Some o /\ as_float o = Some a /\ nonempty a
  | None => 0 < (img_size self).2 /\ 0 < (img_size self).1 /\
            a = blank self
  end.

(** The objects [process_img] allocates, in order, for the source [a]. *)
Definition normalize_trail (a : ndarray float) : list object :=
  [NdFloat64 a; NdFloat64 (nd_transpose a);
   NdFloat64 (nd_map (fun v => v / 255)%float (nd_transpose a));
   NdFloat64 (normalized a)].

(** [process_batch] after the optional line synthesis. *)
Definition normalize_batch (self : Preprocessor) (batch : Batch) : M Batch :=
  items ← list_items_img (imgs batch);
  res ← list_comp items (process_img self);
  res_imgs ← alloc (ImgList (Some <$> res));
  img0 ← list_getitem_img res_imgs 0;
  '(s0, _) ← shape_of img0;
  let max_text_len := s0 `div` 4 in
  texts ← list_items_str (gt_texts batch);
  res_gt_texts ← alloc (StrList ((fun gt_text => _truncate_label gt_text max_text_len) <$> texts));
  mret (mk_Batch res_imgs res_gt_texts (batch_size batch)).

(** Computations that leave the store as it is. *)
Definition keeps {A} (m : M A) : Prop := forall w, heap (final (m w)) = heap w.

(** ** Synthesised lines *)

(** Cell [(r, c)] lies in the window of [a] whose top-left corner is [(y, x)]. *)
Definition in_window (y x : Z) (a : ndarray Z) (r c : nat) : Prop :=
  y <= Z.of_nat r < y + Z.of_nat (shape0 a) /\ x <= Z.of_nat c < x + Z.of_nat (shape1 a).

(** The windows [paste_words] writes, in order: word [a] after separator
    [sep] goes to the row [(h - shape0 a) // 2] and to the cursor. *)
Fixpoint windows (h x : Z) (words : list (ndarray Z)) (seps : list Z)
  : list (Z * Z * ndarray Z) :=
  match words, seps with
  | a :: words', sep :: seps' =>
      ((h - Z.of_nat (shape0 a)) `div` 2, x + sep, a)
        :: windows h (x + sep + Z.of_nat (shape1 a)) words' seps'
  | _, _ => []
  end.

(** The sum of a list of integers. *)
Definition Zsum (l : list Z) : Z := foldr Z.add 0 l.

(** The index of word [j] of line [i]: cyclic over the batch. *)
Definition cyclic (bs : Z) (i j : nat) : nat :=
  Z.to_nat ((Z.of_nat i + Z.of_nat j) mod bs).

(** The separators [select_words] may produce. *)
Definition valid_sep (self : Preprocessor) (sep : Z) : Prop :=
  if data_augmentation self then 20 <= sep <= 50 else sep = 30.

(** The number of words of a line. *)
Definition valid_num_words (self : Preprocessor) (n : Z) : Prop :=
  if data_augmentation self then 1 <= n <= 8 else n = 5.

(** The result lists of [_simulate_text_line] after [k] lines: [k] canvases
    and [k] transcripts; canvas [i] is a uint8 array allocated after the two
    lists, and it satisfies [P i] together with transcript [i]. *)
Definition lines_done (P : nat -> ndarray Z -> string -> Prop) (p q : loc) (k : nat)
    (h : list object) : Prop :=
  exists canv txts,
    h !! p = Some (ImgList (Some <$> canv)) /\ h !! q = Some (StrList txts) /\
    length canv = k /\ length txts = k /\
    forall i t, canv !! i = Some t ->
      (p < t)%nat /\ (q < t)%nat /\
      exists c tr, h !! t = Some (NdUint8 c) /\ txts !! i = Some tr /\ P i c tr.

(** What one line does to the store, when it returns. *)
Definition line_post (P : nat -> ndarray Z -> string -> Prop) (p q : loc) (i : nat)
    (lp : list (option loc)) (lq : list string) (w w' : world) : Prop :=
  exists t tr c,
    heap w' !! p = Some (ImgList (lp ++ [Some t])) /\
    heap w' !! q = Some (StrList (lq ++ [tr])) /\
    (length (heap w) <= t)%nat /\
    heap w' !! t = Some (NdUint8 c) /\
    (forall l, (l < length (heap w))%nat -> l <> p -> l <> q ->
               heap w' !! l = heap w !! l) /\
    P i c tr.

(** The canvas of one line: as high as the highest word, as wide as the
    words and the separators together, each word in its window and 255
    everywhere else. *)
Definition canvas_of (words : list (ndarray Z)) (seps : list Z) (c : ndarray Z) : Prop :=
  let h := Z.of_nat (max_list_with shape0 words) in
  Z.of_nat (shape0 c) = h /\
  Z.of_nat (shape1 c) = Z.of_nat (sum_list_with shape1 words) + Zsum seps /\
  (forall k y xl a, windows h 0 words seps !! k = Some (y, xl, a) ->
     forall r col, in_window y xl a r col ->
       item c r col = item a (r - Z.to_nat y)%nat (col - Z.to_nat xl)%nat) /\
  (forall r col,
     Forall (fun '(y, xl, a) => ~ in_window y xl a r col) (windows h 0 words seps) ->
     item c r col = 255).

(** Line [i] of a batch with texts [tl] and word images [arrs]: the words
    are picked cyclically, the transcript joins their texts with one space,
    the canvas holds their images. *)
Definition line_of (self : Preprocessor) (tl : list string) (arrs : list (ndarray Z))
    (bs : Z) (i : nat) (c : ndarray Z) (tr : string) : Prop :=
  exists nw texts words ss,
    valid_num_words self nw /\
    Forall2 (fun j t => tl !! cyclic bs i j = Some t) (seq 0 (Z.to_nat nw)) texts /\
    Forall2 (fun j a => arrs !! cyclic bs i j = Some a) (seq 0 (Z.to_nat nw)) words /\
    length ss = (Z.to_nat nw - 1)%nat /\ Forall (valid_sep self) ss /\
    tr = String.concat " " texts /\
    canvas_of words (0 :: ss) c.

(** The objects [process_img] allocates are float64 arrays. *)
Definition is_float_array (o : object) : Prop := exists a, o = NdFloat64 a.

(** An image [process_img] accepts: an array of the store that has cells,
    or a missing image when both components of the target size are
    positive. *)
Definition image_ok (self : Preprocessor) (h : list object) (img : option loc) : Prop :=
  exists a, image_source self h img a.

(** ** The cost of a label *)

(** The cost of the character at position [i]: 2 when it repeats the
    character before it, 1 otherwise. *)
Definition char_cost (text : string) (i : nat) : Z :=
  if negb (i =? 0)%nat && bool_decide (String.get i text = String.get (i - 1) text)
  then 2 else 1.

(** The cost of the first [n] characters. *)
Fixpoint cost_upto (text : string) (n : nat) : Z :=
  match n with
  | O => 0
  | S k => cost_upto text k + char_cost text k
  end.

(** The cumulative cost at position [i], that character included. *)
Definition cumulative_cost (text : string) (i : nat) : Z := cost_upto text (S i).

(** ** The two stages of the pipeline *)

(** The batch that [process_batch] normalises: the synthesised lines in line
    mode, the batch itself otherwise. *)
Definition line_stage (self : Preprocessor) (batch : Batch) (w : world)
    (mid : Batch) (w1 : world) : Prop :=
  if line_mode self then _simulate_text_line self batch w = Ok mid w1
  else mid = batch /\ w1 = w.

(** The word images the line synthesiser needs: present uint8 arrays. *)
Definition word_image (h : list object) (img : option loc) : Prop :=
  exists r a, img = Some r /\ h !! r = Some (NdUint8 a).

(** A word image with cells.  Lines made of such words have cells too, so
    that [process_img] accepts them. *)
Definition word_nonempty (h : list object) (img : option loc) : Prop :=
  exists r a, img = Some r /\ h !! r = Some (NdUint8 a) /\ nonempty a.

(** ** The layout of a line *)

(** The layout of a line without augmentation.  Word [j] has its top row at
    [(canvas_height - word_height) // 2] and its left column after the words
    before it and one separator of 30 for each of them. *)
Definition word_top (h : nat) (a : ndarray Z) : nat := ((h - shape0 a) / 2)%nat.

Definition word_left (words : list (ndarray Z)) (j : nat) : nat :=
  (sum_list_with shape1 (take j words) + 30 * j)%nat.

(** Cell [(r, col)] of the canvas belongs to word [j]. *)
Definition in_word (h : nat) (words : list (ndarray Z)) (j : nat) (a : ndarray Z)
    (r col : nat) : Prop :=
  (word_top h a <= r < word_top h a + shape0 a)%nat /\
  (word_left words j <= col < word_left words j + shape1 a)%nat.

(** The canvas [c] of a line of 5 [words] without augmentation. *)
Definition fixed_line (words : list (ndarray Z)) (c : ndarray Z) : Prop :=
  length words = 5%nat /\
  shape0 c = max_list_with shape0 words /\
  shape1 c = (sum_list_with shape1 words + 4 * 30)%nat /\
  (forall j a r col, words !! j = Some a ->
     (r < shape0 a)%nat -> (col < shape1 a)%nat ->
     item c (word_top (shape0 c) a + r)%nat (word_left words j + col)%nat = item a r col) /\
  (forall r col,
     (forall j a, words !! j = Some a -> ~ in_word (shape0 c) words j a r col) ->
     item c r col = 255).

(** ** A small batch to run the pipeline on: a 2x9 and a 4x1 word image. *)
Definition ex_img0 : ndarray Z := mk_ndarray 2 9 (fun r c => Z.of_nat (10 * r + c)).
Definition ex_img1 : ndarray Z := mk_ndarray 4 1 (fun r _ => 100 + Z.of_nat r).

Definition ex_world : world :=
  mk_world [NdUint8 ex_img0; NdUint8 ex_img1;
            ImgList [Some 0%nat; Some 1%nat]; StrList ["aab"; "ccd"]%string]
           (fun _ => 0) 0.

Definition ex_batch : Batch := mk_Batch 2 3 2.

Definition ex_words : Preprocessor := mk_Preprocessor (8, 4) 0 false false false.
Definition ex_lines : Preprocessor := mk_Preprocessor (8, 4) 0 false false true.

(** ** The grey levels *)

(** The grey levels of a uint8 image. *)
Definition grey_levels : list Z := Z.of_nat <$> seq 0 256.

(** The check, on all grey levels, that normalisation stays in [-0.5, 0.5]
    and is strictly increasing. *)
Definition levels_checked : bool :=
  forallb (fun v =>
    PrimFloat.leb (-0.5) (u8_to_float v / 255 - 0.5) &&
    PrimFloat.leb (u8_to_float v / 255 - 0.5) 0.5 &&
    forallb (fun v' =>
      implb (v <? v')
            (PrimFloat.ltb (u8_to_float v / 255 - 0.5) (u8_to_float v' / 255 - 0.5)))
      grey_levels)
    grey_levels.

(** ** Missing word images *)

(** An entry of the image list handed to the line synthesiser: a uint8
    word image, or None for a file that could not be read. *)
Definition word_or_missing (h : list object) (img : option loc) : Prop :=
  img = None \/ word_image h img.

(** ** The random source *)

(** The same world with another random source: tape [t], of which [d]
    outcomes are consumed. *)
Definition retape (t : nat -> Z) (d : nat) (w : world) : world :=
  mk_world (heap w) t d.

Definition outcome_retape {A} (t : nat -> Z) (d : nat) (o : outcome A) : outcome A :=
  match o with
  | Ok a w => Ok a (retape t d w)
  | Raise e w => Raise e (retape t d w)
  end.

(** Computations that neither read nor advance the random source: with
    another source they do the same, and leave that source as it is. *)
Definition ignores_random {A} (m : M A) : Prop :=
  forall w t d, m (retape t d w) = outcome_retape t d (m w).

(** A batch with a missing image, and one that declares fewer samples than
    it has. *)
Definition ex_world_missing : world :=
  mk_world [NdUint8 ex_img0; ImgList [Some 0%nat; None];
            StrList ["aab"; "ccd"]%string] (fun _ => 0) 0.

Definition ex_batch_missing : Batch := mk_Batch 1 2 2.

Definition ex_batch_short : Batch := mk_Batch 1 2 1.

(** * Properties *)

(** ** Stores that grow and computations that write above a bound *)

Lemma grows_refl n h : grows n h h.
Proof. by split. Qed.

Lemma grows_trans n h1 h2 h3 : grows n h1 h2 -> grows n h2 h3 -> grows n h1 h3.
Proof.
  intros [L1 F1] [L2 F2]. split; [lia|]. intros l Hl. rewrite F2, F1; auto.
Qed.

Lemma grows_app n h o : (n <= length h)%nat -> grows n h (h ++ [o]).
Proof.
  intros Hn. split; [rewrite length_app; lia|].
  intros l Hl. apply lookup_app_l. lia.
Qed.

Lemma grows_insert n h l o : (n <= l)%nat -> grows n h (<[l := o]> h).
Proof.
  intros Hn. split; [by rewrite length_insert|].
  intros k Hk. apply list_lookup_insert_ne. lia.
Qed.

Lemma wpx_ret {A} (a : A) w Q E : Q a w -> wpx (mret a) w Q E.
Proof. done. Qed.

Lemma wpx_bind {A B} (m : M A) (f : A -> M B) w Q E :
  wpx m w (fun a w' => wpx (f a) w' Q E) E -> wpx (m ≫= f) w Q E.
Proof. unfold wpx. cbv [mbind M_bind]. by destruct (m w). Qed.

Lemma wpx_mono {A} (m : M A) w (Q Q' : A -> world -> Prop) (E E' : exn -> world -> Prop) :
  wpx m w Q E ->
  (forall a w', Q a w' -> Q' a w') -> (forall e w', E e w' -> E' e w') ->
  wpx m w Q' E'.
Proof. unfold wpx. destruct (m w); auto. Qed.

Lemma wpx_inv_ok {A} (m : M A) w a w' Q E : wpx m w Q E -> m w = Ok a w' -> Q a w'.
Proof. unfold wpx. intros H Heq. by rewrite Heq in H. Qed.

Lemma frames_ret {A} n (a : A) (P : A -> Prop) : P a -> frames n (mret a) P.
Proof. intros Ha w Hw. split; [apply grows_refl|done]. Qed.

Lemma frames_raise {A} n e (P : A -> Prop) : frames n (raise e) P.
Proof. intros w Hw. apply grows_refl. Qed.

Lemma frames_bind {A B} n (m : M A) (f : A -> M B) (P : A -> Prop) (Q : B -> Prop) :
  frames n m P -> (forall a, P a -> frames n (f a) Q) -> frames n (m ≫= f) Q.
Proof.
  intros Hm Hf w Hw. apply wpx_bind. eapply wpx_mono; [apply Hm, Hw| |done].
  intros a w' [Hg Ha]. cbv beta.
  eapply wpx_mono; [apply (Hf a Ha) | |].
  - destruct Hg; lia.
  - intros b w'' [Hg' Hb]. split; [by eapply grows_trans|done].
  - intros e w'' Hg'. by eapply grows_trans.
Qed.

Lemma frames_weaken {A} n (m : M A) (P P' : A -> Prop) :
  frames n m P -> (forall a, P a -> P' a) -> frames n m P'.
Proof.
  intros Hm HP w Hw. eapply wpx_mono; [apply Hm, Hw| |done].
  intros a w' [? ?]. auto.
Qed.

Lemma frames_alloc n o : frames n (alloc o) (fun l => (n <= l)%nat).
Proof. intros w Hw. split; [by apply grows_app|done]. Qed.

Lemma frames_load n l : frames n (load l) (fun _ => True).
Proof.
  intros w Hw. unfold wpx, load. destruct (heap w !! l); try split; auto using grows_refl.
Qed.

Lemma frames_store n l o : (n <= l)%nat -> frames n (store l o) (fun _ => True).
Proof. intros Hl w Hw. split; [by apply grows_insert|done]. Qed.

Lemma frames_randint n lo hi : frames n (randint lo hi) (fun _ => True).
Proof. intros w Hw. split; [apply grows_refl|done]. Qed.

Lemma frames_for_each {A S} n (xs : list A) (body : A -> S -> M S) (I : S -> Prop) :
  (forall x s, I s -> frames n (body x s) I) ->
  forall s, I s -> frames n (for_each xs body s) I.
Proof.
  intros Hbody. induction xs as [|x xs IH]; intros s Hs; simpl.
  - by apply frames_ret.
  - eapply frames_bind; [by apply Hbody|]. intros s' Hs'. by apply IH.
Qed.

Lemma frames_list_comp {A B} n (xs : list A) (f : A -> M B) (P : B -> Prop) :
  (forall x, frames n (f x) P) -> frames n (list_comp xs f) (Forall P).
Proof.
  intros Hf. induction xs as [|x xs IH]; simpl.
  - by apply frames_ret.
  - eapply frames_bind; [apply Hf|]. intros y Hy.
    eapply frames_bind; [apply IH|]. intros ys Hys.
    apply frames_ret. by constructor.
Qed.

Lemma frames_any {A} n (m : M A) P : frames n m P -> frames n m (fun _ => True).
Proof. intros H. by eapply frames_weaken. Qed.

Lemma frames_list_items_img n l : frames n (list_items_img l) (fun _ => True).
Proof.
  unfold list_items_img. eapply frames_bind; [apply frames_load|]. intros o _.
  destruct o; first [by apply frames_ret | apply frames_raise].
Qed.

Lemma frames_list_items_str n l : frames n (list_items_str l) (fun _ => True).
Proof.
  unfold list_items_str. eapply frames_bind; [apply frames_load|]. intros o _.
  destruct o; first [by apply frames_ret | apply frames_raise].
Qed.

Lemma frames_list_getitem_img n l k : frames n (list_getitem_img l k) (fun _ => True).
Proof.
  unfold list_getitem_img. eapply frames_bind; [apply frames_list_items_img|].
  intros xs _. destruct (xs !! k); first [by apply frames_ret | apply frames_raise].
Qed.

Lemma frames_list_getitem_str n l k : frames n (list_getitem_str l k) (fun _ => True).
Proof.
  unfold list_getitem_str. eapply frames_bind; [apply frames_list_items_str|].
  intros xs _. destruct (xs !! k); first [by apply frames_ret | apply frames_raise].
Qed.

Lemma frames_list_append_img n l x :
  (n <= l)%nat -> frames n (list_append_img l x) (fun _ => True).
Proof.
  intros Hl. unfold list_append_img.
  eapply frames_bind; [apply frames_list_items_img|]. intros xs _. by apply frames_store.
Qed.

Lemma frames_list_append_str n l x :
  (n <= l)%nat -> frames n (list_append_str l x) (fun _ => True).
Proof.
  intros Hl. unfold list_append_str.
  eapply frames_bind; [apply frames_list_items_str|]. intros xs _. by apply frames_store.
Qed.

Lemma frames_shape_of n img : frames n (shape_of img) (fun _ => True).
Proof.
  unfold shape_of. destruct img; [|apply frames_raise].
  eapply frames_bind; [apply frames_load|]. intros o _.
  destruct o; first [by apply frames_ret | apply frames_raise].
Qed.

Lemma frames_np_ones_uint8 n h w : frames n (np_ones_uint8 h w) (fun l => (n <= l)%nat).
Proof. unfold np_ones_uint8. case_match; [apply frames_raise|apply frames_alloc]. Qed.

Lemma frames_np_zeros n h w : frames n (np_zeros h w) (fun l => (n <= l)%nat).
Proof. unfold np_zeros. case_match; [apply frames_raise|apply frames_alloc]. Qed.

Lemma frames_nd_mul_uint8 n l k : frames n (nd_mul_uint8 l k) (fun l => (n <= l)%nat).
Proof.
  unfold nd_mul_uint8. eapply frames_bind; [apply frames_load|]. intros o _.
  destruct o; first [apply frames_alloc | apply frames_raise].
Qed.

Lemma frames_setitem_window n t y y2 x x2 src :
  (n <= t)%nat -> frames n (setitem_window t y y2 x x2 src) (fun _ => True).
Proof.
  intros Ht. unfold setitem_window. destruct src; [|apply frames_raise].
  eapply frames_bind; [apply frames_load|]. intros so _.
  eapply frames_bind; [apply frames_load|]. intros tobj _.
  destruct tobj, so; try apply frames_raise.
  case_match; [by apply frames_store|apply frames_raise].
Qed.

Lemma frames_astype_float n l : frames n (astype_float l) (fun l => (n <= l)%nat).
Proof.
  unfold astype_float. eapply frames_bind; [apply frames_load|]. intros o _.
  destruct o; first [apply frames_alloc | apply frames_raise].
Qed.

Lemma frames_float_op n f l : frames n (float_op f l) (fun l => (n <= l)%nat).
Proof.
  unfold float_op. eapply frames_bind; [apply frames_load|]. intros o _.
  destruct o; first [apply frames_alloc | apply frames_raise].
Qed.

Lemma frames_cv2_transpose n l :
  frames n (cv2_transpose l) (fun r => forall r', r = Some r' -> (n <= r')%nat).
Proof.
  unfold cv2_transpose. eapply frames_bind; [apply frames_load|]. intros o _.
  destruct o; try apply frames_raise.
  case_match; [by apply frames_ret|].
  eapply frames_bind; [apply frames_alloc|]. intros r Hr.
  apply frames_ret. by intros r' [= <-].
Qed.

Lemma frames_nd_truediv n img k : frames n (nd_truediv img k) (fun l => (n <= l)%nat).
Proof. destruct img; [apply frames_float_op|apply frames_raise]. Qed.

Lemma frames_process_img n self img : frames n (process_img self img) (fun l => (n <= l)%nat).
Proof.
  unfold process_img.
  eapply frames_bind with (P := fun _ => True).
  { destruct img; [by apply frames_ret|]. eapply frames_any, frames_np_zeros. }
  intros l _. eapply frames_bind; [apply frames_astype_float|]. intros l1 _.
  eapply frames_bind; [apply frames_cv2_transpose|]. intros l2 _.
  eapply frames_bind; [apply frames_nd_truediv|]. intros l3 _.
  apply frames_float_op.
Qed.

Lemma frames_select_words n self batch i num_words :
  frames n (select_words self batch i num_words) (fun _ => True).
Proof.
  unfold select_words. apply frames_for_each; [|done].
  intros j [[[sel seps] h] w] _.
  eapply frames_bind; [apply frames_list_getitem_img|]. intros img _.
  eapply frames_bind with (P := fun _ => True).
  { destruct (data_augmentation self); [apply frames_randint|by apply frames_ret]. }
  intros sep _. eapply frames_bind; [apply frames_shape_of|]. intros [s0 s1] _.
  case_match; by apply frames_ret.
Qed.

Lemma frames_paste_words n target h sel seps :
  (n <= target)%nat -> frames n (paste_words target h sel seps) (fun _ => True).
Proof.
  intros Ht. unfold paste_words. apply frames_for_each; [|done].
  intros [img sep] x _.
  eapply frames_bind; [apply frames_shape_of|]. intros [s0 s1] _.
  eapply frames_bind; [by apply frames_setitem_window|]. intros _ _.
  by apply frames_ret.
Qed.

Lemma frames_simulate_line n self batch p q i :
  (n <= p)%nat -> (n <= q)%nat ->
  frames n (simulate_line self batch p q i) (fun _ => True).
Proof.
  intros Hp Hq. unfold simulate_line.
  eapply frames_bind with (P := fun _ => True).
  { destruct (data_augmentation self); [apply frames_randint|by apply frames_ret]. }
  intros nw _. eapply frames_bind.
  { apply frames_list_comp. intros j. apply frames_list_getitem_str. }
  intros words _. eapply frames_bind; [by apply frames_list_append_str|]. intros _ _.
  eapply frames_bind; [apply frames_select_words|]. intros [[[sel seps] h] w] _.
  eapply frames_bind; [apply frames_np_ones_uint8|]. intros ones _.
  eapply frames_bind; [apply frames_nd_mul_uint8|]. intros target Ht.
  eapply frames_bind; [by apply frames_paste_words|]. intros _ _.
  by apply frames_list_append_img.
Qed.

Lemma frames_simulate_text_line n self batch :
  frames n (_simulate_text_line self batch)
    (fun b => (n <= imgs b)%nat /\ (n <= gt_texts b)%nat /\ batch_size b = batch_size batch).
Proof.
  unfold _simulate_text_line.
  eapply frames_bind; [apply frames_alloc|]. intros p Hp.
  eapply frames_bind; [apply frames_alloc|]. intros q Hq.
  eapply frames_bind.
  { apply frames_for_each with (I := fun _ => True); [|done].
    intros i [] _. by apply frames_simulate_line. }
  intros _ _. by apply frames_ret.
Qed.

Lemma frames_process_batch n self batch :
  frames n (process_batch self batch)
    (fun b => (n <= imgs b)%nat /\ (n <= gt_texts b)%nat).
Proof.
  unfold process_batch.
  eapply frames_bind with (P := fun _ => True).
  { destruct (line_mode self); [eapply frames_any, frames_simulate_text_line|by apply frames_ret]. }
  intros b _. eapply frames_bind; [apply frames_list_items_img|]. intros items _.
  eapply frames_bind.
  { apply frames_list_comp. intros img. apply frames_process_img. }
  intros res _. eapply frames_bind; [apply frames_alloc|]. intros p Hp.
  eapply frames_bind; [apply frames_list_getitem_img|]. intros img0 _.
  eapply frames_bind; [apply frames_shape_of|]. intros [s0 s1] _.
  eapply frames_bind; [apply frames_list_items_str|]. intros texts _.
  eapply frames_bind; [apply frames_alloc|]. intros q Hq.
  by apply frames_ret.
Qed.

(** ** Runs of [process_img] *)

Lemma load_ok l o w : heap w !! l = Some o -> load l w = Ok o w.
Proof. unfold load. by intros ->. Qed.

Lemma bind_ok {A B} (m : M A) (f : A -> M B) w a w' :
  m w = Ok a w' -> (m ≫= f) w = f a w'.
Proof. cbv [mbind M_bind]. by intros ->. Qed.

Lemma bind_raise {A B} (m : M A) (f : A -> M B) w e w' :
  m w = Raise e w' -> (m ≫= f) w = Raise e w'.
Proof. cbv [mbind M_bind]. by intros ->. Qed.

Lemma bind_inv {A B} (m : M A) (f : A -> M B) w b w' :
  (m ≫= f) w = Ok b w' -> exists a w1, m w = Ok a w1 /\ f a w1 = Ok b w'.
Proof. cbv [mbind M_bind]. destruct (m w) as [a w1|]; [eauto|done]. Qed.

Lemma astype_float_ok l o a w :
  heap w !! l = Some o -> as_float o = Some a ->
  astype_float l w = Ok (length (heap w)) (set_heap w (heap w ++ [NdFloat64 a])).
Proof.
  intros Hl Ha. unfold astype_float. rewrite (bind_ok _ _ _ _ _ (load_ok _ _ _ Hl)).
  destruct o; simplify_eq/=; done.
Qed.

Lemma float_op_ok f l a w :
  heap w !! l = Some (NdFloat64 a) ->
  float_op f l w = Ok (length (heap w)) (set_heap w (heap w ++ [NdFloat64 (f a)])).
Proof.
  intros Hl. unfold float_op. by rewrite (bind_ok _ _ _ _ _ (load_ok _ _ _ Hl)).
Qed.

Lemma lookup_last (h : list object) o : (h ++ [o]) !! length h = Some o.
Proof. by apply list_lookup_middle. Qed.

Lemma nonempty_test {T} (a : ndarray T) :
  nonempty a -> (shape0 a =? 0)%nat || (shape1 a =? 0)%nat = false.
Proof.
  intros [H0 H1]. destruct (Nat.eqb_spec (shape0 a) 0); [lia|].
  destruct (Nat.eqb_spec (shape1 a) 0); [lia|done].
Qed.

Lemma nonempty_cases {T} (a : ndarray T) :
  nonempty a \/ (shape0 a =? 0)%nat || (shape1 a =? 0)%nat = true.
Proof.
  unfold nonempty. destruct (Nat.eqb_spec (shape0 a) 0); [by right|].
  destruct (Nat.eqb_spec (shape1 a) 0); [by right|]. left. lia.
Qed.

Lemma cv2_transpose_ok l a w :
  heap w !! l = Some (NdFloat64 a) -> nonempty a ->
  cv2_transpose l w
  = Ok (Some (length (heap w))) (set_heap w (heap w ++ [NdFloat64 (nd_transpose a)])).
Proof.
  intros Hl Ha. unfold cv2_transpose. rewrite (bind_ok _ _ _ _ _ (load_ok _ _ _ Hl)).
  by rewrite (nonempty_test _ Ha).
Qed.

Lemma cv2_transpose_empty l a w :
  heap w !! l = Some (NdFloat64 a) ->
  (shape0 a =? 0)%nat || (shape1 a =? 0)%nat = true ->
  cv2_transpose l w = Ok None w.
Proof.
  intros Hl Ha. unfold cv2_transpose. rewrite (bind_ok _ _ _ _ _ (load_ok _ _ _ Hl)).
  by rewrite Ha.
Qed.

Lemma normalize_ok l o a w :
  heap w !! l = Some o -> as_float o = Some a -> nonempty a ->
  (img ← astype_float l; img ← cv2_transpose img; quot ← nd_truediv img 255;
   nd_sub quot 0.5) w
  = Ok (length (heap w) + 3)%nat (set_heap w (heap w ++ normalize_trail a)).
Proof.
  intros Hl Ha Hne. rewrite (bind_ok _ _ _ _ _ (astype_float_ok _ _ _ _ Hl Ha)).
  erewrite bind_ok by (apply cv2_transpose_ok; [apply lookup_last|done]).
  unfold nd_truediv, nd_sub.
  erewrite bind_ok by (apply float_op_ok, lookup_last).
  erewrite float_op_ok by apply lookup_last.
  unfold set_heap, normalize_trail, normalized. simpl.
  rewrite !length_app, <- !app_assoc. simpl. f_equal. lia.
Qed.

(** An array without cells: [cv2.transpose] gives None, and the division
    raises TypeError; the float copy has been allocated by then. *)
Lemma normalize_empty l o a w :
  heap w !! l = Some o -> as_float o = Some a ->
  (shape0 a =? 0)%nat || (shape1 a =? 0)%nat = true ->
  (img ← astype_float l; img ← cv2_transpose img; quot ← nd_truediv img 255;
   nd_sub quot 0.5) w
  = Raise TypeError (set_heap w (heap w ++ [NdFloat64 a])).
Proof.
  intros Hl Ha He. rewrite (bind_ok _ _ _ _ _ (astype_float_ok _ _ _ _ Hl Ha)).
  erewrite bind_ok by (eapply cv2_transpose_empty; [apply lookup_last|done]).
  done.
Qed.

Lemma process_img_some self l o a w :
  heap w !! l = Some o -> as_float o = Some a -> nonempty a ->
  process_img self (Some l) w
  = Ok (length (heap w) + 3)%nat (set_heap w (heap w ++ normalize_trail a)).
Proof. intros Hl Ha Hne. unfold process_img. by eapply normalize_ok. Qed.

Lemma process_img_empty self l o a w :
  heap w !! l = Some o -> as_float o = Some a ->
  (shape0 a =? 0)%nat || (shape1 a =? 0)%nat = true ->
  process_img self (Some l) w = Raise TypeError (set_heap w (heap w ++ [NdFloat64 a])).
Proof. intros Hl Ha He. unfold process_img. by eapply normalize_empty. Qed.

Lemma np_zeros_ok h wd w :
  0 <= h -> 0 <= wd ->
  np_zeros h wd w
  = Ok (length (heap w))
       (set_heap w (heap w ++ [NdFloat64 (nd_full (Z.to_nat h) (Z.to_nat wd) 0%float)])).
Proof.
  intros Hh Hwd. unfold np_zeros. destruct (Z.ltb_spec h 0); [lia|].
  destruct (Z.ltb_spec wd 0); [lia|]. done.
Qed.

Lemma blank_nonempty self :
  0 < (img_size self).2 -> 0 < (img_size self).1 -> nonempty (blank self).
Proof. intros H2 H1. unfold nonempty, blank. simpl. lia. Qed.

Lemma process_img_none self w :
  0 < (img_size self).2 -> 0 < (img_size self).1 ->
  process_img self None w
  = Ok (length (heap w) + 4)%nat
       (set_heap w (heap w ++ NdFloat64 (blank self) :: normalize_trail (blank self))).
Proof.
  intros H2 H1. unfold process_img.
  rewrite (bind_ok _ _ _ _ _ (np_zeros_ok (img_size self).2 (img_size self).1 w
                                ltac:(lia) ltac:(lia))).
  fold (blank self).
  erewrite normalize_ok; [|apply lookup_last|done|by apply blank_nonempty].
  unfold set_heap. simpl. rewrite length_app, <- app_assoc. simpl. f_equal. lia.
Qed.

(** A missing image with a zero component in the target size: the canvas
    has no cell, and the call raises TypeError. *)
Lemma process_img_none_empty self w :
  0 <= (img_size self).2 -> 0 <= (img_size self).1 ->
  (img_size self).2 = 0 \/ (img_size self).1 = 0 ->
  process_img self None w
  = Raise TypeError (set_heap w (heap w ++ [NdFloat64 (blank self); NdFloat64 (blank self)])).
Proof.
  intros H2 H1 Hz. unfold process_img.
  rewrite (bind_ok _ _ _ _ _ (np_zeros_ok _ _ w H2 H1)). fold (blank self).
  erewrite normalize_empty; [|apply lookup_last|done|].
  - unfold set_heap. simpl. by rewrite <- app_assoc.
  - unfold blank. simpl. destruct Hz as [-> | ->]; simpl; [done|apply orb_true_r].
Qed.

Lemma process_img_inv self img w r w' :
  process_img self img w = Ok r w' ->
  exists a ext,
    image_source self (heap w) img a /\
    heap w' = heap w ++ ext /\
    (length (heap w) <= r)%nat /\
    heap w' !! r = Some (NdFloat64 (normalized a)).
Proof.
  intros Hrun. destruct img as [l|].
  - destruct (heap w !! l) as [o|] eqn:Hl; cycle 1.
    { unfold process_img, astype_float, load in Hrun.
      cbv [mbind M_bind mret M_ret] in Hrun. by rewrite Hl in Hrun. }
    destruct (as_float o) as [a|] eqn:Ha; cycle 1.
    { unfold process_img, astype_float, load in Hrun.
      cbv [mbind M_bind mret M_ret] in Hrun. rewrite Hl in Hrun. by destruct o. }
    destruct (nonempty_cases a) as [Hne|He]; cycle 1.
    { by rewrite (process_img_empty _ _ _ _ _ Hl Ha He) in Hrun. }
    rewrite (process_img_some _ _ _ _ _ Hl Ha Hne) in Hrun. simplify_eq/=.
    exists a, (normalize_trail a). repeat split; eauto; [lia|].
    rewrite lookup_app_r by lia.
    by replace (length (heap w) + 3 - length (heap w))%nat with 3%nat by lia.
  - destruct (Z.ltb_spec (img_size self).2 0) as [Hn|H2].
    { unfold process_img, np_zeros in Hrun.
      apply Z.ltb_lt in Hn. by rewrite Hn in Hrun. }
    destruct (Z.ltb_spec (img_size self).1 0) as [Hn|H1].
    { unfold process_img, np_zeros in Hrun.
      apply Z.ltb_lt in Hn. rewrite Hn, orb_true_r in Hrun. done. }
    destruct (decide ((img_size self).2 = 0 \/ (img_size self).1 = 0)) as [Hz|Hnz].
    { by rewrite (process_img_none_empty _ _ H2 H1 Hz) in Hrun. }
    assert (H2' : 0 < (img_size self).2) by (apply Decidable.not_or in Hnz; lia).
    assert (H1' : 0 < (img_size self).1) by (apply Decidable.not_or in Hnz; lia).
    rewrite (process_img_none self w H2' H1') in Hrun. simplify_eq/=.
    exists (blank self), (NdFloat64 (blank self) :: normalize_trail (blank self)).
    repeat split; eauto; try lia.
    rewrite lookup_app_r by lia.
    by replace (length (heap w) + 4 - length (heap w))%nat with 4%nat by lia.
Qed.

(** ** The comprehension over the images and the rest of [process_batch] *)

Lemma image_source_app self h ext img a :
  image_source self h img a -> image_source self (h ++ ext) img a.
Proof.
  destruct img as [l|]; [|done]. intros (o & Hl & Ha). exists o.
  split; [by apply lookup_app_l_Some|done].
Qed.

Lemma list_comp_process_inv self items : forall w res w',
  list_comp items (process_img self) w = Ok res w' ->
  (exists ext, heap w' = heap w ++ ext) /\
  Forall2 (fun img r => (length (heap w) <= r)%nat /\
             exists a, image_source self (heap w') img a /\
                       heap w' !! r = Some (NdFloat64 (normalized a))) items res /\
  (forall img0 rest, items = img0 :: rest ->
     exists r0 a, res !! 0%nat = Some r0 /\ image_source self (heap w) img0 a /\
                  heap w' !! r0 = Some (NdFloat64 (normalized a))).
Proof.
  induction items as [|img items IH]; intros w res w' Hrun.
  - simpl in Hrun. injection Hrun as <- <-. split; [exists []; by rewrite app_nil_r|].
    split; [constructor|done].
  - simpl in Hrun. apply bind_inv in Hrun as (r & w1 & Himg & Hrun).
    apply bind_inv in Hrun as (rs & w2 & Hrest & Hrun).
    injection Hrun as <- <-.
    apply process_img_inv in Himg as (a & ext1 & Hsrc & Hext1 & Hr & Hlook).
    apply IH in Hrest as ((ext2 & Hext2) & Hall & _).
    assert (Hlook' : heap w2 !! r = Some (NdFloat64 (normalized a))).
    { rewrite Hext2. by apply lookup_app_l_Some. }
    split; [exists (ext1 ++ ext2); by rewrite Hext2, Hext1, app_assoc|].
    split.
    + constructor.
      * split; [done|]. exists a. split; [|done].
        rewrite Hext2, Hext1, <- app_assoc. by apply image_source_app.
      * eapply Forall2_impl; [|exact Hall]. intros img' r' [Hle Hex]. split; [|done].
        rewrite Hext1, length_app in Hle. lia.
    + intros img0 rest [= <- <-]. exists r, a. done.
Qed.

Lemma list_comp_process_ok self items : forall w,
  Forall (fun img => exists a, image_source self (heap w) img a) items ->
  exists res w', list_comp items (process_img self) w = Ok res w'.
Proof.
  induction items as [|img items IH]; intros w Hall; simpl.
  - by eexists _, _.
  - inversion Hall as [|? ? (a & Hsrc) Hrest]; subst.
    assert (exists r ext, process_img self img w = Ok r (set_heap w (heap w ++ ext)))
      as (r & ext & Himg).
    { destruct img as [l|].
      - destruct Hsrc as (o & Hl & Ha & Hne). eexists _, _. by eapply process_img_some.
      - destruct Hsrc as (H2 & H1 & _). eexists _, _. by apply process_img_none. }
    rewrite (bind_ok _ _ _ _ _ Himg).
    destruct (IH (set_heap w (heap w ++ ext))) as (rs & w' & Hrs).
    { eapply Forall_impl; [|exact Hrest]. intros img' (a' & Hsrc').
      exists a'. simpl. by apply image_source_app. }
    rewrite (bind_ok _ _ _ _ _ Hrs). by eexists _, _.
Qed.

Lemma process_batch_unfold self batch :
  process_batch self batch
  = (mid ← (if line_mode self then _simulate_text_line self batch else mret batch);
     normalize_batch self mid).
Proof. done. Qed.

Lemma alloc_ok o w : alloc o w = Ok (length (heap w)) (set_heap w (heap w ++ [o])).
Proof. done. Qed.

Lemma list_items_img_ok l xs w :
  heap w !! l = Some (ImgList xs) -> list_items_img l w = Ok xs w.
Proof. intros Hl. unfold list_items_img. by rewrite (bind_ok _ _ _ _ _ (load_ok _ _ _ Hl)). Qed.

Lemma list_items_str_ok l xs w :
  heap w !! l = Some (StrList xs) -> list_items_str l w = Ok xs w.
Proof. intros Hl. unfold list_items_str. by rewrite (bind_ok _ _ _ _ _ (load_ok _ _ _ Hl)). Qed.

Lemma list_getitem_img_ok l xs k x w :
  heap w !! l = Some (ImgList xs) -> xs !! k = Some x -> list_getitem_img l k w = Ok x w.
Proof.
  intros Hl Hk. unfold list_getitem_img.
  rewrite (bind_ok _ _ _ _ _ (list_items_img_ok _ _ _ Hl)). by rewrite Hk.
Qed.

Lemma list_getitem_img_oob l xs k w :
  heap w !! l = Some (ImgList xs) -> xs !! k = None ->
  list_getitem_img l k w = Raise IndexError w.
Proof.
  intros Hl Hk. unfold list_getitem_img.
  rewrite (bind_ok _ _ _ _ _ (list_items_img_ok _ _ _ Hl)). by rewrite Hk.
Qed.

Lemma list_getitem_str_ok l xs k x w :
  heap w !! l = Some (StrList xs) -> xs !! k = Some x -> list_getitem_str l k w = Ok x w.
Proof.
  intros Hl Hk. unfold list_getitem_str.
  rewrite (bind_ok _ _ _ _ _ (list_items_str_ok _ _ _ Hl)). by rewrite Hk.
Qed.

Lemma shape_of_float l a w :
  heap w !! l = Some (NdFloat64 a) ->
  shape_of (Some l) w = Ok (Z.of_nat (shape0 a), Z.of_nat (shape1 a)) w.
Proof. intros Hl. unfold shape_of. by rewrite (bind_ok _ _ _ _ _ (load_ok _ _ _ Hl)). Qed.

Lemma shape_of_uint8 l a w :
  heap w !! l = Some (NdUint8 a) ->
  shape_of (Some l) w = Ok (Z.of_nat (shape0 a), Z.of_nat (shape1 a)) w.
Proof. intros Hl. unfold shape_of. by rewrite (bind_ok _ _ _ _ _ (load_ok _ _ _ Hl)). Qed.

(** The run of [normalize_batch] once the comprehension over the images has
    returned [res]: the cap comes from the first result alone. *)
Lemma normalize_batch_run self mid w1 items texts res w2 :
  heap w1 !! imgs mid = Some (ImgList items) ->
  heap w1 !! gt_texts mid = Some (StrList texts) ->
  list_comp items (process_img self) w1 = Ok res w2 ->
  match items with
  | [] => normalize_batch self mid w1
          = Raise IndexError (set_heap w2 (heap w2 ++ [ImgList []]))
  | img0 :: _ =>
      exists r0 src,
        res !! 0%nat = Some r0 /\ image_source self (heap w1) img0 src /\
        heap w2 !! r0 = Some (NdFloat64 (normalized src)) /\
        normalize_batch self mid w1
        = Ok (mk_Batch (length (heap w2)) (S (length (heap w2))) (batch_size mid))
             (set_heap w2 (heap w2 ++
                [ImgList (Some <$> res);
                 StrList ((fun t => _truncate_label t (Z.of_nat (shape1 src) `div` 4)) <$> texts)]))
  end.
Proof.
  intros Himgs Htexts Hcomp. unfold normalize_batch.
  rewrite (bind_ok _ _ _ _ _ (list_items_img_ok _ _ _ Himgs)).
  rewrite (bind_ok _ _ _ _ _ Hcomp).
  pose proof (list_comp_process_inv _ _ _ _ _ Hcomp) as ((ext & Hext) & Hall & Hhead).
  destruct items as [|img0 rest].
  - simpl in Hcomp. injection Hcomp as <- <-.
    rewrite (bind_ok _ _ _ _ _ (alloc_ok _ _)).
    erewrite bind_raise; [done|].
    eapply list_getitem_img_oob; [simpl; apply lookup_last|done].
  - destruct (Hhead _ _ eq_refl) as (r0 & src & Hr0 & Hsrc & Hlook).
    exists r0, src. repeat split; try done.
    rewrite (bind_ok _ _ _ _ _ (alloc_ok _ _)).
    erewrite bind_ok; cycle 1.
    { eapply list_getitem_img_ok; [simpl; apply lookup_last|].
      by rewrite list_lookup_fmap, Hr0. }
    erewrite bind_ok; cycle 1.
    { apply shape_of_float. simpl. by apply lookup_app_l_Some. }
    cbv beta iota zeta. erewrite bind_ok; cycle 1.
    { apply list_items_str_ok. simpl. rewrite Hext, <- app_assoc.
      by apply lookup_app_l_Some. }
    rewrite (bind_ok _ _ _ _ _ (alloc_ok _ _)).
    unfold set_heap. simpl. rewrite length_app, <- app_assoc. simpl.
    cbv [mret M_ret]. do 2 f_equal. lia.
Qed.

(** ** Computations that only read, and what a line does when it returns *)

Lemma keeps_ret {A} (a : A) : keeps (mret a).
Proof. done. Qed.

Lemma keeps_raise {A} e : keeps (@raise A e).
Proof. done. Qed.

Lemma keeps_bind {A B} (m : M A) (f : A -> M B) :
  keeps m -> (forall a, keeps (f a)) -> keeps (m ≫= f).
Proof.
  intros Hm Hf w. specialize (Hm w). cbv [mbind M_bind].
  destruct (m w) as [a w1|e w1]; simpl in *; [|done].
  by rewrite Hf.
Qed.

Lemma keeps_load l : keeps (load l).
Proof. intros w. unfold load. by destruct (heap w !! l). Qed.

Lemma keeps_randint lo hi : keeps (randint lo hi).
Proof. done. Qed.

Lemma keeps_for_each {A S} (xs : list A) (body : A -> S -> M S) :
  (forall x s, keeps (body x s)) -> forall s, keeps (for_each xs body s).
Proof.
  intros Hbody. induction xs as [|x xs IH]; intros s; simpl.
  - apply keeps_ret.
  - apply keeps_bind; [apply Hbody|apply IH].
Qed.

Lemma keeps_list_comp {A B} (xs : list A) (f : A -> M B) :
  (forall x, keeps (f x)) -> keeps (list_comp xs f).
Proof.
  intros Hf. induction xs as [|x xs IH]; simpl.
  - apply keeps_ret.
  - apply keeps_bind; [apply Hf|]. intros y.
    apply keeps_bind; [apply IH|]. intros ys. apply keeps_ret.
Qed.

Lemma keeps_list_items_img l : keeps (list_items_img l).
Proof.
  apply keeps_bind; [apply keeps_load|].
  intros []; first [apply keeps_ret | apply keeps_raise].
Qed.

Lemma keeps_list_items_str l : keeps (list_items_str l).
Proof.
  apply keeps_bind; [apply keeps_load|].
  intros []; first [apply keeps_ret | apply keeps_raise].
Qed.

Lemma keeps_list_getitem_img l k : keeps (list_getitem_img l k).
Proof.
  apply keeps_bind; [apply keeps_list_items_img|].
  intros xs. destruct (xs !! k); first [apply keeps_ret | apply keeps_raise].
Qed.

Lemma keeps_list_getitem_str l k : keeps (list_getitem_str l k).
Proof.
  apply keeps_bind; [apply keeps_list_items_str|].
  intros xs. destruct (xs !! k); first [apply keeps_ret | apply keeps_raise].
Qed.

Lemma keeps_shape_of img : keeps (shape_of img).
Proof.
  destruct img; [|apply keeps_raise].
  apply keeps_bind; [apply keeps_load|].
  intros []; first [apply keeps_ret | apply keeps_raise].
Qed.

Lemma keeps_select_words self batch i num_words :
  keeps (select_words self batch i num_words).
Proof.
  apply keeps_for_each. intros j [[[sel seps] h] w].
  apply keeps_bind; [apply keeps_list_getitem_img|]. intros img.
  apply keeps_bind.
  { destruct (data_augmentation self); [apply keeps_randint|apply keeps_ret]. }
  intros sep. apply keeps_bind; [apply keeps_shape_of|]. intros [s0 s1].
  case_match; apply keeps_ret.
Qed.

Lemma wpx_keeps {A} (m : M A) w Q E :
  keeps m ->
  (forall a w', heap w' = heap w -> Q a w') ->
  (forall e w', heap w' = heap w -> E e w') ->
  wpx m w Q E.
Proof.
  intros Hm HQ HE. specialize (Hm w). unfold wpx.
  destruct (m w); simpl in *; auto.
Qed.

Lemma wpx_anyway {A} (m : M A) w (Q : A -> world -> Prop) :
  (forall a w', m w = Ok a w' -> Q a w') -> wpx m w Q (fun _ _ => True).
Proof. unfold wpx. destruct (m w); auto. Qed.

(** A successful append. *)
Lemma list_append_str_inv l x w w' :
  list_append_str l x w = Ok tt w' ->
  exists xs, heap w !! l = Some (StrList xs) /\
             heap w' = <[l := StrList (xs ++ [x])]> (heap w).
Proof.
  unfold list_append_str, list_items_str, load. cbv [mbind M_bind].
  destruct (heap w !! l) as [[]|]; try done.
  intros [= <-]. eauto.
Qed.

Lemma list_append_img_inv l x w w' :
  list_append_img l x w = Ok tt w' ->
  exists xs, heap w !! l = Some (ImgList xs) /\
             heap w' = <[l := ImgList (xs ++ [x])]> (heap w).
Proof.
  unfold list_append_img, list_items_img, load. cbv [mbind M_bind].
  destruct (heap w !! l) as [[]|]; try done.
  intros [= <-]. eauto.
Qed.

Lemma np_ones_uint8_inv h wd w l w' :
  np_ones_uint8 h wd w = Ok l w' ->
  0 <= h /\ 0 <= wd /\ l = length (heap w) /\
  heap w' = heap w ++ [NdUint8 (nd_full (Z.to_nat h) (Z.to_nat wd) 1)].
Proof.
  unfold np_ones_uint8.
  destruct (Z.ltb_spec h 0); [done|]. destruct (Z.ltb_spec wd 0); [done|].
  intros [= <- <-]. done.
Qed.

Lemma nd_mul_uint8_inv l k w l' w' :
  nd_mul_uint8 l k w = Ok l' w' ->
  exists a, heap w !! l = Some (NdUint8 a) /\ l' = length (heap w) /\
            heap w' = heap w ++ [NdUint8 (nd_map (fun v => uint8 (v * k)) a)].
Proof.
  unfold nd_mul_uint8, load. cbv [mbind M_bind].
  destruct (heap w !! l) as [[]|]; try done.
  intros [= <- <-]. eauto.
Qed.

Lemma setitem_window_inv t y y2 x x2 src w w' :
  setitem_window t y y2 x x2 src w = Ok tt w' ->
  exists s a c c', src = Some s /\ heap w !! s = Some (NdUint8 a) /\
    heap w !! t = Some (NdUint8 c) /\ nd_setitem c y y2 x x2 a = Some c' /\
    heap w' = <[t := NdUint8 c']> (heap w).
Proof.
  unfold setitem_window, load, raise. destruct src as [s|]; [|done]. cbv [mbind M_bind].
  destruct (heap w !! s) as [so|] eqn:Hs; [|done].
  destruct (heap w !! t) as [tobj|] eqn:Ht; [|done].
  destruct tobj, so; try done.
  destruct (nd_setitem _ _ _ _ _ _) eqn:Hset; [|done].
  intros [= <-]. eauto 10.
Qed.

Lemma paste_loop_post target h : forall ws x w c0,
  heap w !! target = Some (NdUint8 c0) ->
  wpx (for_each ws (paste_word target h) x) w
    (fun _ w' => exists c, heap w' = <[target := NdUint8 c]> (heap w))
    (fun _ _ => True).
Proof.
  induction ws as [|[img sep] ws IH]; intros x w c0 Ht; simpl.
  - apply wpx_ret. exists c0. by rewrite list_insert_id.
  - apply wpx_bind. unfold paste_word at 1.
    apply wpx_bind. apply wpx_keeps; [apply keeps_shape_of| |done].
    intros [s0 s1] w1 Hw1. apply wpx_bind, wpx_anyway. intros [] w2 Hset.
    apply setitem_window_inv in Hset as (s & a & c & c' & -> & _ & Hc & _ & Hw2).
    apply wpx_ret.
    assert (Hlt : (target < length (heap w))%nat) by by eapply lookup_lt_Some.
    eapply wpx_mono; [eapply (IH _ w2 c')| |done].
    + rewrite Hw2, Hw1. by apply list_lookup_insert_eq.
    + intros _ w' [c'' Hw']. exists c''.
      by rewrite Hw', Hw2, Hw1, list_insert_insert_eq.
Qed.

(** One line of [_simulate_text_line], when it returns: one transcript is
    appended to [q], one new uint8 canvas to [p], nothing else changes. *)
Lemma simulate_line_post self batch p q i w lp lq :
  heap w !! p = Some (ImgList lp) -> heap w !! q = Some (StrList lq) -> p <> q ->
  wpx (simulate_line self batch p q i) w
    (fun _ w' => exists t tr c,
       heap w' !! p = Some (ImgList (lp ++ [Some t])) /\
       heap w' !! q = Some (StrList (lq ++ [tr])) /\
       (length (heap w) <= t)%nat /\
       heap w' !! t = Some (NdUint8 c) /\
       (forall l, (l < length (heap w))%nat -> l <> p -> l <> q ->
                  heap w' !! l = heap w !! l))
    (fun _ _ => True).
Proof.
  intros Hp Hq Hpq.
  assert (Hpl : (p < length (heap w))%nat) by by eapply lookup_lt_Some.
  assert (Hql : (q < length (heap w))%nat) by by eapply lookup_lt_Some.
  unfold simulate_line. apply wpx_bind, wpx_keeps; [|intros nw w1 Hw1|done].
  { destruct (data_augmentation self); [apply keeps_randint|apply keeps_ret]. }
  apply wpx_bind, wpx_keeps; [|intros words w2 Hw2|done].
  { apply keeps_list_comp. intros j. apply keeps_list_getitem_str. }
  apply wpx_bind, wpx_anyway. intros [] w3 Happ.
  apply list_append_str_inv in Happ as (lq' & Hq' & Hw3).
  rewrite Hw2, Hw1, Hq in Hq'. injection Hq' as <-.
  apply wpx_bind, wpx_keeps; [apply keeps_select_words| |done].
  intros [[[sel seps] h] wd] w4 Hw4.
  apply wpx_bind, wpx_anyway. intros ones w5 Hones.
  apply np_ones_uint8_inv in Hones as (_ & _ & -> & Hw5).
  apply wpx_bind, wpx_anyway. intros target w6 Hmul.
  apply nd_mul_uint8_inv in Hmul as (a1 & _ & -> & Hw6).
  set (h3 := <[q := StrList (lq ++ [String.concat " " words])]> (heap w)) in *.
  assert (Hlen3 : length h3 = length (heap w)) by apply length_insert.
  rewrite Hw2, Hw1 in Hw3. fold h3 in Hw3.
  rewrite Hw4, Hw3 in Hw5. rewrite Hw5 in Hw6.
  set (c0 := nd_map (fun v => uint8 (v * 255)) a1) in *.
  set (o1 := NdUint8 (nd_full (Z.to_nat h) (Z.to_nat wd) 1)) in *.
  assert (Htarget : length (heap w5) = S (length (heap w))).
  { rewrite Hw5, length_app, Hlen3. simpl. lia. }
  apply wpx_bind.
  eapply wpx_mono; [eapply (paste_loop_post _ _ _ _ _ c0)| |done].
  { rewrite Hw6, Hw5. apply lookup_last. }
  intros _ w7 [c Hw7]. apply wpx_anyway. intros [] w8 Happ.
  apply list_append_img_inv in Happ as (lp' & Hp' & Hw8).
  assert (Hw7' : heap w7 = h3 ++ [o1; NdUint8 c]).
  { rewrite Hw7, Hw6, Htarget, <- app_assoc. simpl.
    replace (S (length (heap w))) with (length h3 + 1)%nat by lia.
    rewrite insert_app_r. done. }
  rewrite Hw7' in Hp', Hw8.
  assert (Hp3 : h3 !! p = Some (ImgList lp)).
  { unfold h3. by rewrite list_lookup_insert_ne. }
  rewrite lookup_app_l in Hp' by lia.
  pose proof (eq_trans (eq_sym Hp') Hp3) as [= ->]. clear Hp'.
  exists (length (heap w5)), (String.concat " " words), c.
  rewrite Hw8, Htarget. repeat split.
  - apply list_lookup_insert_eq. rewrite length_app. lia.
  - rewrite list_lookup_insert_ne by done. rewrite lookup_app_l by lia.
    unfold h3. by apply list_lookup_insert_eq.
  - lia.
  - rewrite list_lookup_insert_ne by lia.
    replace (S (length (heap w))) with (length h3 + 1)%nat by lia.
    by rewrite lookup_app_r, Nat.add_comm, Nat.add_sub by lia.
  - intros l Hl Hlp Hlq. rewrite list_lookup_insert_ne by done.
    rewrite lookup_app_l by lia. unfold h3. by rewrite list_lookup_insert_ne.
Qed.

(** ** Pasting and selecting the words *)

Lemma slice_bound_inside i n : 0 <= i <= Z.of_nat n -> slice_bound i n = Z.to_nat i.
Proof.
  intros Hi. unfold slice_bound. destruct (Z.ltb_spec i 0); [lia|].
  f_equal. lia.
Qed.

Lemma nd_setitem_inside (t a : ndarray Z) (y x : Z) :
  0 <= y -> y + Z.of_nat (shape0 a) <= Z.of_nat (shape0 t) ->
  0 <= x -> x + Z.of_nat (shape1 a) <= Z.of_nat (shape1 t) ->
  exists c,
    nd_setitem t y (y + Z.of_nat (shape0 a)) x (x + Z.of_nat (shape1 a)) a = Some c /\
    shape0 c = shape0 t /\ shape1 c = shape1 t /\
    (forall r col, in_window y x a r col ->
       item c r col = item a (r - Z.to_nat y)%nat (col - Z.to_nat x)%nat) /\
    (forall r col, ~ in_window y x a r col -> item c r col = item t r col).
Proof.
  intros Hy Hy2 Hx Hx2. unfold nd_setitem.
  rewrite !slice_bound_inside by lia.
  replace (Z.to_nat (y + Z.of_nat (shape0 a)) - Z.to_nat y)%nat with (shape0 a) by lia.
  replace (Z.to_nat (x + Z.of_nat (shape1 a)) - Z.to_nat x)%nat with (shape1 a) by lia.
  unfold broadcastable. rewrite !Nat.eqb_refl. simpl.
  eexists. split; [done|]. simpl. repeat split.
  - intros r col [Hr Hc].
    destruct (Nat.leb_spec (Z.to_nat y) r); [|lia].
    destruct (Nat.ltb_spec r (Z.to_nat y + shape0 a)); [|lia].
    destruct (Nat.leb_spec (Z.to_nat x) col); [|lia].
    destruct (Nat.ltb_spec col (Z.to_nat x + shape1 a)); [|lia].
    done.
  - intros r col Hout. unfold in_window in Hout.
    destruct (Nat.leb_spec (Z.to_nat y) r); [|done].
    destruct (Nat.ltb_spec r (Z.to_nat y + shape0 a)); [|done].
    destruct (Nat.leb_spec (Z.to_nat x) col); [|done].
    destruct (Nat.ltb_spec col (Z.to_nat x + shape1 a)); [|done].
    lia.
Qed.

Lemma setitem_window_ok t y y2 x x2 s a c c' w :
  heap w !! s = Some (NdUint8 a) -> heap w !! t = Some (NdUint8 c) ->
  nd_setitem c y y2 x x2 a = Some c' ->
  setitem_window t y y2 x x2 (Some s) w = Ok tt (set_heap w (<[t := NdUint8 c']> (heap w))).
Proof.
  intros Hs Ht Hset. unfold setitem_window.
  rewrite (bind_ok _ _ _ _ _ (load_ok _ _ _ Hs)).
  rewrite (bind_ok _ _ _ _ _ (load_ok _ _ _ Ht)).
  by rewrite Hset.
Qed.

Lemma paste_loop_ok target h : forall (words : list (loc * ndarray Z)) (seps : list Z) x w c0,
  heap w !! target = Some (NdUint8 c0) -> Z.of_nat (shape0 c0) = h ->
  length seps = length words ->
  Forall (fun ra => heap w !! ra.1 = Some (NdUint8 ra.2) /\ ra.1 <> target /\
                    Z.of_nat (shape0 ra.2) <= h) words ->
  Forall (fun sep => 0 <= sep) seps ->
  0 <= x ->
  x + Zsum seps + Z.of_nat (sum_list_with (fun ra => shape1 ra.2) words)
    <= Z.of_nat (shape1 c0) ->
  exists c xe,
    for_each (zip ((fun ra => Some ra.1) <$> words) seps) (paste_word target h) x w
    = Ok xe (set_heap w (<[target := NdUint8 c]> (heap w))) /\
    shape0 c = shape0 c0 /\ shape1 c = shape1 c0 /\
    (forall r col, Z.of_nat col < x -> item c r col = item c0 r col) /\
    (forall k y xl a, windows h x (snd <$> words) seps !! k = Some (y, xl, a) ->
       forall r col, in_window y xl a r col ->
         item c r col = item a (r - Z.to_nat y)%nat (col - Z.to_nat xl)%nat) /\
    (forall r col,
       Forall (fun '(y, xl, a) => ~ in_window y xl a r col) (windows h x (snd <$> words) seps) ->
       item c r col = item c0 r col).
Proof.
  induction words as [|[r a] words IH]; intros seps x w c0 Ht Hh Hlen Hwords Hseps Hx Hfit.
  - destruct seps; [|done]. exists c0, x. simpl.
    split; [|by repeat split].
    cbv [mret M_ret]. f_equal. destruct w. unfold set_heap. simpl in *.
    by rewrite list_insert_id.
  - destruct seps as [|sep seps]; [done|]. csimpl in *.
    inversion Hwords as [|? ? (Hr & Hrt & Hha) Hwords']; subst.
    inversion Hseps as [|? ? Hsep Hseps']; subst. csimpl in *.
    assert (Hy : 0 <= (Z.of_nat (shape0 c0) - Z.of_nat (shape0 a)) `div` 2).
    { apply Z.div_pos; lia. }
    assert (Hy2 : (Z.of_nat (shape0 c0) - Z.of_nat (shape0 a)) `div` 2 + Z.of_nat (shape0 a)
                  <= Z.of_nat (shape0 c0)).
    { pose proof (Z.mul_div_le (Z.of_nat (shape0 c0) - Z.of_nat (shape0 a)) 2). lia. }
    assert (Hsums : 0 <= Zsum seps).
    { clear -Hseps'. induction Hseps'; simpl; lia. }
    destruct (nd_setitem_inside c0 a _ (x + sep) Hy Hy2) as (c1 & Hset & Hs0 & Hs1 & Hin & Hout);
      [lia|lia|].
    assert (Hstep : paste_word target (Z.of_nat (shape0 c0)) (Some r, sep) x w
                    = Ok (x + sep + Z.of_nat (shape1 a))
                         (set_heap w (<[target := NdUint8 c1]> (heap w)))).
    { unfold paste_word. rewrite (bind_ok _ _ _ _ _ (shape_of_uint8 _ _ _ Hr)).
      cbv beta iota zeta. by rewrite (bind_ok _ _ _ _ _ (setitem_window_ok _ _ _ _ _ _ _ _ _ _ Hr Ht Hset)). }
    rewrite (bind_ok _ _ _ _ _ Hstep).
    assert (Hlt : (target < length (heap w))%nat) by by eapply lookup_lt_Some.
    destruct (IH seps (x + sep + Z.of_nat (shape1 a))
                (set_heap w (<[target := NdUint8 c1]> (heap w))) c1)
      as (c & xe & Hrun & Hc0 & Hc1 & Hleft & Hwin & Hrest).
    + simpl. by apply list_lookup_insert_eq.
    + by rewrite Hs0.
    + lia.
    + eapply Forall_impl; [|exact Hwords']. intros [r' a'] (Hr' & Hrt' & Hha').
      simpl in *. by rewrite list_lookup_insert_ne.
    + done.
    + lia.
    + rewrite Hs1. lia.
    + exists c, xe. rewrite Hrun. csimpl. rewrite list_insert_insert_eq.
      split; [done|]. rewrite Hc0, Hc1, Hs0, Hs1. repeat split.
      * intros r' col Hcol. rewrite Hleft by lia. apply Hout.
        unfold in_window. lia.
      * intros [|k] y xl a' Hk r' col Hwindow.
        -- injection Hk as <- <- <-. rewrite Hleft by (unfold in_window in Hwindow; lia).
           by apply Hin.
        -- by eapply Hwin.
      * intros r' col Hall. inversion Hall as [|? ? Hfirst Hothers]; subst.
        rewrite Hrest by done. by apply Hout.
Qed.

Lemma randint_ok lo hi w :
  lo <= hi ->
  exists v, lo <= v <= hi /\
    randint lo hi w = Ok v (mk_world (heap w) (tape w) (S (drawn w))).
Proof.
  intros Hle. eexists. split; [|done].
  pose proof (Z.mod_pos_bound (tape w (drawn w)) (hi - lo + 1)). lia.
Qed.

Lemma draw_sep_ok self w :
  exists sep w', valid_sep self sep /\ heap w' = heap w /\
    (if data_augmentation self then randint 20 50 else mret 30) w = Ok sep w'.
Proof.
  unfold valid_sep. destruct (data_augmentation self).
  - destruct (randint_ok 20 50 w) as (v & Hv & Hrun); [lia|].
    by exists v, (mk_world (heap w) (tape w) (S (drawn w))).
  - by exists 30, w.
Qed.

Lemma draw_num_words_ok self w :
  exists n w', valid_num_words self n /\ heap w' = heap w /\
    (if data_augmentation self then randint 1 8 else mret 5) w = Ok n w'.
Proof.
  unfold valid_num_words. destruct (data_augmentation self).
  - destruct (randint_ok 1 8 w) as (v & Hv & Hrun); [lia|].
    by exists v, (mk_world (heap w) (tape w) (S (drawn w))).
  - by exists 5, w.
Qed.

Lemma list_comp_getitem_str_ok l tl (f : nat -> nat) : forall idx texts w,
  heap w !! l = Some (StrList tl) ->
  Forall2 (fun j t => tl !! f j = Some t) idx texts ->
  list_comp idx (fun j => list_getitem_str l (f j)) w = Ok texts w.
Proof.
  induction idx as [|j idx IH]; intros texts w Hl Hall.
  - by inversion Hall.
  - inversion Hall as [|? t ? texts' Hj Hrest]; subst. simpl.
    rewrite (bind_ok _ _ _ _ _ (list_getitem_str_ok _ _ _ _ _ Hl Hj)).
    by rewrite (bind_ok _ _ _ _ _ (IH _ _ Hl Hrest)).
Qed.

Lemma select_loop_ok self batch i nw il :
  forall (words : list (loc * ndarray Z)) k sel seps h wd w,
  heap w !! imgs batch = Some (ImgList il) ->
  Forall2 (fun j ra => il !! cyclic (batch_size batch) i j = Some (Some ra.1) /\
                       heap w !! ra.1 = Some (NdUint8 ra.2))
          (seq k (length words)) words ->
  Z.of_nat (k + length words) = nw -> 0 <= h ->
  exists ss w',
    for_each (seq k (length words)) (select_word self batch i nw) (sel, seps, h, wd) w
    = Ok (sel ++ ((fun ra => Some ra.1) <$> words), seps ++ ss,
          Z.max h (Z.of_nat (max_list_with (fun ra => shape0 ra.2) words)),
          wd + Z.of_nat (sum_list_with (fun ra => shape1 ra.2) words) + Zsum ss) w' /\
    heap w' = heap w /\ length ss = (length words - 1)%nat /\ Forall (valid_sep self) ss.
Proof.
  induction words as [|[r a] words IH]; intros k sel seps h wd w Himgs Hall Hnw Hh.
  - exists [], w. simpl. rewrite !app_nil_r.
    replace (Z.max h (Z.of_nat 0)) with h by lia.
    replace (wd + Z.of_nat 0 + 0) with wd by lia. done.
  - inversion Hall as [|? ? ? ? [Hj Hr] Hrest]; subst. csimpl in *.
    destruct (draw_sep_ok self w) as (sep & w1 & Hsep & Hw1 & Hdraw).
    assert (Hstep : select_word self batch i (Z.of_nat (k + S (length words))) k
                      (sel, seps, h, wd) w
                    = Ok (sel ++ [Some r],
                          if (length words =? 0)%nat then seps else seps ++ [sep],
                          Z.max h (Z.of_nat (shape0 a)),
                          if (length words =? 0)%nat then wd + Z.of_nat (shape1 a)
                          else wd + Z.of_nat (shape1 a) + sep) w1).
    { unfold select_word.
      rewrite (bind_ok _ _ _ _ _ (list_getitem_img_ok _ _ _ _ _ Himgs Hj)).
      rewrite (bind_ok _ _ _ _ _ Hdraw).
      erewrite bind_ok by (apply shape_of_uint8; rewrite Hw1; exact Hr).
      cbv beta iota zeta.
      destruct (Z.ltb_spec (Z.of_nat k + 1) (Z.of_nat (k + S (length words))));
        destruct (Nat.eqb_spec (length words) 0); try lia; done. }
    rewrite (bind_ok _ _ _ _ _ Hstep).
    edestruct (IH (S k)) as (ss & w' & Hrun & Hw' & Hlen & Hss).
    + by rewrite Hw1.
    + eapply Forall2_impl; [|exact Hrest]. intros j ra [? ?]. by rewrite Hw1.
    + lia.
    + instantiate (1 := Z.max h (Z.of_nat (shape0 a))). lia.
    + rewrite Hrun. destruct (Nat.eqb_spec (length words) 0) as [Hz|Hnz].
      * destruct words; [|done]. destruct ss; [|done].
        exists [], w'. simpl. rewrite !app_nil_r.
        repeat split; [|congruence|done].
        do 2 f_equal; [f_equal|]; lia.
      * exists (sep :: ss), w'. simpl. rewrite <- !app_assoc. simpl.
        repeat split; [|congruence|lia|by constructor].
        do 2 f_equal; [f_equal|]; lia.
Qed.

(** ** The loop over the batch *)

Lemma simulate_lines_gen self batch p q P E (n0 N : nat) (h0 : list object) :
  p <> q -> (n0 <= p)%nat -> (n0 <= q)%nat ->
  (forall i w lp lq, (i < N)%nat ->
     (forall l, (l < n0)%nat -> heap w !! l = h0 !! l) ->
     heap w !! p = Some (ImgList lp) -> heap w !! q = Some (StrList lq) ->
     wpx (simulate_line self batch p q i) w (fun _ w' => line_post P p q i lp lq w w') E) ->
  forall n k w, (k + n <= N)%nat ->
    (forall l, (l < n0)%nat -> heap w !! l = h0 !! l) ->
    lines_done P p q k (heap w) ->
    wpx (for_each (seq k n) (fun i (_ : unit) => simulate_line self batch p q i) tt) w
      (fun _ w' => (forall l, (l < n0)%nat -> heap w' !! l = h0 !! l) /\
                   lines_done P p q (k + n) (heap w'))
      E.
Proof.
  intros Hpq Hp0 Hq0 Hline. induction n as [|n IH]; intros k w HN Hagree Hdone; simpl.
  - apply wpx_ret. by rewrite Nat.add_0_r.
  - destruct Hdone as (canv & txts & Hp & Hq & Hlc & Hlt & Hall).
    assert (Hpl : (p < length (heap w))%nat) by by eapply lookup_lt_Some.
    assert (Hql : (q < length (heap w))%nat) by by eapply lookup_lt_Some.
    apply wpx_bind.
    assert (HkN : (k < N)%nat) by lia.
    eapply wpx_mono; [exact (Hline k w _ _ HkN Hagree Hp Hq)| |done].
    intros u w1 (t & tr & c & Hp1 & Hq1 & Ht & Hc & Hframe & HP). destruct u.
    eapply wpx_mono; [eapply (IH (S k))| |done]; [lia| | |].
    + intros l Hl. rewrite Hframe by lia. by apply Hagree.
    + exists (canv ++ [t]), (txts ++ [tr]). rewrite fmap_app. simpl.
      split; [done|]. split; [done|].
      split; [rewrite length_app; simpl; lia|].
      split; [rewrite length_app; simpl; lia|].
      intros i t' Hi. apply lookup_app_Some in Hi as [Hi|[Hge Hi]].
      * destruct (Hall _ _ Hi) as (Hpt & Hqt & c' & tr' & Hc' & Htr' & HP').
        split; [done|]. split; [done|]. exists c', tr'.
        split; [|split; [by apply lookup_app_l_Some|done]].
        rewrite Hframe; [done| |lia|lia]. by eapply lookup_lt_Some.
      * apply list_lookup_singleton_Some in Hi as [Hi <-].
        split; [lia|]. split; [lia|]. exists c, tr.
        assert (i = length txts) as -> by lia.
        split; [done|]. split; [by apply list_lookup_middle|].
        by replace (length txts) with k by lia.
    + intros u' w'. by replace (S k + n)%nat with (k + S n)%nat by lia.
Qed.

Lemma wpx_total {A} (m : M A) w Q :
  wpx m w Q (fun _ _ => False) -> exists a w', m w = Ok a w' /\ Q a w'.
Proof. unfold wpx. destruct (m w); [eauto|done]. Qed.

(** When [_simulate_text_line] returns: the two result lists are new, they
    hold one canvas and one transcript per index of [range(batch_size)]. *)
Lemma simulate_text_line_inv self batch w mid w1 :
  _simulate_text_line self batch w = Ok mid w1 ->
  mid = mk_Batch (length (heap w)) (S (length (heap w))) (batch_size batch) /\
  lines_done (fun _ _ _ => True) (imgs mid) (gt_texts mid)
    (Z.to_nat (batch_size batch)) (heap w1).
Proof.
  unfold _simulate_text_line. intros Hrun.
  rewrite (bind_ok _ _ _ _ _ (alloc_ok _ _)) in Hrun.
  rewrite (bind_ok _ _ _ _ _ (alloc_ok _ _)) in Hrun.
  apply bind_inv in Hrun as (u & w2 & Hloop & Hret). destruct u.
  injection Hret as Hmid Hw2. subst mid w2.
  assert (Hl1 : length (heap w ++ [ImgList []]) = S (length (heap w))).
  { rewrite length_app. simpl. lia. }
  simpl in *. rewrite Hl1 in *. split; [done|].
  assert (Hline : forall i w' lp lq, (i < Z.to_nat (batch_size batch))%nat ->
            (forall l, (l < 0)%nat -> heap w' !! l = @nil object !! l) ->
            heap w' !! length (heap w) = Some (ImgList lp) ->
            heap w' !! S (length (heap w)) = Some (StrList lq) ->
            wpx (simulate_line self batch (length (heap w)) (S (length (heap w))) i) w'
              (fun _ w'' => line_post (fun _ _ _ => True) (length (heap w))
                              (S (length (heap w))) i lp lq w' w'')
              (fun _ _ => True)).
  { intros i w' lp lq _ _ Hp Hq.
    eapply wpx_mono; [apply (simulate_line_post _ _ _ _ _ _ _ _ Hp Hq); lia| |done].
    intros u w'' (t & tr & c & Hp' & Hq' & Ht & Hc & Hframe).
    by exists t, tr, c. }
  eapply wpx_inv_ok in Hloop;
    [|apply (simulate_lines_gen self batch (length (heap w)) (S (length (heap w)))
               _ _ 0%nat _ [] ltac:(lia) ltac:(lia) ltac:(lia)
               Hline (Z.to_nat (batch_size batch)) 0%nat)].
  - by destruct Hloop as [_ Hdone].
  - simpl. lia.
  - intros l Hl. lia.
  - exists [], []. simpl. split; [|split; [|done]].
    + rewrite <- app_assoc. by apply list_lookup_middle.
    + rewrite <- Hl1. apply lookup_last.
Qed.

(** ** A line made of present word images *)

Lemma cyclic_lt bs i j : 0 < bs -> Z.of_nat (cyclic bs i j) < bs.
Proof.
  intros Hbs. unfold cyclic.
  pose proof (Z.mod_pos_bound (Z.of_nat i + Z.of_nat j) bs Hbs). lia.
Qed.

Lemma selection_ok (h0 : list object) (il : list (option loc)) (tl : list string)
    (arrs : list (ndarray Z)) bs i :
  Forall2 (fun x a => exists r, x = Some r /\ h0 !! r = Some (NdUint8 a)) il arrs ->
  bs = Z.of_nat (length il) -> length tl = length il -> (0 < length il)%nat ->
  forall n k, exists texts (words : list (loc * ndarray Z)),
    Forall2 (fun j t => tl !! cyclic bs i j = Some t) (seq k n) texts /\
    Forall2 (fun j ra => il !! cyclic bs i j = Some (Some ra.1) /\
                         arrs !! cyclic bs i j = Some ra.2 /\
                         h0 !! ra.1 = Some (NdUint8 ra.2)) (seq k n) words.
Proof.
  intros Harr Hbs Htl Hpos. induction n as [|n IH]; intros k.
  - exists [], []. split; constructor.
  - destruct (IH (S k)) as (texts & words & Ht & Hw).
    pose proof (cyclic_lt bs i k ltac:(lia)) as Hlt.
    destruct (lookup_lt_is_Some_2 il (cyclic bs i k) ltac:(lia)) as [x Hx].
    destruct (lookup_lt_is_Some_2 tl (cyclic bs i k) ltac:(lia)) as [t Htk].
    destruct (Forall2_lookup_l _ _ _ _ _ Harr Hx) as (a & Ha & r & -> & Hr).
    exists (t :: texts), ((r, a) :: words). simpl. split; constructor; done.
Qed.

Lemma max_list_with_snd (words : list (loc * ndarray Z)) :
  max_list_with (fun ra => shape0 ra.2) words = max_list_with shape0 (snd <$> words).
Proof. induction words as [|[r a] words IH]; simpl; [done|]. by rewrite IH. Qed.

Lemma sum_list_with_snd (words : list (loc * ndarray Z)) :
  sum_list_with (fun ra => shape1 ra.2) words = sum_list_with shape1 (snd <$> words).
Proof. induction words as [|[r a] words IH]; simpl; [done|]. by rewrite IH. Qed.

Lemma max_list_with_ge {A} (f : A -> nat) l x :
  x ∈ l -> (f x <= max_list_with f l)%nat.
Proof. induction 1; simpl; lia. Qed.

Lemma valid_sep_nonneg self ss : Forall (valid_sep self) ss -> Forall (fun s => 0 <= s) ss.
Proof.
  apply Forall_impl. intros s. unfold valid_sep.
  destruct (data_augmentation self); lia.
Qed.

Lemma Zsum_nonneg ss : Forall (fun s => 0 <= s) ss -> 0 <= Zsum ss.
Proof. induction 1; simpl; lia. Qed.

Lemma list_append_str_ok l xs x w :
  heap w !! l = Some (StrList xs) ->
  list_append_str l x w = Ok tt (set_heap w (<[l := StrList (xs ++ [x])]> (heap w))).
Proof.
  intros Hl. unfold list_append_str.
  by rewrite (bind_ok _ _ _ _ _ (list_items_str_ok _ _ _ Hl)).
Qed.

Lemma list_append_img_ok l xs x w :
  heap w !! l = Some (ImgList xs) ->
  list_append_img l x w = Ok tt (set_heap w (<[l := ImgList (xs ++ [x])]> (heap w))).
Proof.
  intros Hl. unfold list_append_img.
  by rewrite (bind_ok _ _ _ _ _ (list_items_img_ok _ _ _ Hl)).
Qed.

Lemma np_ones_uint8_ok h wd w :
  0 <= h -> 0 <= wd ->
  np_ones_uint8 h wd w
  = Ok (length (heap w))
       (set_heap w (heap w ++ [NdUint8 (nd_full (Z.to_nat h) (Z.to_nat wd) 1)])).
Proof.
  intros Hh Hwd. unfold np_ones_uint8. destruct (Z.ltb_spec h 0); [lia|].
  destruct (Z.ltb_spec wd 0); [lia|]. done.
Qed.

Lemma nd_mul_uint8_ok l a k w :
  heap w !! l = Some (NdUint8 a) ->
  nd_mul_uint8 l k w
  = Ok (length (heap w))
       (set_heap w (heap w ++ [NdUint8 (nd_map (fun v => uint8 (v * k)) a)])).
Proof.
  intros Hl. unfold nd_mul_uint8. by rewrite (bind_ok _ _ _ _ _ (load_ok _ _ _ Hl)).
Qed.

Lemma simulate_line_ok self batch (h0 : list object) (il : list (option loc))
    (tl : list string) (arrs : list (ndarray Z)) p q i w lp lq :
  h0 !! imgs batch = Some (ImgList il) -> h0 !! gt_texts batch = Some (StrList tl) ->
  Forall2 (fun x a => exists r, x = Some r /\ h0 !! r = Some (NdUint8 a)) il arrs ->
  batch_size batch = Z.of_nat (length il) -> length tl = length il ->
  (i < length il)%nat ->
  (forall l, (l < length h0)%nat -> heap w !! l = h0 !! l) ->
  (length h0 <= p)%nat -> (length h0 <= q)%nat -> p <> q ->
  heap w !! p = Some (ImgList lp) -> heap w !! q = Some (StrList lq) ->
  wpx (simulate_line self batch p q i) w
    (fun _ w' => line_post (line_of self tl arrs (batch_size batch)) p q i lp lq w w')
    (fun _ _ => False).
Proof.
  intros Hil Htl Harr Hbs Hlen Hi Hagree Hp0 Hq0 Hpq Hp Hq.
  assert (Hpl : (p < length (heap w))%nat) by by eapply lookup_lt_Some.
  assert (Hql : (q < length (heap w))%nat) by by eapply lookup_lt_Some.
  assert (Hold : forall l o, h0 !! l = Some o ->
            (l < length h0)%nat /\ heap w !! l = Some o).
  { intros l o Hl. assert (l < length h0)%nat by by eapply lookup_lt_Some.
    split; [done|]. by rewrite Hagree. }
  destruct (draw_num_words_ok self w) as (nw & w1 & Hnw & Hw1 & Hdraw).
  assert (Hnw' : 1 <= nw <= 8).
  { unfold valid_num_words in Hnw. destruct (data_augmentation self); lia. }
  destruct (selection_ok h0 il tl arrs (batch_size batch) i Harr Hbs Hlen ltac:(lia)
              (Z.to_nat nw) 0%nat) as (texts & words & Htexts & Hwords).
  assert (Hlw : length words = Z.to_nat nw).
  { apply Forall2_length in Hwords. by rewrite length_seq in Hwords. }
  set (h3 := <[q := StrList (lq ++ [String.concat " " texts])]> (heap w)).
  assert (Hlen3 : length h3 = length (heap w)) by apply length_insert.
  assert (Hold3 : forall l o, h0 !! l = Some o -> h3 !! l = Some o).
  { intros l o Hl. destruct (Hold _ _ Hl). unfold h3. rewrite list_lookup_insert_ne by lia. done. }
  unfold wpx, simulate_line.
  rewrite (bind_ok _ _ _ _ _ Hdraw).
  erewrite bind_ok; cycle 1.
  { unfold range.
    apply (list_comp_getitem_str_ok _ tl (cyclic (batch_size batch) i)); [|exact Htexts].
    rewrite Hw1. by apply Hold. }
  cbv beta zeta.
  erewrite bind_ok; cycle 1.
  { apply list_append_str_ok. rewrite Hw1. exact Hq. }
  rewrite Hw1. fold h3.
  destruct (select_loop_ok self batch i nw il words 0 [] [0] 0 0 (set_heap w1 h3))
    as (ss & w4 & Hsel & Hw4 & Hlss & Hvalid).
  { simpl. by apply Hold3. }
  { rewrite Hlw. eapply Forall2_impl; [|exact Hwords].
    intros j [r a] (Hj & _ & Hr). simpl in *. split; [done|]. by apply Hold3. }
  { lia. }
  { lia. }
  unfold select_words, range. rewrite <- Hlw, (bind_ok _ _ _ _ _ Hsel).
  cbv beta iota zeta. simpl in Hw4.
  pose proof (Zsum_nonneg _ (valid_sep_nonneg _ _ Hvalid)) as Hss.
  set (hh := Z.max 0 (Z.of_nat (max_list_with (fun ra : loc * ndarray Z => shape0 ra.2) words))).
  set (ww := 0 + Z.of_nat (sum_list_with (fun ra : loc * ndarray Z => shape1 ra.2) words) + Zsum ss).
  rewrite (bind_ok _ _ _ _ _ (np_ones_uint8_ok hh ww _ ltac:(lia) ltac:(lia))).
  erewrite bind_ok; cycle 1.
  { apply nd_mul_uint8_ok. simpl. apply lookup_last. }
  simpl length. rewrite Hw4, length_app, Hlen3. simpl length.
  set (o1 := NdUint8 (nd_full (Z.to_nat hh) (Z.to_nat ww) 1)).
  set (c0 := nd_map (fun v => uint8 (v * 255)) (nd_full (Z.to_nat hh) (Z.to_nat ww) 1)).
  set (target := (length (heap w) + 1)%nat).
  set (w6 := set_heap (set_heap w4 (h3 ++ [o1]))
               (heap (set_heap w4 (h3 ++ [o1])) ++ [NdUint8 c0])).
  change ([] ++ ((fun ra : loc * ndarray Z => Some ra.1) <$> words))
    with ((fun ra : loc * ndarray Z => Some ra.1) <$> words).
  change ([0] ++ ss) with (0 :: ss).
  assert (Ht6 : heap w6 !! target = Some (NdUint8 c0)).
  { simpl. unfold target. rewrite <- Hlen3.
    replace (length h3 + 1)%nat with (length (h3 ++ [o1])) by (rewrite length_app; simpl; lia).
    apply lookup_last. }
  destruct (paste_loop_ok target hh words (0 :: ss) 0 w6 c0) as
    (c & xe & Hpaste & Hc0 & Hc1 & Hleft & Hwin & Hrest).
  { exact Ht6. }
  { simpl. unfold hh. lia. }
  { simpl. lia. }
  { apply Forall_lookup. intros k [r a] Hk.
    destruct (Forall2_lookup_r _ _ _ _ _ Hwords Hk) as (j & _ & _ & _ & Hr).
    simpl in Hr. destruct (Hold _ _ Hr) as [Hlt _]. simpl. split; [|split].
    - rewrite <- app_assoc. apply lookup_app_l_Some. by apply Hold3.
    - unfold target. lia.
    - pose proof (max_list_with_ge (fun ra : loc * ndarray Z => shape0 ra.2) words (r, a)
                    ltac:(by eapply list_elem_of_lookup_2)).
      simpl in *. unfold hh. lia. }
  { constructor; [lia|]. by apply valid_sep_nonneg in Hvalid. }
  { lia. }
  { simpl. unfold ww. lia. }
  unfold paste_words. rewrite (bind_ok _ _ _ _ _ Hpaste).
  assert (Hh7 : <[target := NdUint8 c]> ((h3 ++ [o1]) ++ [NdUint8 c0])
                = h3 ++ [o1; NdUint8 c]).
  { unfold target. rewrite <- Hlen3, <- app_assoc. simpl.
    by rewrite insert_app_r. }
  erewrite list_append_img_ok; cycle 1.
  { subst w6. cbn [heap set_heap]. rewrite Hh7. apply lookup_app_l_Some. unfold h3.
    rewrite list_lookup_insert_ne by done. exact Hp. }
  subst w6. cbn [heap set_heap]. rewrite Hh7.
  exists target, (String.concat " " texts), c. cbn [heap set_heap].
  split; [|split; [|split; [|split; [|split]]]].
  - apply list_lookup_insert_eq. rewrite length_app. lia.
  - rewrite list_lookup_insert_ne by done. rewrite lookup_app_l by lia.
    unfold h3. by apply list_lookup_insert_eq.
  - unfold target. lia.
  - rewrite list_lookup_insert_ne by (unfold target; lia).
    unfold target. rewrite <- Hlen3.
    by rewrite lookup_app_r, Nat.add_comm, Nat.add_sub by lia.
  - intros l Hl Hlp Hlq. rewrite list_lookup_insert_ne by done.
    rewrite lookup_app_l by lia. unfold h3. by rewrite list_lookup_insert_ne.
  - exists nw, texts, (snd <$> words), ss. split; [done|]. split; [done|].
    split; [|split; [lia|split; [done|split; [done|]]]].
    { apply Forall2_fmap_r. eapply Forall2_impl; [|exact Hwords].
      by intros j [r a] (_ & Ha & _). }
    unfold canvas_of. rewrite <- max_list_with_snd, <- sum_list_with_snd.
    assert (Hhh : hh = Z.of_nat (max_list_with (fun ra : loc * ndarray Z => shape0 ra.2) words))
      by (unfold hh; lia).
    rewrite <- Hhh. split; [|split; [|split]].
    + rewrite Hc0. simpl. unfold hh. lia.
    + rewrite Hc1. simpl. unfold ww. lia.
    + exact Hwin.
    + intros r col Hout. rewrite Hrest by exact Hout. done.
Qed.

(** [_simulate_text_line] on a batch of present uint8 word images returns,
    whatever the random source draws, one line per sample. *)
Lemma simulate_text_line_ok self batch w (il : list (option loc)) (tl : list string)
    (arrs : list (ndarray Z)) :
  heap w !! imgs batch = Some (ImgList il) ->
  heap w !! gt_texts batch = Some (StrList tl) ->
  Forall2 (fun x a => exists r, x = Some r /\ heap w !! r = Some (NdUint8 a)) il arrs ->
  batch_size batch = Z.of_nat (length il) -> length tl = length il ->
  exists w1,
    _simulate_text_line self batch w
    = Ok (mk_Batch (length (heap w)) (S (length (heap w))) (batch_size batch)) w1 /\
    (forall l, (l < length (heap w))%nat -> heap w1 !! l = heap w !! l) /\
    lines_done (line_of self tl arrs (batch_size batch))
      (length (heap w)) (S (length (heap w))) (length il) (heap w1).
Proof.
  intros Hil Htl Harr Hbs Hlen.
  set (p := length (heap w)). set (q := S (length (heap w))).
  set (w2 := set_heap (set_heap w (heap w ++ [ImgList []]))
               ((heap w ++ [ImgList []]) ++ [StrList []])).
  assert (Hloop : wpx (for_each (seq 0 (length il))
                         (fun i (_ : unit) => simulate_line self batch p q i) tt) w2
            (fun _ w' => (forall l, (l < length (heap w))%nat -> heap w' !! l = heap w !! l) /\
               lines_done (line_of self tl arrs (batch_size batch)) p q (0 + length il) (heap w'))
            (fun _ _ => False)).
  { apply (simulate_lines_gen self batch p q _ _ (length (heap w)) (length il) (heap w)).
    - unfold p, q. lia.
    - unfold p. lia.
    - unfold q. lia.
    - intros i w' lp lq Hi Hagree Hp Hq.
      apply (simulate_line_ok self batch (heap w) il tl arrs); try done;
        unfold p, q; lia.
    - lia.
    - intros l Hl. simpl. rewrite <- app_assoc. by apply lookup_app_l.
    - exists [], []. simpl. split; [|split; [|done]].
      + rewrite <- app_assoc. by apply list_lookup_middle.
      + unfold q. replace (S (length (heap w))) with (length (heap w ++ [ImgList []]))
          by (rewrite length_app; simpl; lia).
        apply lookup_last. }
  apply wpx_total in Hloop as (u & w1 & Hrun & Hagree & Hdone).
  exists w1. split; [|done].
  unfold _simulate_text_line.
  rewrite (bind_ok _ _ _ _ _ (alloc_ok _ _)).
  rewrite (bind_ok _ _ _ _ _ (alloc_ok _ _)).
  cbn [heap set_heap]. rewrite length_app. simpl length.
  replace (length (heap w) + 1)%nat with q by (unfold q; lia).
  unfold range. rewrite Hbs, Nat2Z.id. fold p. fold w2.
  by rewrite (bind_ok _ _ _ _ _ Hrun).
Qed.

(** ** Returns of [normalize_batch] *)

Lemma process_img_allocates self img w r w' :
  process_img self img w = Ok r w' ->
  exists ext, heap w' = heap w ++ ext /\ Forall is_float_array ext.
Proof.
  intros Hrun. pose proof (process_img_inv _ _ _ _ _ Hrun) as (a & _ & Hsrc & _).
  destruct img as [l|].
  - destruct Hsrc as (o & Hl & Ha & Hne).
    rewrite (process_img_some _ _ _ _ _ Hl Ha Hne) in Hrun. injection Hrun as _ <-.
    eexists. split; [done|]. repeat constructor; by eexists.
  - destruct Hsrc as (H2 & H1 & _).
    rewrite (process_img_none _ _ H2 H1) in Hrun. injection Hrun as _ <-.
    eexists. split; [done|]. repeat constructor; by eexists.
Qed.

Lemma list_comp_process_allocates self items : forall w res w',
  list_comp items (process_img self) w = Ok res w' ->
  exists ext, heap w' = heap w ++ ext /\ Forall is_float_array ext.
Proof.
  induction items as [|img items IH]; intros w res w' Hrun; simpl in Hrun.
  - injection Hrun as _ <-. exists []. by rewrite app_nil_r.
  - apply bind_inv in Hrun as (r & w1 & Himg & Hrun).
    apply bind_inv in Hrun as (rs & w2 & Hrest & Hrun). injection Hrun as _ <-.
    apply process_img_allocates in Himg as (e1 & He1 & Hf1).
    apply IH in Hrest as (e2 & He2 & Hf2).
    exists (e1 ++ e2). split; [by rewrite He2, He1, app_assoc|by apply Forall_app].
Qed.

Lemma list_items_img_inv l xs w w' :
  list_items_img l w = Ok xs w' -> heap w !! l = Some (ImgList xs) /\ w' = w.
Proof.
  unfold list_items_img, load, raise. cbv [mbind M_bind].
  destruct (heap w !! l) as [[]|]; try done. by intros [= <- <-].
Qed.

Lemma list_items_str_inv l xs w w' :
  list_items_str l w = Ok xs w' -> heap w !! l = Some (StrList xs) /\ w' = w.
Proof.
  unfold list_items_str, load, raise. cbv [mbind M_bind].
  destruct (heap w !! l) as [[]|]; try done. by intros [= <- <-].
Qed.

(** A return of [normalize_batch]: both lists of the batch were in the store,
    there was a first image, and the cap is a quarter of its width. *)
Lemma normalize_batch_inv self mid w1 b' w' :
  normalize_batch self mid w1 = Ok b' w' ->
  exists items texts res w2 img0 rest r0 src,
    heap w1 !! imgs mid = Some (ImgList items) /\
    heap w1 !! gt_texts mid = Some (StrList texts) /\
    items = img0 :: rest /\
    list_comp items (process_img self) w1 = Ok res w2 /\
    res !! 0%nat = Some r0 /\ image_source self (heap w1) img0 src /\
    heap w2 !! r0 = Some (NdFloat64 (normalized src)) /\
    b' = mk_Batch (length (heap w2)) (S (length (heap w2))) (batch_size mid) /\
    heap w' = heap w2 ++
      [ImgList (Some <$> res);
       StrList ((fun t => _truncate_label t (Z.of_nat (shape1 src) `div` 4)) <$> texts)].
Proof.
  intros Hrun. pose proof Hrun as Hrun0. unfold normalize_batch in Hrun.
  apply bind_inv in Hrun as (items & w1' & Hitems & Hrun).
  apply list_items_img_inv in Hitems as [Himgs ->].
  apply bind_inv in Hrun as (res & w2 & Hcomp & Hrun).
  rewrite (bind_ok _ _ _ _ _ (alloc_ok _ _)) in Hrun.
  apply bind_inv in Hrun as (img0' & w3 & Hget & Hrun).
  apply bind_inv in Hrun as ([s0 s1] & w4 & Hshape & Hrun).
  assert (Hw3 : heap w3 = heap w2 ++ [ImgList (Some <$> res)]).
  { pose proof (keeps_list_getitem_img (length (heap w2)) 0
                  (set_heap w2 (heap w2 ++ [ImgList (Some <$> res)]))) as Hk.
    by rewrite Hget in Hk. }
  assert (Hw4 : heap w4 = heap w3).
  { pose proof (keeps_shape_of img0' w3) as Hk. by rewrite Hshape in Hk. }
  cbv beta iota zeta in Hrun.
  apply bind_inv in Hrun as (texts & w5 & Htexts & _).
  apply list_items_str_inv in Htexts as [Htexts _].
  destruct (list_comp_process_allocates _ _ _ _ _ Hcomp) as (ext & Hext & Hfloat).
  assert (Htexts1 : heap w1 !! gt_texts mid = Some (StrList texts)).
  { rewrite Hw4, Hw3, Hext in Htexts.
    apply lookup_app_Some in Htexts as [Htexts|[_ Htexts]].
    - apply lookup_app_Some in Htexts as [Htexts|[_ Htexts]]; [done|].
      by destruct (Forall_lookup_1 _ _ _ _ Hfloat Htexts).
    - by apply list_lookup_singleton_Some in Htexts as [_ ?]. }
  pose proof (normalize_batch_run _ _ _ _ _ _ _ Himgs Htexts1 Hcomp) as Hform.
  destruct items as [|img0 rest]; [by rewrite Hform in Hrun0|].
  destruct Hform as (r0 & src & Hr0 & Hsrc & Hlook & Heq).
  rewrite Heq in Hrun0. injection Hrun0 as <- <-.
  by exists (img0 :: rest), texts, res, w2, img0, rest, r0, src.
Qed.

(** ** The label budget, missing images, empty batches *)

Lemma substring_0_length (s : string) (k : nat) :
  (k <= String.length s)%nat -> String.length (substring 0 k s) = k.
Proof.
  revert k. induction s as [|a s IH]; intros [|k] Hk; simpl in *; try lia; auto.
  rewrite IH; lia.
Qed.

Lemma substring_0_prefix (s : string) (k : nat) :
  exists rest, s = (substring 0 k s ++ rest)%string.
Proof.
  revert k. induction s as [|a s IH]; intros [|k]; simpl; eauto.
  destruct (IH k) as [rest Hrest]. exists rest.
  change (String a s = String a (substring 0 k s +:+ rest)). by f_equal.
Qed.

Lemma char_cost_pos text i : 1 <= char_cost text i <= 2.
Proof. unfold char_cost. case_match; lia. Qed.

Lemma cost_upto_ge text n : Z.of_nat n <= cost_upto text n.
Proof. induction n; simpl; [lia|]. pose proof (char_cost_pos text n). lia. Qed.

Lemma truncate_loop_spec text max n : forall i,
  (i + n = String.length text)%nat ->
  (forall j, (j < i)%nat -> cumulative_cost text j <= max) ->
  let r := truncate_loop text max (seq i n) (cost_upto text i) in
  (exists k, (i <= k < String.length text)%nat /\ max < cumulative_cost text k /\
             (forall j, (j < k)%nat -> cumulative_cost text j <= max) /\
             r = substring 0 k text)
  \/ ((forall j, (j < String.length text)%nat -> cumulative_cost text j <= max) /\ r = text).
Proof.
  induction n as [|n IH]; intros i Hlen Hbelow; simpl.
  - right. split; [|done]. intros j Hj. apply Hbelow. lia.
  - fold (char_cost text i). change (cost_upto text i + char_cost text i) with (cost_upto text (S i)).
    assert (Hc : (if negb (i =? 0)%nat && bool_decide (get i text = get (i - 1) text)
                  then cost_upto text i + 2 else cost_upto text i + 1) = cost_upto text (S i)).
    { simpl. unfold char_cost. by case_match. }
    rewrite Hc. destruct (Z.ltb_spec max (cost_upto text (S i))) as [Hlt|Hge].
    + left. exists i. repeat split; try lia; auto.
    + destruct (IH (S i)) as [(k & Hk & Hex & Hbel & Hr)|[Hall Hr]]; try lia.
      * intros j Hj. destruct (decide (j = i)) as [->|]; [done|]. apply Hbelow. lia.
      * left. exists k. repeat split; try lia; auto.
      * right. done.
Qed.

Lemma ret_ok {A} (a : A) (w : world) : (mret a : M A) w = Ok a w.
Proof. done. Qed.

(** C1: [_truncate_label] returns a prefix of the text.  Walking the text
    with cost 1 per character and 2 for a character equal to its predecessor,
    the result is [text[:i]] for the first position [i] at which the
    cumulative cost exceeds the cap, and the text itself when no position
    does; so "aabb" capped at 4 gives "aab" and "abc" capped at 10 is kept. *)
Theorem truncate_label_spec (text : string) (max_text_len : Z) :
  let r := _truncate_label text max_text_len in
  (exists rest, text = (r ++ rest)%string) /\
  ((exists i, (i < String.length text)%nat /\
              max_text_len < cumulative_cost text i /\
              (forall j, (j < i)%nat -> cumulative_cost text j <= max_text_len) /\
              r = substring 0 i text)
   \/ ((forall j, (j < String.length text)%nat -> cumulative_cost text j <= max_text_len) /\
       r = text)) /\
  _truncate_label "aabb" 4 = "aab"%string /\
  _truncate_label "abc" 10 = "abc"%string.
Proof.
  intros r.
  assert (Hcases :
    (exists i, (i < String.length text)%nat /\
               max_text_len < cumulative_cost text i /\
               (forall j, (j < i)%nat -> cumulative_cost text j <= max_text_len) /\
               r = substring 0 i text)
    \/ ((forall j, (j < String.length text)%nat -> cumulative_cost text j <= max_text_len) /\
        r = text)).
  { destruct (truncate_loop_spec text max_text_len (String.length text) 0%nat)
      as [(k & Hk & Hex & Hbel & Hr)|[Hall Hr]]; [lia|intros j Hj; lia| |].
    - left. exists k. repeat split; try done. lia.
    - by right. }
  split; [|split; [exact Hcases|done]].
  destruct Hcases as [(i & _ & _ & _ & ->)|[_ ->]].
  - apply substring_0_prefix.
  - exists ""%string. clear. induction text as [|a s IH]; [done|].
    change (String a s = String a (s +:+ "")). by f_equal.
Qed.

(** C9: with a cap [max_text_len >= 0] the result has at most [max_text_len]
    characters; with cap 0 it is empty. *)
Theorem truncate_label_length (text : string) (max_text_len : Z) :
  0 <= max_text_len ->
  Z.of_nat (String.length (_truncate_label text max_text_len)) <= max_text_len /\
  _truncate_label text 0 = ""%string.
Proof.
  intros Hmax. split.
  - destruct (truncate_loop_spec text max_text_len (String.length text) 0%nat)
      as [(k & Hk & Hex & Hbel & Hr)|[Hall Hr]]; [lia|intros j Hj; lia| |];
      unfold _truncate_label; simpl in Hr; rewrite Hr.
    + rewrite substring_0_length by lia.
      destruct k as [|k]; [lia|].
      pose proof (Hbel k ltac:(lia)) as Hc. unfold cumulative_cost in Hc.
      pose proof (cost_upto_ge text (S k)). lia.
    + destruct (String.length text) as [|n] eqn:Hn; [lia|].
      pose proof (Hall n ltac:(lia)) as Hc. unfold cumulative_cost in Hc.
      pose proof (cost_upto_ge text (S n)). lia.
  - destruct text as [|a s]; [done|]. unfold _truncate_label. simpl.
    by destruct (String.length s).
Qed.

(** C7: with a target size of positive width and height, a missing image
    is replaced by a new float64 canvas of zeros whose shape is the target
    size reversed, (height, width); the canvas is then normalised like any
    image, so the result has shape (width, height) and every cell is
    0 / 255 - 0.5 = -0.5, and the call returns. *)
Theorem process_img_missing self w :
  0 < (img_size self).1 -> 0 < (img_size self).2 ->
  exists r w' canvas a,
    process_img self None w = Ok r w' /\
    heap w' !! length (heap w) = Some (NdFloat64 canvas) /\
    shape0 canvas = Z.to_nat (img_size self).2 /\
    shape1 canvas = Z.to_nat (img_size self).1 /\
    (forall i j, item canvas i j = 0%float) /\
    heap w' !! r = Some (NdFloat64 a) /\
    shape0 a = shape1 canvas /\ shape1 a = shape0 canvas /\
    (forall i j, item a j i = (item canvas i j / 255 - 0.5)%float) /\
    (forall i j, item a j i = (-0.5)%float) /\
    (forall k, (k < length (heap w))%nat -> heap w' !! k = heap w !! k).
Proof.
  intros H1 H2. pose proof (process_img_none self w H2 H1) as Hrun.
  eexists _, _, (blank self), (normalized (blank self)). split; [exact Hrun|].
  cbn [heap set_heap].
  split; [by apply list_lookup_middle|].
  split; [done|]. split; [done|]. split; [done|]. split.
  { rewrite lookup_app_r by lia.
    by replace (length (heap w) + 4 - length (heap w))%nat with 4%nat by lia. }
  split; [done|]. split; [done|]. split; [done|]. split.
  - intros i j. simpl. vm_compute. done.
  - intros k Hk. by apply lookup_app_l.
Qed.

(** C10: without line mode, a batch with no image makes [process_batch]
    raise IndexError at [res_imgs[0]]; no batch is returned.  With line mode
    the same happens when [batch_size] is not positive. *)
Theorem process_batch_empty_batch self batch w :
  (line_mode self = false -> heap w !! imgs batch = Some (ImgList []) ->
   exists w', process_batch self batch w = Raise IndexError w') /\
  (line_mode self = true -> batch_size batch <= 0 ->
   exists w', process_batch self batch w = Raise IndexError w').
Proof.
  split.
  - intros Hmode Himgs. rewrite process_batch_unfold, Hmode.
    rewrite (bind_ok _ _ _ _ _ (ret_ok _ _)). unfold normalize_batch.
    rewrite (bind_ok _ _ _ _ _ (list_items_img_ok _ _ _ Himgs)). simpl list_comp.
    rewrite (bind_ok _ _ _ _ _ (ret_ok _ _)).
    rewrite (bind_ok _ _ _ _ _ (alloc_ok _ _)).
    erewrite bind_raise; [by eexists|].
    eapply list_getitem_img_oob; [simpl; apply lookup_last|done].
  - intros Hmode Hbs. rewrite process_batch_unfold, Hmode.
    assert (Hsim : _simulate_text_line self batch w
                   = Ok (mk_Batch (length (heap w)) (length (heap w ++ [ImgList []]))
                           (batch_size batch))
                        (set_heap w ((heap w ++ [ImgList []]) ++ [StrList []]))).
    { unfold _simulate_text_line.
      rewrite (bind_ok _ _ _ _ _ (alloc_ok _ _)).
      rewrite (bind_ok _ _ _ _ _ (alloc_ok _ _)).
      unfold range. replace (Z.to_nat (batch_size batch)) with 0%nat by lia. done. }
    rewrite (bind_ok _ _ _ _ _ Hsim). unfold normalize_batch.
    erewrite bind_ok; cycle 1.
    { apply list_items_img_ok. simpl. rewrite <- app_assoc. by apply list_lookup_middle. }
    simpl list_comp. rewrite (bind_ok _ _ _ _ _ (ret_ok _ _)).
    rewrite (bind_ok _ _ _ _ _ (alloc_ok _ _)).
    erewrite bind_raise; [by eexists|].
    eapply list_getitem_img_oob; [simpl; apply lookup_last|done].
Qed.

(** ** The constructor and present images *)

(** C5: construction fails when dynamic width and data augmentation are both
    on, fails when there is padding without dynamic width, and succeeds when
    both flags are off and the padding is 0.  A failed construction yields no
    preprocessor, so no batch is ever processed by it. *)
Theorem init_checks_configuration :
  (forall sz pad lm, __init__ sz pad true true lm = inl AssertionError) /\
  (forall sz pad da lm, 0 < pad -> __init__ sz pad false da lm = inl AssertionError) /\
  (forall sz lm, __init__ sz 0 false false lm = inr (mk_Preprocessor sz 0 false false lm)).
Proof.
  split; [done|]. split; [|done].
  intros sz pad da lm Hpad. unfold __init__.
  destruct (Z.ltb_spec 0 pad); [|lia]. by destruct da.
Qed.

(** C6: a present uint8 image, one with cells (both dimensions positive),
    comes back as a new float64 array, transposed, with every pixel [v]
    turned into [v / 255 - 0.5] and nothing else changed: same cells, same
    store below.  Pixel 0 gives -0.5, pixel 255 gives 0.5 and pixel 128
    gives 0.00196..., which is 0.0020 to four decimals. *)
Theorem process_img_normalizes self l (img : ndarray Z) w :
  heap w !! l = Some (NdUint8 img) -> nonempty img ->
  exists r w' a,
    process_img self (Some l) w = Ok r w' /\
    heap w' !! r = Some (NdFloat64 a) /\
    shape0 a = shape1 img /\ shape1 a = shape0 img /\
    (forall i j, item a j i = (u8_to_float (item img i j) / 255 - 0.5)%float) /\
    (forall k, (k < length (heap w))%nat -> heap w' !! k = heap w !! k) /\
    (forall i j, item img i j = 0 -> item a j i = (-0.5)%float) /\
    (forall i j, item img i j = 255 -> item a j i = 0.5%float) /\
    (forall i j, item img i j = 128 ->
       item a j i = 0x1.0101010101p-9%float /\
       PrimFloat.ltb 0.001953125 (item a j i) = true /\
       PrimFloat.ltb (item a j i) 0.00201416015625 = true).
Proof.
  intros Hl Hne.
  pose proof (process_img_some self l _ _ w Hl eq_refl Hne) as Hrun.
  eexists _, _, (normalized (nd_map u8_to_float img)). split; [exact Hrun|].
  cbn [heap set_heap]. split; [|split; [done|split; [done|split; [done|split]]]].
  - rewrite lookup_app_r by lia.
    by replace (length (heap w) + 3 - length (heap w))%nat with 3%nat by lia.
  - intros k Hk. by apply lookup_app_l.
  - simpl. split; [|split]; intros i j Hv; rewrite Hv.
    + vm_compute. done.
    + vm_compute. done.
    + vm_compute. done.
Qed.

(** ** The input is never written to *)

Lemma process_batch_inv self batch w b' w' :
  process_batch self batch w = Ok b' w' ->
  exists mid w1, line_stage self batch w mid w1 /\ normalize_batch self mid w1 = Ok b' w'.
Proof.
  rewrite process_batch_unfold. intros Hrun.
  apply bind_inv in Hrun as (mid & w1 & Hstage & Hrun). exists mid, w1.
  split; [|done]. unfold line_stage. destruct (line_mode self); [done|].
  by injection Hstage as <- <-.
Qed.

Lemma line_stage_run self batch w mid w1 :
  line_stage self batch w mid w1 ->
  process_batch self batch w = normalize_batch self mid w1.
Proof.
  unfold line_stage. rewrite process_batch_unfold. intros Hstage.
  destruct (line_mode self).
  - by rewrite (bind_ok _ _ _ _ _ Hstage).
  - by destruct Hstage as [-> ->].
Qed.

Lemma line_stage_grows self batch w mid w1 :
  line_stage self batch w mid w1 -> grows (length (heap w)) (heap w) (heap w1).
Proof.
  unfold line_stage. destruct (line_mode self).
  - intros Hrun.
    pose proof (frames_simulate_text_line (length (heap w)) self batch w (le_n _)) as Hf.
    unfold wpx in Hf. rewrite Hrun in Hf. by destruct Hf.
  - intros [_ ->]. apply grows_refl.
Qed.

Lemma normalize_batch_ok self mid w1 (items : list (option loc)) (texts : list string) :
  heap w1 !! imgs mid = Some (ImgList items) ->
  heap w1 !! gt_texts mid = Some (StrList texts) ->
  items <> [] -> Forall (image_ok self (heap w1)) items ->
  exists b' w', normalize_batch self mid w1 = Ok b' w'.
Proof.
  intros Himgs Htexts Hne Hok.
  destruct (list_comp_process_ok self items w1 Hok) as (res & w2 & Hcomp).
  pose proof (normalize_batch_run _ _ _ _ _ _ _ Himgs Htexts Hcomp) as Hrun.
  destruct items as [|img0 rest]; [done|].
  destruct Hrun as (r0 & src & _ & _ & _ & Hrun). by eexists _, _.
Qed.

Lemma Forall_exists_Forall2 {A B} (R : A -> B -> Prop) (l : list A) :
  Forall (fun x => exists y, R x y) l -> exists k, Forall2 R l k.
Proof.
  induction 1 as [|x l [y Hy] _ [k Hk]]; [by exists []|].
  exists (y :: k). by constructor.
Qed.

Lemma line_of_nonempty self (tl : list string) (arrs : list (ndarray Z)) bs i c tr :
  Forall nonempty arrs -> line_of self tl arrs bs i c tr -> nonempty c.
Proof.
  intros Harrs (nw & texts & words & ss & Hnw & _ & Hwords & _ & Hss & _ & Hc).
  destruct Hc as (H0 & H1 & _).
  assert (Hnw' : 1 <= nw).
  { unfold valid_num_words in Hnw. destruct (data_augmentation self); lia. }
  destruct (Z.to_nat nw) as [|n] eqn:Hn; [lia|]. simpl in Hwords.
  inversion Hwords as [|? a0 ? words' Ha0 _]; subst.
  destruct (Forall_lookup_1 _ _ _ _ Harrs Ha0) as [Hh Hw].
  pose proof (Zsum_nonneg _ (valid_sep_nonneg _ _ Hss)) as Hsum.
  simpl in H0, H1. split; lia.
Qed.

Lemma process_batch_lines_ok self batch w (il : list (option loc)) (tl : list string) :
  line_mode self = true ->
  heap w !! imgs batch = Some (ImgList il) -> heap w !! gt_texts batch = Some (StrList tl) ->
  batch_size batch = Z.of_nat (length il) -> length tl = length il ->
  il <> [] -> Forall (word_nonempty (heap w)) il ->
  exists b' w', process_batch self batch w = Ok b' w'.
Proof.
  intros Hmode Himgs Htexts Hbs Hlen Hne Hwords.
  destruct (Forall_exists_Forall2
              (fun x a => (exists r, x = Some r /\ heap w !! r = Some (NdUint8 a)) /\
                          nonempty a) il)
    as (arrs & Harr).
  { eapply Forall_impl; [|exact Hwords]. intros x (r & a & -> & Hr & Ha).
    exists a. split; [by exists r|done]. }
  assert (Harrs : Forall nonempty arrs).
  { apply Forall_lookup. intros k a Hk.
    by destruct (Forall2_lookup_r _ _ _ _ _ Harr Hk) as (x & _ & _ & ?). }
  assert (Harr' : Forall2 (fun x a => exists r, x = Some r /\ heap w !! r = Some (NdUint8 a))
                    il arrs).
  { eapply Forall2_impl; [|exact Harr]. by intros x a [? _]. }
  destruct (simulate_text_line_ok self batch w il tl arrs Himgs Htexts Harr' Hbs Hlen)
    as (w1 & Hsim & _ & canv & txts & Hp & Hq & Hlc & _ & Hall).
  rewrite (line_stage_run self batch w _ w1) by (unfold line_stage; by rewrite Hmode).
  eapply normalize_batch_ok; [exact Hp|exact Hq| |].
  - destruct canv; [|done]. destruct il; [done|]. simpl in Hlc. lia.
  - apply Forall_fmap, Forall_lookup. intros i t Hi.
    destruct (Hall i t Hi) as (_ & _ & c & tr & Hc & _ & Hline).
    exists (nd_map u8_to_float c), (NdUint8 c). split; [done|]. split; [done|].
    exact (line_of_nonempty _ _ _ _ _ _ _ Harrs Hline).
Qed.

(** C8: whatever [process_batch] does, return or raise, every object of
    the input store is afterwards what it was: the images, the two lists of
    the batch, everything.  The batch it returns consists of new objects: two
    new lists, and new arrays for the images.  The same holds for the line
    synthesiser alone: each canvas is a new uint8 array, into which the cells
    of the word images were copied, and none of the input arrays. *)
Theorem process_batch_never_mutates self batch w :
  (forall l, (l < length (heap w))%nat ->
     heap (final (process_batch self batch w)) !! l = heap w !! l) /\
  (forall b' w', process_batch self batch w = Ok b' w' ->
     (length (heap w) <= imgs b')%nat /\ (length (heap w) <= gt_texts b')%nat /\
     exists res, heap w' !! imgs b' = Some (ImgList (Some <$> res)) /\
                 Forall (fun r => (length (heap w) <= r)%nat) res) /\
  (forall l, (l < length (heap w))%nat ->
     heap (final (_simulate_text_line self batch w)) !! l = heap w !! l) /\
  (forall mid w1, _simulate_text_line self batch w = Ok mid w1 ->
     (length (heap w) <= imgs mid)%nat /\ (length (heap w) <= gt_texts mid)%nat /\
     exists canv, heap w1 !! imgs mid = Some (ImgList (Some <$> canv)) /\
       Forall (fun t => (length (heap w) <= t)%nat /\
                        exists c, heap w1 !! t = Some (NdUint8 c)) canv).
Proof.
  split; [|split; [|split]].
  - intros l Hl.
    pose proof (frames_process_batch (length (heap w)) self batch w (le_n _)) as Hf.
    unfold wpx in Hf. destruct (process_batch self batch w); simpl.
    + destruct Hf as [[_ Hf] _]. by apply Hf.
    + destruct Hf as [_ Hf]. by apply Hf.
  - intros b' w' Hrun.
    pose proof (frames_process_batch (length (heap w)) self batch w (le_n _)) as Hf.
    unfold wpx in Hf. rewrite Hrun in Hf. destruct Hf as [_ [Hi Ht]].
    split; [done|]. split; [done|].
    apply process_batch_inv in Hrun as (mid & w1 & Hstage & Hrun).
    apply line_stage_grows in Hstage as [Hlen _].
    apply normalize_batch_inv in Hrun
      as (items & texts & res & w2 & img0 & rest & r0 & src & _ & _ & _ & Hcomp & _ & _ & _
          & -> & Hw').
    exists res. split.
    + rewrite Hw'. simpl. by apply list_lookup_middle.
    + apply list_comp_process_inv in Hcomp as (_ & Hall & _).
      apply Forall2_Forall_r with (Q := fun r => (length (heap w) <= r)%nat) in Hall;
        [done|].
      apply Forall_true. intros img r [Hr _]. lia.
  - intros l Hl.
    pose proof (frames_simulate_text_line (length (heap w)) self batch w (le_n _)) as Hf.
    unfold wpx in Hf. destruct (_simulate_text_line self batch w); simpl.
    + destruct Hf as [[_ Hf] _]. by apply Hf.
    + destruct Hf as [_ Hf]. by apply Hf.
  - intros mid w1 Hrun.
    apply simulate_text_line_inv in Hrun as [-> (canv & txts & Hp & _ & _ & _ & Hall)].
    simpl in *. split; [lia|]. split; [lia|]. exists canv. split; [done|].
    apply Forall_lookup. intros i t Hi.
    destruct (Hall i t Hi) as (Hpt & _ & c & _ & Hc & _). split; [lia|by exists c].
Qed.

(** ** Batch size and the truncation cap *)

Lemma lookup_last2 (h : list object) a b : (h ++ [a; b]) !! S (length h) = Some b.
Proof.
  change [a; b] with ([a] ++ [b]). rewrite app_assoc.
  replace (S (length h)) with (length (h ++ [a])) by (rewrite length_app; simpl; lia).
  apply lookup_last.
Qed.

(** C4: on a batch with as many images as texts as [batch_size] says, every
    batch that [process_batch] returns has again as many images as texts, as
    many as its [batch_size], which is the input's; line mode or not.  And it
    does return on a non-empty batch whose images it can read: present uint8
    word images with cells in line mode; otherwise arrays with cells, or
    missing images when the target size has positive width and height. *)
Theorem process_batch_preserves_batch_size self batch w
    (il : list (option loc)) (tl : list string) :
  heap w !! imgs batch = Some (ImgList il) ->
  heap w !! gt_texts batch = Some (StrList tl) ->
  length il = length tl -> batch_size batch = Z.of_nat (length il) ->
  (forall b' w', process_batch self batch w = Ok b' w' ->
     exists il' tl',
       heap w' !! imgs b' = Some (ImgList il') /\
       heap w' !! gt_texts b' = Some (StrList tl') /\
       length il' = length tl' /\
       batch_size b' = Z.of_nat (length il') /\
       batch_size b' = batch_size batch) /\
  (il <> [] ->
   (if line_mode self then Forall (word_nonempty (heap w)) il
    else Forall (image_ok self (heap w)) il) ->
   exists b' w', process_batch self batch w = Ok b' w').
Proof.
  intros Himgs Htexts Hlen Hbs. split.
  - intros b' w' Hrun.
    apply process_batch_inv in Hrun as (mid & w1 & Hstage & Hrun).
    apply normalize_batch_inv in Hrun
      as (items & texts & res & w2 & img0 & rest & r0 & src & Hitems & Htxts & _ & Hcomp
          & _ & _ & _ & -> & Hw').
    apply list_comp_process_inv in Hcomp as (_ & Hall & _).
    apply Forall2_length in Hall.
    assert (Hmid : length items = length texts /\
                   batch_size mid = Z.of_nat (length items) /\
                   batch_size mid = batch_size batch).
    { unfold line_stage in Hstage. destruct (line_mode self).
      - apply simulate_text_line_inv in Hstage
          as [-> (canv & txts & Hp & Hq & Hlc & Hlt & _)].
        simpl in *. rewrite Hp in Hitems. rewrite Hq in Htxts.
        injection Hitems as <-. injection Htxts as <-.
        rewrite length_fmap, Hlc, Hlt, Hbs. split; [done|]. split; [lia|done].
      - destruct Hstage as [-> ->]. rewrite Himgs in Hitems. rewrite Htexts in Htxts.
        injection Hitems as <-. injection Htxts as <-. done. }
    destruct Hmid as (Hl1 & Hl2 & Hl3).
    eexists _, _. rewrite Hw'. simpl.
    split; [by apply list_lookup_middle|]. split.
    { apply lookup_last2. }
    rewrite !length_fmap. split; [lia|]. split; [|done]. rewrite Hl2. lia.
  - intros Hne Hok. destruct (line_mode self) eqn:Hmode.
    + by eapply process_batch_lines_ok.
    + rewrite (line_stage_run self batch w batch w)
        by (unfold line_stage; by rewrite Hmode).
      by eapply normalize_batch_ok.
Qed.

(** C2: [process_batch] has one cap for the whole batch: a quarter (integer
    division) of the first axis of the first normalised image, which is the
    width of the first image that was normalised; every text of the batch is
    truncated with it, whatever the other images are.  Without line mode a
    non-empty batch of readable images (arrays with cells, or missing images
    with a target size of positive width and height) is processed, and the
    cap is the width of its image 0 divided by 4. *)
Theorem process_batch_uniform_cap self batch w
    (il : list (option loc)) (tl : list string) :
  heap w !! imgs batch = Some (ImgList il) ->
  heap w !! gt_texts batch = Some (StrList tl) ->
  (forall b' w', process_batch self batch w = Ok b' w' ->
     exists mid w1 items texts res r0 a0,
       line_stage self batch w mid w1 /\
       heap w1 !! imgs mid = Some (ImgList items) /\
       heap w1 !! gt_texts mid = Some (StrList texts) /\
       heap w' !! imgs b' = Some (ImgList (Some <$> res)) /\
       res !! 0%nat = Some r0 /\ heap w' !! r0 = Some (NdFloat64 a0) /\
       (exists img0 rest src, items = img0 :: rest /\
          image_source self (heap w1) img0 src /\ shape0 a0 = shape1 src) /\
       heap w' !! gt_texts b'
       = Some (StrList ((fun t => _truncate_label t (Z.of_nat (shape0 a0) `div` 4))
                          <$> texts))) /\
  (line_mode self = false ->
   forall img0 rest src, il = img0 :: rest ->
     Forall (image_ok self (heap w)) il -> image_source self (heap w) img0 src ->
     exists b' w',
       process_batch self batch w = Ok b' w' /\
       heap w' !! gt_texts b'
       = Some (StrList ((fun t => _truncate_label t (Z.of_nat (shape1 src) `div` 4))
                          <$> tl))).
Proof.
  intros Himgs Htexts.
  assert (Hpart : forall b' w', process_batch self batch w = Ok b' w' ->
     exists mid w1 items texts res r0 a0,
       line_stage self batch w mid w1 /\
       heap w1 !! imgs mid = Some (ImgList items) /\
       heap w1 !! gt_texts mid = Some (StrList texts) /\
       heap w' !! imgs b' = Some (ImgList (Some <$> res)) /\
       res !! 0%nat = Some r0 /\ heap w' !! r0 = Some (NdFloat64 a0) /\
       (exists img0 rest src, items = img0 :: rest /\
          image_source self (heap w1) img0 src /\ shape0 a0 = shape1 src) /\
       heap w' !! gt_texts b'
       = Some (StrList ((fun t => _truncate_label t (Z.of_nat (shape0 a0) `div` 4))
                          <$> texts))).
  { intros b' w' Hrun.
    apply process_batch_inv in Hrun as (mid & w1 & Hstage & Hrun).
    apply normalize_batch_inv in Hrun
      as (items & texts & res & w2 & img0 & rest & r0 & src & Hitems & Htxts & -> & Hcomp
          & Hr0 & Hsrc & Hlook & -> & Hw').
    exists mid, w1, (img0 :: rest), texts, res, r0, (normalized src).
    rewrite Hw'. simpl.
    split; [done|]. split; [done|]. split; [done|].
    split; [by apply list_lookup_middle|]. split; [done|].
    split; [by apply lookup_app_l_Some|]. split; [by exists img0, rest, src|].
    apply lookup_last2. }
  split; [exact Hpart|].
  intros Hmode img0 rest src -> Hok Hsrc.
  assert (Hstage : line_stage self batch w batch w).
  { unfold line_stage. by rewrite Hmode. }
  destruct (normalize_batch_ok self batch w _ _ Himgs Htexts ltac:(done) Hok)
    as (b' & w' & Hrun).
  rewrite <- (line_stage_run _ _ _ _ _ Hstage) in Hrun.
  exists b', w'. split; [done|].
  destruct (Hpart _ _ Hrun)
    as (mid & w1 & items & texts & res & r0 & a0 & Hst & Hi & Ht & _ & _ & _
        & (img0' & rest' & src' & -> & Hsrc' & Hshape) & Hcap).
  unfold line_stage in Hst. rewrite Hmode in Hst. destruct Hst as [-> ->].
  rewrite Himgs in Hi. injection Hi as <- <-.
  rewrite Htexts in Ht. injection Ht as <-.
  assert (src' = src) as ->.
  { destruct img0 as [l|]; simpl in *.
    - destruct Hsrc as (o & Ho & Ha & _). destruct Hsrc' as (o' & Ho' & Ha' & _).
      congruence.
    - destruct Hsrc as (_ & _ & ->). by destruct Hsrc' as (_ & _ & ->). }
  by rewrite Hcap, Hshape.
Qed.

(** ** The layout of a line without augmentation *)

Lemma top_of_nat (h s : nat) :
  (s <= h)%nat ->
  (Z.of_nat h - Z.of_nat s) `div` 2 = Z.of_nat ((h - s) / 2).
Proof. intros Hs. rewrite Nat2Z.inj_div, Nat2Z.inj_sub by done. done. Qed.

Lemma canvas_of_fixed (words : list (ndarray Z)) (c : ndarray Z) :
  length words = 5%nat -> canvas_of words [0; 30; 30; 30; 30] c -> fixed_line words c.
Proof.
  intros Hlen (Hs0 & Hs1 & Hwin & Hout).
  destruct words as [|a0 [|a1 [|a2 [|a3 [|a4 [|]]]]]]; try done.
  set (words := [a0; a1; a2; a3; a4]) in *.
  set (h := max_list_with shape0 words) in *.
  assert (Hh : shape0 c = h) by lia.
  assert (Hle : forall j a, words !! j = Some a -> (shape0 a <= h)%nat).
  { intros j a Hj. apply (max_list_with_ge shape0 words a).
    by eapply list_elem_of_lookup_2. }
  assert (Hw : forall j a, words !! j = Some a ->
            windows (Z.of_nat h) 0 words [0; 30; 30; 30; 30] !! j
            = Some (Z.of_nat (word_top h a), Z.of_nat (word_left words j), a)).
  { intros j a Hj. pose proof (Hle j a Hj) as Hsa.
    destruct j as [|[|[|[|[|j]]]]]; simpl in Hj; try done;
      injection Hj as <-; simpl; unfold word_top; rewrite top_of_nat by done;
      do 3 f_equal; unfold word_left; simpl; lia. }
  split; [done|]. split; [done|]. split; [simpl in *; lia|]. split.
  - intros j a r col Hj Hr Hcol. rewrite Hh.
    rewrite (Hwin _ _ _ _ (Hw j a Hj)).
    + f_equal; lia.
    + unfold in_window. lia.
  - intros r col Hnone. apply Hout.
    assert (Hcells : forall j y xl a,
              windows (Z.of_nat h) 0 words [0; 30; 30; 30; 30] !! j = Some (y, xl, a) ->
              ~ in_window y xl a r col).
    { intros j y xl a Hj.
      assert (Hja : words !! j = Some a).
      { destruct j as [|[|[|[|[|j]]]]]; simpl in Hj; try done; by injection Hj as _ _ <-. }
      rewrite (Hw j a Hja) in Hj. injection Hj as <- <-.
      intros [Hr Hc]. apply (Hnone j a Hja). rewrite Hh. unfold in_word. lia. }
    apply Forall_lookup. intros j [[y xl] a] Hj. by apply (Hcells j).
Qed.

Lemma line_of_fixed self (tl : list string) (arrs : list (ndarray Z)) bs i c tr :
  data_augmentation self = false ->
  line_of self tl arrs bs i c tr ->
  exists texts words,
    Forall2 (fun j t => tl !! cyclic bs i j = Some t) (seq 0 5) texts /\
    Forall2 (fun j a => arrs !! cyclic bs i j = Some a) (seq 0 5) words /\
    tr = String.concat " " texts /\ fixed_line words c.
Proof.
  intros Haug (nw & texts & words & ss & Hnw & Htexts & Hwords & Hlen & Hss & -> & Hc).
  unfold valid_num_words in Hnw. rewrite Haug in Hnw. subst nw.
  change (Z.to_nat 5) with 5%nat in *.
  assert (ss = [30; 30; 30; 30]) as ->.
  { unfold valid_sep in Hss. rewrite Haug in Hss.
    destruct ss as [|s0 [|s1 [|s2 [|s3 [|]]]]]; try done.
    apply Forall_cons_1 in Hss as [-> Hss]. apply Forall_cons_1 in Hss as [-> Hss].
    apply Forall_cons_1 in Hss as [-> Hss]. by apply Forall_cons_1 in Hss as [-> Hss]. }
  exists texts, words. split; [done|]. split; [done|]. split; [done|].
  apply canvas_of_fixed; [|done].
  apply Forall2_length in Hwords. by rewrite <- Hwords.
Qed.

(** C3: without augmentation, line [i] of the synthesised batch is made of
    the 5 samples at the cyclic indices [(i + j) mod batch_size], [j] in
    [0, 5): its transcript is their texts joined by one space, in that order;
    its canvas is as high as the highest of the 5 word images and as wide as
    their widths plus 4 separators of 30; word [j] is pasted with its top row
    at [(canvas_height - word_height) // 2] and its left column after the
    words before it and their separators; every other cell is 255.  With one
    sample in the batch, the word and its text are repeated 5 times. *)
Theorem simulate_text_line_fixed_layout self batch w
    (il : list (option loc)) (tl : list string) (arrs : list (ndarray Z)) :
  data_augmentation self = false ->
  heap w !! imgs batch = Some (ImgList il) ->
  heap w !! gt_texts batch = Some (StrList tl) ->
  Forall2 (fun x a => exists r, x = Some r /\ heap w !! r = Some (NdUint8 a)) il arrs ->
  batch_size batch = Z.of_nat (length il) -> length tl = length il ->
  exists mid w1 canv txts,
    _simulate_text_line self batch w = Ok mid w1 /\
    batch_size mid = batch_size batch /\
    heap w1 !! imgs mid = Some (ImgList (Some <$> canv)) /\
    heap w1 !! gt_texts mid = Some (StrList txts) /\
    length canv = length il /\ length txts = length il /\
    (forall i, (i < length il)%nat ->
       exists t c texts words,
         canv !! i = Some t /\ heap w1 !! t = Some (NdUint8 c) /\
         Forall2 (fun j tx => tl !! cyclic (batch_size batch) i j = Some tx) (seq 0 5) texts /\
         Forall2 (fun j a => arrs !! cyclic (batch_size batch) i j = Some a) (seq 0 5) words /\
         txts !! i = Some (String.concat " " texts) /\
         fixed_line words c) /\
    (forall a0 t0, arrs = [a0] -> tl = [t0] ->
       exists t c,
         canv = [t] /\ heap w1 !! t = Some (NdUint8 c) /\
         fixed_line (replicate 5 a0) c /\
         txts = [String.concat " " (replicate 5 t0)]).
Proof.
  intros Haug Himgs Htexts Harr Hbs Hlen.
  destruct (simulate_text_line_ok self batch w il tl arrs Himgs Htexts Harr Hbs Hlen)
    as (w1 & Hsim & _ & canv & txts & Hp & Hq & Hlc & Hlt & Hall).
  assert (Hlines : forall i, (i < length il)%nat ->
       exists t c texts words,
         canv !! i = Some t /\ heap w1 !! t = Some (NdUint8 c) /\
         Forall2 (fun j tx => tl !! cyclic (batch_size batch) i j = Some tx) (seq 0 5) texts /\
         Forall2 (fun j a => arrs !! cyclic (batch_size batch) i j = Some a) (seq 0 5) words /\
         txts !! i = Some (String.concat " " texts) /\
         fixed_line words c).
  { intros i Hi.
    destruct (lookup_lt_is_Some_2 canv i ltac:(lia)) as [t Ht].
    destruct (Hall i t Ht) as (_ & _ & c & tr & Hc & Htr & Hline).
    apply line_of_fixed in Hline as (texts & words & Htx & Hws & -> & Hfixed); [|done].
    by exists t, c, texts, words. }
  eexists _, w1, canv, txts. split; [exact Hsim|]. simpl.
  split; [done|]. split; [done|]. split; [done|]. split; [done|]. split; [done|].
  split; [exact Hlines|].
  intros a0 t0 -> ->. apply Forall2_length in Harr. simpl in *.
  destruct (Hlines 0%nat ltac:(lia)) as (t & c & texts & words & Ht & Hc & Htx & Hws & Htr & Hfixed).
  assert (Hcyc : forall j, cyclic (batch_size batch) 0 j = 0%nat).
  { intros j. unfold cyclic. rewrite Hbs, Harr. simpl. by rewrite Z.mod_1_r. }
  assert (words = replicate 5 a0) as ->.
  { repeat (inversion Hws as [|? ? ? ? Hj Hws']; subst; clear Hws; rename Hws' into Hws;
            rewrite Hcyc in Hj; injection Hj as <-).
    by inversion Hws. }
  assert (texts = replicate 5 t0) as ->.
  { repeat (inversion Htx as [|? ? ? ? Hj Htx']; subst; clear Htx; rename Htx' into Htx;
            rewrite Hcyc in Hj; injection Hj as <-).
    by inversion Htx. }
  exists t, c.
  destruct canv as [|t' [|]]; simpl in *; try lia.
  destruct txts as [|tr' [|]]; simpl in *; try lia.
  injection Ht as ->. injection Htr as ->. done.
Qed.

(** ** The pipeline on the small batch *)

Lemma truncate_label_length_witness :
  Z.of_nat (String.length (_truncate_label "aabb" 2)) <= 2 /\
  _truncate_label "aabb" 0 = ""%string.
Proof. apply (truncate_label_length "aabb" 2). lia. Defined.

Lemma process_img_normalizes_witness :
  exists r w' a,
    process_img ex_words (Some 0%nat) ex_world = Ok r w' /\
    heap w' !! r = Some (NdFloat64 a) /\
    shape0 a = 9%nat /\ shape1 a = 2%nat.
Proof.
  destruct (process_img_normalizes ex_words 0%nat ex_img0 ex_world eq_refl)
    as (r & w' & a & Hrun & Hr & H0 & H1 & _).
  { split; simpl; lia. }
  exists r, w', a. split; [exact Hrun|]. split; [exact Hr|]. split; [exact H0|exact H1].
Defined.

Lemma process_img_missing_witness :
  exists r w' a,
    process_img ex_words None ex_world = Ok r w' /\
    heap w' !! r = Some (NdFloat64 a) /\
    shape0 a = 8%nat /\ shape1 a = 4%nat /\
    (forall i j, item a j i = (-0.5)%float).
Proof.
  destruct (process_img_missing ex_words ex_world) as
    (r & w' & canvas & a & Hrun & _ & Hc0 & Hc1 & _ & Hr & H0 & H1 & _ & Hcells & _).
  - simpl. lia.
  - simpl. lia.
  - exists r, w', a. split; [exact Hrun|]. split; [exact Hr|].
    split; [exact (eq_trans H0 Hc1)|]. split; [exact (eq_trans H1 Hc0)|exact Hcells].
Defined.

Lemma ex_images_ok : Forall (image_ok ex_words (heap ex_world)) [Some 0%nat; Some 1%nat].
Proof.
  constructor; [|constructor; [|constructor]].
  - exists (nd_map u8_to_float ex_img0), (NdUint8 ex_img0).
    split; [reflexivity|]. split; [reflexivity|]. split; simpl; lia.
  - exists (nd_map u8_to_float ex_img1), (NdUint8 ex_img1).
    split; [reflexivity|]. split; [reflexivity|]. split; simpl; lia.
Defined.

Lemma process_batch_uniform_cap_witness :
  exists b' w',
    process_batch ex_words ex_batch ex_world = Ok b' w' /\
    heap w' !! gt_texts b' = Some (StrList ["a"; "c"]%string).
Proof.
  destruct (process_batch_uniform_cap ex_words ex_batch ex_world
              [Some 0%nat; Some 1%nat] ["aab"; "ccd"]%string eq_refl eq_refl)
    as [_ Hcap].
  destruct (Hcap eq_refl (Some 0%nat) [Some 1%nat] (nd_map u8_to_float ex_img0)
              eq_refl ex_images_ok)
    as (b' & w' & Hrun & Htexts).
  - exists (NdUint8 ex_img0). split; [reflexivity|]. split; [reflexivity|].
    split; simpl; lia.
  - exists b', w'. split; [exact Hrun|exact Htexts].
Defined.

Lemma process_batch_preserves_batch_size_witness :
  exists b' w', process_batch ex_words ex_batch ex_world = Ok b' w'.
Proof.
  destruct (process_batch_preserves_batch_size ex_words ex_batch ex_world
              [Some 0%nat; Some 1%nat] ["aab"; "ccd"]%string
              eq_refl eq_refl eq_refl eq_refl)
    as [_ Hret].
  apply Hret; [discriminate|exact ex_images_ok].
Defined.

Lemma simulate_text_line_fixed_layout_witness :
  exists mid w1 canv txts,
    _simulate_text_line ex_lines ex_batch ex_world = Ok mid w1 /\
    heap w1 !! imgs mid = Some (ImgList (Some <$> canv)) /\
    heap w1 !! gt_texts mid = Some (StrList txts) /\
    length canv = 2%nat /\ length txts = 2%nat.
Proof.
  destruct (simulate_text_line_fixed_layout ex_lines ex_batch ex_world
              [Some 0%nat; Some 1%nat] ["aab"; "ccd"]%string [ex_img0; ex_img1])
    as (mid & w1 & canv & txts & Hrun & _ & Hp & Hq & Hlc & Hlt & _).
  - reflexivity.
  - reflexivity.
  - reflexivity.
  - constructor; [exists 0%nat; split; reflexivity|].
    constructor; [exists 1%nat; split; reflexivity|]. constructor.
  - reflexivity.
  - reflexivity.
  - exists mid, w1, canv, txts.
    split; [exact Hrun|]. split; [exact Hp|]. split; [exact Hq|].
    split; [exact Hlc|exact Hlt].
Defined.

(** ** More on the label budget *)

Lemma substring_0_all (s : string) (n : nat) :
  (String.length s <= n)%nat -> substring 0 n s = s.
Proof.
  revert n. induction s as [|a s IH]; intros [|n] Hn; simpl in *; try done; try lia.
  rewrite IH by lia. done.
Qed.

Lemma substring_0_shorter (s : string) (k k' : nat) :
  (k <= k')%nat -> exists rest, substring 0 k' s = (substring 0 k s ++ rest)%string.
Proof.
  revert k k'. induction s as [|a s IH]; intros [|k] [|k'] Hk; simpl; try lia; eauto.
  destruct (IH k k' ltac:(lia)) as [rest Hrest]. exists rest.
  change (String a (substring 0 k' s) = String a (substring 0 k s +:+ rest)).
  by f_equal.
Qed.

Lemma char_cost_prefix (s : string) (k i : nat) :
  (i < k)%nat -> char_cost (substring 0 k s) i = char_cost s i.
Proof.
  intros Hi. unfold char_cost. destruct i as [|i]; [done|].
  rewrite !substring_correct1 by lia. by rewrite !Nat.add_0_r.
Qed.

Lemma cost_upto_prefix (s : string) (k j : nat) :
  (j <= k)%nat -> cost_upto (substring 0 k s) j = cost_upto s j.
Proof.
  induction j as [|j IH]; intros Hj; simpl; [done|].
  rewrite IH, char_cost_prefix by lia. done.
Qed.

Lemma cost_upto_le (s : string) (n m : nat) :
  (n <= m)%nat -> cost_upto s n <= cost_upto s m.
Proof. induction 1; simpl; [lia|]. pose proof (char_cost_pos s m). lia. Qed.

(** The result of [_truncate_label] by its length [k]: the cost of every
    shorter prefix fits the cap, and the cost of the next longer one, when
    there is one, does not. *)
Lemma truncate_label_cut (text : string) (m : Z) :
  exists k, (k <= String.length text)%nat /\
    _truncate_label text m = substring 0 k text /\
    String.length (_truncate_label text m) = k /\
    (forall j, (j <= k)%nat -> (0 < j)%nat -> cost_upto text j <= m) /\
    ((k < String.length text)%nat -> m < cost_upto text (S k)).
Proof.
  destruct (truncate_loop_spec text m (String.length text) 0%nat)
    as [(k & Hk & Hex & Hbel & Hr0)|[Hall Hr0]]; [lia|intros j Hj; lia| |].
  - assert (Hr : _truncate_label text m = substring 0 k text) by exact Hr0.
    exists k. split; [lia|]. split; [done|].
    split; [rewrite Hr; apply substring_0_length; lia|]. split; [|done].
    intros [|j] Hj Hpos; [lia|]. apply (Hbel j). lia.
  - assert (Hr : _truncate_label text m = text) by exact Hr0.
    exists (String.length text). split; [done|].
    split; [by rewrite substring_0_all|]. split; [by rewrite Hr|]. split; [|lia].
    intros [|j] Hj Hpos; [lia|]. apply (Hall j). lia.
Qed.

(** X1: truncating a truncated label with the same cap changes nothing. *)
Theorem truncate_label_idempotent (text : string) (m : Z) :
  _truncate_label (_truncate_label text m) m = _truncate_label text m.
Proof.
  destruct (truncate_label_cut text m) as (k & Hk & Hr & Hlen & Hfit & _).
  destruct (truncate_label_cut (_truncate_label text m) m)
    as (k' & Hk' & Hr' & _ & _ & Hnext).
  rewrite Hr'. apply substring_0_all. rewrite Hlen in *.
  destruct (Nat.lt_ge_cases k' k) as [Hlt|]; [|lia].
  specialize (Hnext Hlt). rewrite Hr, cost_upto_prefix in Hnext by lia.
  specialize (Hfit (S k') ltac:(lia) ltac:(lia)). lia.
Qed.

(** X2: a larger cap keeps at least as much: the label truncated with the
    smaller cap is a prefix of the label truncated with the larger one. *)
Theorem truncate_label_monotone (text : string) (m m' : Z) :
  m <= m' ->
  exists rest, _truncate_label text m' = (_truncate_label text m ++ rest)%string.
Proof.
  intros Hm.
  destruct (truncate_label_cut text m) as (k & Hk & Hr & _ & Hfit & _).
  destruct (truncate_label_cut text m') as (k' & Hk' & Hr' & _ & _ & Hnext').
  rewrite Hr, Hr'. apply substring_0_shorter.
  destruct (Nat.lt_ge_cases k' k) as [Hlt|]; [|lia].
  specialize (Hnext' ltac:(lia)). specialize (Hfit (S k') ltac:(lia) ltac:(lia)). lia.
Qed.

Lemma truncate_label_monotone_witness :
  exists rest, _truncate_label "aabb" 4 = (_truncate_label "aabb" 2 ++ rest)%string.
Proof. apply (truncate_label_monotone "aabb" 2 4). lia. Defined.

(** X3: with a cap [m >= 0] the label returned fits the CTC budget, its own
    cost (1 per character, 2 for a repeated one) is at most [m]; and it is
    the longest prefix of the text that does: every prefix whose cost fits is
    at most as long. *)
Theorem truncate_label_fits (text : string) (m : Z) :
  0 <= m ->
  let r := _truncate_label text m in
  cost_upto r (String.length r) <= m /\
  (forall k, (k <= String.length text)%nat -> cost_upto text k <= m ->
             (k <= String.length r)%nat).
Proof.
  intros Hm r. subst r.
  destruct (truncate_label_cut text m) as (k & Hk & Hr & Hlen & Hfit & Hnext).
  rewrite Hlen. split.
  - rewrite Hr, cost_upto_prefix by lia.
    destruct k as [|k]; [simpl; lia|]. apply Hfit; lia.
  - intros j Hj Hcost. destruct (Nat.lt_ge_cases k j) as [Hlt|]; [|lia].
    specialize (Hnext ltac:(lia)).
    pose proof (cost_upto_le text (S k) j ltac:(lia)). lia.
Qed.

Lemma truncate_label_fits_witness :
  cost_upto (_truncate_label "aabb" 4) (String.length (_truncate_label "aabb" 4)) <= 4 /\
  (forall k, (k <= String.length "aabb")%nat -> cost_upto "aabb" k <= 4 ->
             (k <= String.length (_truncate_label "aabb" 4))%nat).
Proof. apply (truncate_label_fits "aabb" 4). lia. Defined.

Lemma cost_upto_no_repeat (text : string) :
  (forall i, (S i < String.length text)%nat ->
             String.get (S i) text <> String.get i text) ->
  forall n, (n <= String.length text)%nat -> cost_upto text n = Z.of_nat n.
Proof.
  intros Hno. induction n as [|n IH]; intros Hn; simpl; [done|].
  rewrite IH by lia. unfold char_cost. destruct n as [|n]; simpl; [lia|].
  rewrite bool_decide_eq_false_2; [lia|].
  replace (n - 0)%nat with n by lia. apply Hno. lia.
Qed.

(** X4: on a text in which no character repeats its predecessor, and with
    a cap [m >= 0], the truncation is the plain slice [text[:m]]. *)
Theorem truncate_label_no_repeat (text : string) (m : Z) :
  0 <= m ->
  (forall i, (S i < String.length text)%nat ->
             String.get (S i) text <> String.get i text) ->
  _truncate_label text m = substring 0 (Z.to_nat m) text.
Proof.
  intros Hm Hno.
  destruct (truncate_label_cut text m) as (k & Hk & Hr & _ & Hfit & Hnext).
  pose proof (cost_upto_no_repeat text Hno) as Hcost. rewrite Hr.
  destruct (Nat.lt_ge_cases k (String.length text)) as [Hlt|Hge].
  - specialize (Hnext Hlt). rewrite Hcost in Hnext by lia.
    destruct k as [|k]; [f_equal; lia|].
    specialize (Hfit (S k) ltac:(lia) ltac:(lia)). rewrite Hcost in Hfit by lia.
    f_equal. lia.
  - assert (k = String.length text) as -> by lia.
    rewrite substring_0_all by lia.
    destruct (String.length text) as [|n] eqn:Hn.
    + destruct text; [by destruct (Z.to_nat m)|done].
    + specialize (Hfit (S n) ltac:(lia) ltac:(lia)). rewrite Hcost in Hfit by lia.
      symmetry. apply substring_0_all. lia.
Qed.

Lemma truncate_label_no_repeat_witness :
  _truncate_label "abcd" 3 = substring 0 (Z.to_nat 3) "abcd".
Proof.
  apply (truncate_label_no_repeat "abcd" 3); [lia|].
  intros [|[|[|i]]] Hi; simpl in *; try discriminate; lia.
Defined.

(** X5: the label comes back whole exactly when it is empty or its total
    cost fits the cap, and it comes back empty exactly when it is empty or
    the cap is below 1 (the first character always costs 1). *)
Theorem truncate_label_all_or_nothing (text : string) (m : Z) :
  (_truncate_label text m = text <->
   text = ""%string \/ cost_upto text (String.length text) <= m) /\
  (_truncate_label text m = ""%string <-> text = ""%string \/ m < 1).
Proof.
  destruct (truncate_label_cut text m) as (k & Hk & Hr & Hlen & Hfit & Hnext).
  split; split.
  - intros Heq. rewrite Heq in Hlen.
    destruct text as [|a s]; [by left|right].
    apply Hfit; simpl in *; lia.
  - intros [->|Hcost]; [done|].
    rewrite Hr. apply substring_0_all.
    destruct (Nat.lt_ge_cases k (String.length text)) as [Hlt|]; [|lia].
    specialize (Hnext Hlt).
    pose proof (cost_upto_le text (S k) (String.length text) ltac:(lia)). lia.
  - intros Heq. rewrite Heq in Hlen. simpl in Hlen. subst k.
    destruct text as [|a s]; [by left|right].
    specialize (Hnext ltac:(simpl; lia)). simpl in Hnext. unfold char_cost in Hnext.
    simpl in Hnext. lia.
  - intros [->|Hm]; [done|].
    destruct k as [|k]; [rewrite Hr; by destruct text|].
    specialize (Hfit 1%nat ltac:(lia) ltac:(lia)). simpl in Hfit.
    unfold char_cost in Hfit. simpl in Hfit. lia.
Qed.

(** ** The range of a normalised image *)

Lemma grey_level_in v : 0 <= v <= 255 -> In v grey_levels.
Proof.
  intros Hv. unfold grey_levels. apply in_map_iff. exists (Z.to_nat v).
  split; [lia|]. apply in_seq. lia.
Qed.

Lemma levels_checked_true : levels_checked = true.
Proof. vm_compute. reflexivity. Qed.

Lemma grey_level_normalized v :
  0 <= v <= 255 ->
  PrimFloat.leb (-0.5) (u8_to_float v / 255 - 0.5) = true /\
  PrimFloat.leb (u8_to_float v / 255 - 0.5) 0.5 = true /\
  forall v', 0 <= v' <= 255 -> v < v' ->
    PrimFloat.ltb (u8_to_float v / 255 - 0.5) (u8_to_float v' / 255 - 0.5) = true.
Proof.
  intros Hv. pose proof levels_checked_true as Hall. unfold levels_checked in Hall.
  rewrite forallb_forall in Hall. specialize (Hall v (grey_level_in v Hv)).
  apply andb_true_iff in Hall as [Hall Hmono]. apply andb_true_iff in Hall as [Hlo Hhi].
  split; [done|]. split; [done|]. intros v' Hv' Hlt.
  rewrite forallb_forall in Hmono. specialize (Hmono v' (grey_level_in v' Hv')).
  destruct (Z.ltb_spec v v'); [done|lia].
Qed.

(** X6: on a uint8 image with cells (both dimensions positive, values in
    [0, 255]) every cell of the normalised image lies in [-0.5, 0.5], and a
    brighter pixel gives a strictly larger value: no two grey levels are
    merged. *)
Theorem process_img_range self l (img : ndarray Z) w :
  heap w !! l = Some (NdUint8 img) -> nonempty img ->
  (forall i j, (i < shape0 img)%nat -> (j < shape1 img)%nat -> 0 <= item img i j <= 255) ->
  exists r w' a,
    process_img self (Some l) w = Ok r w' /\
    heap w' !! r = Some (NdFloat64 a) /\
    shape0 a = shape1 img /\ shape1 a = shape0 img /\
    (forall i j, (i < shape0 img)%nat -> (j < shape1 img)%nat ->
       PrimFloat.leb (-0.5) (item a j i) = true /\
       PrimFloat.leb (item a j i) 0.5 = true) /\
    (forall i j i' j',
       (i < shape0 img)%nat -> (j < shape1 img)%nat ->
       (i' < shape0 img)%nat -> (j' < shape1 img)%nat ->
       item img i j < item img i' j' ->
       PrimFloat.ltb (item a j i) (item a j' i') = true).
Proof.
  intros Hl Hne Hcells.
  pose proof (process_img_some self l _ _ w Hl eq_refl Hne) as Hrun.
  eexists _, _, (normalized (nd_map u8_to_float img)). split; [exact Hrun|].
  cbn [heap set_heap]. split.
  { rewrite lookup_app_r by lia.
    by replace (length (heap w) + 3 - length (heap w))%nat with 3%nat by lia. }
  split; [done|]. split; [done|]. split.
  - intros i j Hi Hj.
    destruct (grey_level_normalized _ (Hcells i j Hi Hj)) as (Hlo & Hhi & _).
    by split.
  - intros i j i' j' Hi Hj Hi' Hj' Hlt.
    destruct (grey_level_normalized _ (Hcells i j Hi Hj)) as (_ & _ & Hmono).
    apply Hmono; [by apply Hcells|done].
Qed.

Lemma process_img_range_witness :
  exists r w' a,
    process_img ex_words (Some 0%nat) ex_world = Ok r w' /\
    heap w' !! r = Some (NdFloat64 a) /\
    (forall i j, (i < 2)%nat -> (j < 9)%nat ->
       PrimFloat.leb (-0.5) (item a j i) = true /\
       PrimFloat.leb (item a j i) 0.5 = true).
Proof.
  destruct (process_img_range ex_words 0%nat ex_img0 ex_world eq_refl)
    as (r & w' & a & Hrun & Hr & _ & _ & Hrange & _).
  - split; simpl; lia.
  - intros i j Hi Hj. simpl in *. lia.
  - exists r, w', a. split; [exact Hrun|]. split; [exact Hr|exact Hrange].
Defined.

(** X7: for a missing image [process_img] returns exactly when both
    components of the target size are positive.  With a negative one
    [np.zeros] raises ValueError and nothing is allocated; with none negative
    and one zero the canvas has no cell, [cv2.transpose] gives None and the
    division raises TypeError. *)
Theorem process_img_missing_size self w :
  ((exists r w', process_img self None w = Ok r w') <->
   0 < (img_size self).1 /\ 0 < (img_size self).2) /\
  ((img_size self).1 < 0 \/ (img_size self).2 < 0 ->
   process_img self None w = Raise ValueError w) /\
  (0 <= (img_size self).1 -> 0 <= (img_size self).2 ->
   (img_size self).1 = 0 \/ (img_size self).2 = 0 ->
   exists w', process_img self None w = Raise TypeError w').
Proof.
  assert (Hneg : (img_size self).1 < 0 \/ (img_size self).2 < 0 ->
                 process_img self None w = Raise ValueError w).
  { intros Hn. unfold process_img, np_zeros.
    destruct (Z.ltb_spec (img_size self).2 0); [done|].
    destruct (Z.ltb_spec (img_size self).1 0); [done|lia]. }
  assert (Hzero : 0 <= (img_size self).1 -> 0 <= (img_size self).2 ->
                  (img_size self).1 = 0 \/ (img_size self).2 = 0 ->
                  exists w', process_img self None w = Raise TypeError w').
  { intros H1 H2 Hz. eexists. apply process_img_none_empty; [done|done|].
    destruct Hz; [by right|by left]. }
  split; [|split; [exact Hneg|exact Hzero]]. split.
  - intros (r & w' & Hrun).
    destruct (Z.lt_ge_cases (img_size self).1 0) as [H1|H1];
      [rewrite Hneg in Hrun by lia; done|].
    destruct (Z.lt_ge_cases (img_size self).2 0) as [H2|H2];
      [rewrite Hneg in Hrun by lia; done|].
    destruct (decide ((img_size self).1 = 0 \/ (img_size self).2 = 0)) as [Hz|Hnz].
    { destruct (Hzero H1 H2 Hz) as [w'' Hraise]. by rewrite Hraise in Hrun. }
    apply Decidable.not_or in Hnz. lia.
  - intros [H1 H2]. rewrite (process_img_none self w H2 H1). by eexists _, _.
Qed.

(** ** Positions, the constructor and the demo *)

Lemma image_source_back self (h ext : list object) img a :
  image_ok self h img -> image_source self (h ++ ext) img a -> image_source self h img a.
Proof.
  destruct img as [l|]; [|done]. intros (a' & o' & Hl' & Ha') (o & Hl & Ha).
  rewrite (lookup_app_l_Some _ _ _ _ Hl') in Hl. injection Hl as <-. by exists o'.
Qed.

Lemma image_source_unique self (h : list object) img a a' :
  image_source self h img a -> image_source self h img a' -> a = a'.
Proof.
  destruct img as [l|]; simpl.
  - intros (o & Ho & Ha & _) (o' & Ho' & Ha' & _). congruence.
  - intros (_ & _ & ->) (_ & _ & ->). done.
Qed.

(** X8: without line mode [process_batch] checks nothing about the batch
    and keeps the positions: whether or not the two lists and [batch_size]
    agree, on images it can read (arrays with cells, missing images with a
    target size of positive width and height) it returns one image per
    input image, image [i] being input image [i] normalised (or the blank
    canvas normalised, for a missing one), one text per input text,
    truncated with the one cap, a quarter of the width of image 0, and
    [batch_size] as it was. *)
Theorem process_batch_positions self batch w
    (il : list (option loc)) (tl : list string) img0 src0 :
  line_mode self = false ->
  heap w !! imgs batch = Some (ImgList il) ->
  heap w !! gt_texts batch = Some (StrList tl) ->
  Forall (image_ok self (heap w)) il ->
  il !! 0%nat = Some img0 -> image_source self (heap w) img0 src0 ->
  exists b' w' res,
    process_batch self batch w = Ok b' w' /\
    batch_size b' = batch_size batch /\
    heap w' !! imgs b' = Some (ImgList (Some <$> res)) /\
    length res = length il /\
    (forall i img r, il !! i = Some img -> res !! i = Some r ->
       exists src, image_source self (heap w) img src /\
                   heap w' !! r = Some (NdFloat64 (normalized src))) /\
    heap w' !! gt_texts b'
    = Some (StrList ((fun t => _truncate_label t (Z.of_nat (shape1 src0) `div` 4)) <$> tl)).
Proof.
  intros Hmode Himgs Htexts Hok Hhead Hsrc0.
  assert (Hne : il <> []) by (by destruct il).
  assert (Hstage : line_stage self batch w batch w).
  { unfold line_stage. by rewrite Hmode. }
  destruct (normalize_batch_ok self batch w _ _ Himgs Htexts Hne Hok) as (b' & w' & Hrun).
  pose proof Hrun as Hrun0. rewrite <- (line_stage_run _ _ _ _ _ Hstage) in Hrun0.
  apply normalize_batch_inv in Hrun
    as (items & texts & res & w2 & img0' & rest & r0 & src & Hitems & Htxts & Hcons & Hcomp
        & _ & Hsrc & _ & -> & Hw').
  rewrite Himgs in Hitems. injection Hitems as <-.
  rewrite Htexts in Htxts. injection Htxts as <-.
  rewrite Hcons in Hhead. injection Hhead as ->.
  rewrite (image_source_unique _ _ _ _ _ Hsrc Hsrc0) in Hw'.
  apply list_comp_process_inv in Hcomp as ((ext & Hext) & Hall & _).
  exists (mk_Batch (length (heap w2)) (S (length (heap w2))) (batch_size batch)), w', res.
  rewrite Hw'. simpl.
  split; [exact Hrun0|]. split; [done|]. split; [by apply list_lookup_middle|].
  split; [symmetry; by eapply Forall2_length|]. split; [|apply lookup_last2].
  intros i img r Hi Hr.
  destruct (Forall2_lookup_lr _ _ _ _ _ _ Hall Hi Hr) as (_ & a & Hsrc' & Hlook).
  exists a. split; [|by apply lookup_app_l_Some].
  rewrite Hext in Hsrc'. eapply image_source_back; [|exact Hsrc'].
  by eapply Forall_lookup_1.
Qed.

Lemma process_batch_positions_witness :
  exists b' w' res,
    process_batch ex_words ex_batch ex_world = Ok b' w' /\
    heap w' !! imgs b' = Some (ImgList (Some <$> res)) /\
    length res = 2%nat /\
    heap w' !! gt_texts b' = Some (StrList ["a"; "c"]%string).
Proof.
  destruct (process_batch_positions ex_words ex_batch ex_world
              [Some 0%nat; Some 1%nat] ["aab"; "ccd"]%string
              (Some 0%nat) (nd_map u8_to_float ex_img0)
              eq_refl eq_refl eq_refl ex_images_ok eq_refl)
    as (b' & w' & res & Hrun & _ & Himgs & Hlen & _ & Htexts).
  - exists (NdUint8 ex_img0). split; [reflexivity|]. split; [reflexivity|].
    split; simpl; lia.
  - exists b', w', res. split; [exact Hrun|]. split; [exact Himgs|].
    split; [exact Hlen|exact Htexts].
Defined.

(** X9: the constructor, completely.  It returns exactly when dynamic
    width and augmentation are not both on and there is no positive padding
    without dynamic width; zero and negative padding pass.  The preprocessor
    it returns holds the five arguments as given, and in every other case it
    raises AssertionError. *)
Theorem init_succeeds_iff sz pad dw da lm :
  (__init__ sz pad dw da lm = inr (mk_Preprocessor sz pad dw da lm) <->
   ~ (dw = true /\ da = true) /\ ~ (0 < pad /\ dw = false)) /\
  (__init__ sz pad dw da lm = inl AssertionError <->
   (dw = true /\ da = true) \/ (0 < pad /\ dw = false)) /\
  (forall r, __init__ sz pad dw da lm = r ->
             r = inl AssertionError \/ r = inr (mk_Preprocessor sz pad dw da lm)).
Proof.
  unfold __init__.
  destruct dw, da, (Z.ltb_spec 0 pad); simpl;
    (split; [|split; [|intros r <-; auto]]); split;
    try discriminate; try done;
    try (intros _; split; intros [? ?]; first [discriminate | lia]);
    try (intros [H1 H2]; exfalso; first [by apply H1 | by apply H2]);
    try (intros [[? ?]|[? ?]]; first [discriminate | lia]);
    try (intros _; first [by left | by right]).
Qed.

(** X10: the demo [main] raises nothing, whether the test image could be
    read or not: its configuration passes both assertions although it turns
    augmentation on, and [process_img] accepts a missing image as well as a
    uint8 one with cells, which is what [cv2.imread] gives for a file it can
    read. *)
Theorem main_returns img w :
  img = None \/
  (exists l a, img = Some l /\ heap w !! l = Some (NdUint8 a) /\ nonempty a) ->
  exists w', main img w = Ok tt w' /\
             forall k, (k < length (heap w))%nat -> heap w' !! k = heap w !! k.
Proof.
  intros Himg.
  assert (Hmain : main img w
    = (process_img (mk_Preprocessor (256, 32) 0 false true false) img ≫= fun _ => mret tt) w)
    by reflexivity.
  rewrite Hmain. clear Hmain. destruct Himg as [->|(l & a & -> & Hl & Hne)].
  - rewrite (bind_ok _ _ _ _ _ (process_img_none (mk_Preprocessor (256, 32) 0 false true false) w ltac:(simpl; lia) ltac:(simpl; lia))).
    eexists. split; [reflexivity|]. intros k Hk. simpl. by apply lookup_app_l.
  - rewrite (bind_ok _ _ _ _ _ (process_img_some _ l (NdUint8 a) _ w Hl eq_refl Hne)).
    eexists. split; [reflexivity|]. intros k Hk. simpl. by apply lookup_app_l.
Qed.

Lemma main_returns_witness : exists w', main None ex_world = Ok tt w'.
Proof.
  destruct (main_returns None ex_world) as (w' & Hrun & _).
  - left. reflexivity.
  - exists w'. exact Hrun.
Defined.

(** ** Line mode and missing images *)

Lemma wpx_conj {A} (m : M A) w (Q Q' : A -> world -> Prop) (E E' : exn -> world -> Prop) :
  wpx m w Q E -> wpx m w Q' E' ->
  wpx m w (fun a w' => Q a w' /\ Q' a w') (fun e w' => E e w' /\ E' e w').
Proof. unfold wpx. by destruct (m w). Qed.

Lemma cyclic_0 bs i : Z.of_nat i < bs -> cyclic bs i 0 = i.
Proof.
  intros Hi. unfold cyclic. rewrite Z.add_0_r, Z.mod_small by lia. apply Nat2Z.id.
Qed.

Lemma texts_selection (tl : list string) bs i :
  bs = Z.of_nat (length tl) -> (0 < length tl)%nat ->
  forall n k, exists texts,
    Forall2 (fun j t => tl !! cyclic bs i j = Some t) (seq k n) texts.
Proof.
  intros Hbs Hpos. induction n as [|n IH]; intros k.
  - exists []. constructor.
  - destruct (IH (S k)) as (texts & Ht).
    pose proof (cyclic_lt bs i k ltac:(lia)) as Hlt.
    destruct (lookup_lt_is_Some_2 tl (cyclic bs i k) ltac:(lia)) as [t Htk].
    exists (t :: texts). by constructor.
Qed.

(** One step of the selection loop on a list with missing images: it
    returns for a present word and raises AttributeError at a missing one,
    whose [shape] is read. *)
Lemma select_word_mixed self batch i nw il j st w :
  heap w !! imgs batch = Some (ImgList il) ->
  batch_size batch = Z.of_nat (length il) -> (0 < length il)%nat ->
  Forall (word_or_missing (heap w)) il ->
  wpx (select_word self batch i nw j st) w
    (fun _ w' => heap w' = heap w /\
                 exists r, il !! cyclic (batch_size batch) i j = Some (Some r))
    (fun e _ => e = AttributeError).
Proof.
  intros Himgs Hbs Hpos Hil. destruct st as [[[sel seps] h] wd].
  pose proof (cyclic_lt (batch_size batch) i j ltac:(lia)) as Hlt.
  destruct (lookup_lt_is_Some_2 il (cyclic (batch_size batch) i j) ltac:(lia)) as [x Hx].
  destruct (draw_sep_ok self w) as (sep & w1 & _ & Hw1 & Hdraw).
  unfold wpx, select_word.
  rewrite (bind_ok _ _ _ _ _ (list_getitem_img_ok _ _ _ _ _ Himgs Hx)).
  rewrite (bind_ok _ _ _ _ _ Hdraw).
  destruct (Forall_lookup_1 _ _ _ _ Hil Hx) as [->|(r & a & -> & Hr)].
  - by rewrite (bind_raise (shape_of None) _ w1 AttributeError w1 eq_refl).
  - erewrite bind_ok by (apply shape_of_uint8; rewrite Hw1; exact Hr).
    cbv beta iota zeta. destruct (_ <? _); simpl; eauto.
Qed.

Lemma select_loop_mixed self batch i nw il : forall idx st w,
  heap w !! imgs batch = Some (ImgList il) ->
  batch_size batch = Z.of_nat (length il) -> (0 < length il)%nat ->
  Forall (word_or_missing (heap w)) il ->
  wpx (for_each idx (select_word self batch i nw) st) w
    (fun _ w' => heap w' = heap w /\
       Forall (fun j => exists r, il !! cyclic (batch_size batch) i j = Some (Some r)) idx)
    (fun e _ => e = AttributeError).
Proof.
  induction idx as [|j idx IH]; intros st w Himgs Hbs Hpos Hil; simpl.
  - by apply wpx_ret.
  - apply wpx_bind.
    eapply wpx_mono; [by apply (select_word_mixed self batch i nw il j st w)| |done].
    intros st' w1 [Hw1 Hj]. cbv beta.
    eapply wpx_mono; [apply IH; rewrite ?Hw1; done| |done].
    intros st'' w2 [Hw2 Hall]. split; [congruence|by constructor].
Qed.

(** A line all of whose selected words are present uint8 images is
    synthesised without an exception. *)
Lemma simulate_line_returns self batch (h0 : list object) (il : list (option loc))
    (tl : list string) p q i w lp lq nw w1 texts (words : list (loc * ndarray Z)) :
  h0 !! imgs batch = Some (ImgList il) -> h0 !! gt_texts batch = Some (StrList tl) ->
  (if data_augmentation self then randint 1 8 else mret 5) w = Ok nw w1 ->
  heap w1 = heap w -> 1 <= nw <= 8 ->
  Forall2 (fun j t => tl !! cyclic (batch_size batch) i j = Some t)
          (seq 0 (Z.to_nat nw)) texts ->
  Forall2 (fun j ra => il !! cyclic (batch_size batch) i j = Some (Some ra.1) /\
                       h0 !! ra.1 = Some (NdUint8 ra.2))
          (seq 0 (Z.to_nat nw)) words ->
  (forall l, (l < length h0)%nat -> heap w !! l = h0 !! l) ->
  (length h0 <= p)%nat -> (length h0 <= q)%nat -> p <> q ->
  heap w !! p = Some (ImgList lp) -> heap w !! q = Some (StrList lq) ->
  wpx (simulate_line self batch p q i) w (fun _ _ => True) (fun _ _ => False).
Proof.
  intros Hil Htl Hdraw Hw1 Hnw' Htexts Hwords Hagree Hp0 Hq0 Hpq Hp Hq.
  assert (Hpl : (p < length (heap w))%nat) by by eapply lookup_lt_Some.
  assert (Hql : (q < length (heap w))%nat) by by eapply lookup_lt_Some.
  assert (Hold : forall l o, h0 !! l = Some o ->
            (l < length h0)%nat /\ heap w !! l = Some o).
  { intros l o Hl. assert (l < length h0)%nat by by eapply lookup_lt_Some.
    split; [done|]. by rewrite Hagree. }
  assert (Hlw : length words = Z.to_nat nw).
  { apply Forall2_length in Hwords. by rewrite length_seq in Hwords. }
  set (h3 := <[q := StrList (lq ++ [String.concat " " texts])]> (heap w)).
  assert (Hlen3 : length h3 = length (heap w)) by apply length_insert.
  assert (Hold3 : forall l o, h0 !! l = Some o -> h3 !! l = Some o).
  { intros l o Hl. destruct (Hold _ _ Hl). unfold h3. rewrite list_lookup_insert_ne by lia. done. }
  unfold wpx, simulate_line.
  rewrite (bind_ok _ _ _ _ _ Hdraw).
  erewrite bind_ok; cycle 1.
  { unfold range.
    apply (list_comp_getitem_str_ok _ tl (cyclic (batch_size batch) i)); [|exact Htexts].
    rewrite Hw1. by apply Hold. }
  cbv beta zeta.
  erewrite bind_ok; cycle 1.
  { apply list_append_str_ok. rewrite Hw1. exact Hq. }
  rewrite Hw1. fold h3.
  destruct (select_loop_ok self batch i nw il words 0 [] [0] 0 0 (set_heap w1 h3))
    as (ss & w4 & Hsel & Hw4 & Hlss & Hvalid).
  { simpl. by apply Hold3. }
  { rewrite Hlw. eapply Forall2_impl; [|exact Hwords].
    intros j [r a] (Hj & Hr). simpl in *. split; [done|]. by apply Hold3. }
  { lia. }
  { lia. }
  unfold select_words, range. rewrite <- Hlw, (bind_ok _ _ _ _ _ Hsel).
  cbv beta iota zeta. simpl in Hw4.
  pose proof (Zsum_nonneg _ (valid_sep_nonneg _ _ Hvalid)) as Hss.
  set (hh := Z.max 0 (Z.of_nat (max_list_with (fun ra : loc * ndarray Z => shape0 ra.2) words))).
  set (ww := 0 + Z.of_nat (sum_list_with (fun ra : loc * ndarray Z => shape1 ra.2) words) + Zsum ss).
  rewrite (bind_ok _ _ _ _ _ (np_ones_uint8_ok hh ww _ ltac:(lia) ltac:(lia))).
  erewrite bind_ok; cycle 1.
  { apply nd_mul_uint8_ok. simpl. apply lookup_last. }
  simpl length. rewrite Hw4, length_app, Hlen3. simpl length.
  set (o1 := NdUint8 (nd_full (Z.to_nat hh) (Z.to_nat ww) 1)).
  set (c0 := nd_map (fun v => uint8 (v * 255)) (nd_full (Z.to_nat hh) (Z.to_nat ww) 1)).
  set (target := (length (heap w) + 1)%nat).
  set (w6 := set_heap (set_heap w4 (h3 ++ [o1]))
               (heap (set_heap w4 (h3 ++ [o1])) ++ [NdUint8 c0])).
  change ([] ++ ((fun ra : loc * ndarray Z => Some ra.1) <$> words))
    with ((fun ra : loc * ndarray Z => Some ra.1) <$> words).
  change ([0] ++ ss) with (0 :: ss).
  assert (Ht6 : heap w6 !! target = Some (NdUint8 c0)).
  { simpl. unfold target. rewrite <- Hlen3.
    replace (length h3 + 1)%nat with (length (h3 ++ [o1])) by (rewrite length_app; simpl; lia).
    apply lookup_last. }
  destruct (paste_loop_ok target hh words (0 :: ss) 0 w6 c0) as
    (c & xe & Hpaste & _).
  { exact Ht6. }
  { simpl. unfold hh. lia. }
  { simpl. lia. }
  { apply Forall_lookup. intros k [r a] Hk.
    destruct (Forall2_lookup_r _ _ _ _ _ Hwords Hk) as (j & _ & _ & Hr).
    simpl in Hr. destruct (Hold _ _ Hr) as [Hlt _]. simpl. split; [|split].
    - rewrite <- app_assoc. apply lookup_app_l_Some. by apply Hold3.
    - unfold target. lia.
    - pose proof (max_list_with_ge (fun ra : loc * ndarray Z => shape0 ra.2) words (r, a)
                    ltac:(by eapply list_elem_of_lookup_2)).
      simpl in *. unfold hh. lia. }
  { constructor; [lia|]. by apply valid_sep_nonneg in Hvalid. }
  { lia. }
  { simpl. unfold ww. lia. }
  unfold paste_words. rewrite (bind_ok _ _ _ _ _ Hpaste).
  assert (Hh7 : <[target := NdUint8 c]> ((h3 ++ [o1]) ++ [NdUint8 c0])
                = h3 ++ [o1; NdUint8 c]).
  { unfold target. rewrite <- Hlen3, <- app_assoc. simpl.
    by rewrite insert_app_r. }
  erewrite list_append_img_ok; [done|].
  subst w6. cbn [heap set_heap]. rewrite Hh7. apply lookup_app_l_Some. unfold h3.
  rewrite list_lookup_insert_ne by done. exact Hp.
Qed.

(** One line on a batch with missing images: it is synthesised when every
    word it selects is present, word [i] among them, and the first missing
    word it selects raises AttributeError. *)
Lemma simulate_line_mixed self batch (h0 : list object) (il : list (option loc))
    (tl : list string) p q i w lp lq :
  h0 !! imgs batch = Some (ImgList il) -> h0 !! gt_texts batch = Some (StrList tl) ->
  Forall (word_or_missing h0) il ->
  batch_size batch = Z.of_nat (length il) -> length tl = length il ->
  (i < length il)%nat ->
  (forall l, (l < length h0)%nat -> heap w !! l = h0 !! l) ->
  (length h0 <= p)%nat -> (length h0 <= q)%nat -> p <> q ->
  heap w !! p = Some (ImgList lp) -> heap w !! q = Some (StrList lq) ->
  wpx (simulate_line self batch p q i) w
    (fun _ w' => line_post (fun k _ _ => exists r, il !! k = Some (Some r)) p q i lp lq w w')
    (fun e _ => e = AttributeError).
Proof.
  intros Hil Htl Hwords Hbs Hlen Hi Hagree Hp0 Hq0 Hpq Hp Hq.
  assert (Hpl : (p < length (heap w))%nat) by by eapply lookup_lt_Some.
  assert (Hql : (q < length (heap w))%nat) by by eapply lookup_lt_Some.
  assert (Hold : forall l o, h0 !! l = Some o ->
            (l < length h0)%nat /\ heap w !! l = Some o).
  { intros l o Hl. assert (l < length h0)%nat by by eapply lookup_lt_Some.
    split; [done|]. by rewrite Hagree. }
  destruct (draw_num_words_ok self w) as (nw & w1 & Hnw & Hw1 & Hdraw).
  assert (Hnw' : 1 <= nw <= 8).
  { unfold valid_num_words in Hnw. destruct (data_augmentation self); lia. }
  destruct (texts_selection tl (batch_size batch) i ltac:(lia) ltac:(lia) (Z.to_nat nw) 0%nat)
    as (texts & Htexts).
  set (h3 := <[q := StrList (lq ++ [String.concat " " texts])]> (heap w)).
  assert (Hold3 : forall l o, h0 !! l = Some o -> h3 !! l = Some o).
  { intros l o Hl. destruct (Hold _ _ Hl). unfold h3. rewrite list_lookup_insert_ne by lia. done. }
  pose proof (select_loop_mixed self batch i nw il (seq 0 (Z.to_nat nw)) ([], [0], 0, 0)
                (set_heap w1 h3)) as Hsel.
  unfold wpx in Hsel.
  destruct (for_each (seq 0 (Z.to_nat nw)) (select_word self batch i nw) ([], [0], 0, 0)
              (set_heap w1 h3)) as [st w4|e w4] eqn:Hrun.
  - destruct Hsel as [_ Hall]; [by apply Hold3|done|lia| |].
    { eapply Forall_impl; [|exact Hwords]. intros x [->|(r & a & -> & Hr)]; [by left|].
      right. exists r, a. split; [done|]. by apply Hold3. }
    destruct (Forall_exists_Forall2
                (fun j (ra : loc * ndarray Z) =>
                   il !! cyclic (batch_size batch) i j = Some (Some ra.1) /\
                   h0 !! ra.1 = Some (NdUint8 ra.2)) (seq 0 (Z.to_nat nw)))
      as (words & Hsome).
    { eapply Forall_impl; [|exact Hall]. intros j [r Hj].
      destruct (Forall_lookup_1 _ _ _ _ Hwords Hj) as [?|(r' & a & [= <-] & Hr)]; [done|].
      by exists (r, a). }
    eapply wpx_mono;
      [exact (wpx_conj _ _ _ _ _ _
                (simulate_line_post self batch p q i w lp lq Hp Hq Hpq)
                (simulate_line_returns self batch h0 il tl p q i w lp lq nw w1 texts words
                   Hil Htl Hdraw Hw1 Hnw' Htexts Hsome Hagree Hp0 Hq0 Hpq Hp Hq))| |].
    + intros u w' [(t & tr & c & H1 & H2 & H3 & H4 & H5) _].
      exists t, tr, c. repeat (split; [done|]).
      assert (H0 : (0 < Z.to_nat nw)%nat) by lia.
      destruct (Z.to_nat nw) as [|n]; [lia|]. simpl in Hall.
      apply Forall_cons_1 in Hall as [[r Hr] _].
      rewrite cyclic_0 in Hr by lia. by exists r.
    + by intros e w' [_ ?].
  - assert (e = AttributeError) as ->.
    { apply Hsel; [by apply Hold3|done|lia|].
      eapply Forall_impl; [|exact Hwords]. intros x [->|(r & a & -> & Hr)]; [by left|].
      right. exists r, a. split; [done|]. by apply Hold3. }
    unfold wpx, simulate_line.
    rewrite (bind_ok _ _ _ _ _ Hdraw).
    erewrite bind_ok; cycle 1.
    { unfold range.
      apply (list_comp_getitem_str_ok _ tl (cyclic (batch_size batch) i)); [|exact Htexts].
      rewrite Hw1. by apply Hold. }
    cbv beta zeta.
    erewrite bind_ok; cycle 1.
    { apply list_append_str_ok. rewrite Hw1. exact Hq. }
    rewrite Hw1. fold h3. unfold select_words, range.
    by rewrite (bind_raise _ _ _ _ _ Hrun).
Qed.

(** X11: in line mode a missing image is not replaced by the black canvas.
    On a batch of consistent sizes whose images are uint8 arrays except that
    at least one is None, [process_batch] raises AttributeError, whatever the
    random source draws: line [k] selects word [k], whose [shape] the
    synthesiser reads before [process_img] is reached. *)
Theorem process_batch_missing_word self batch w
    (il : list (option loc)) (tl : list string) (k : nat) :
  line_mode self = true ->
  heap w !! imgs batch = Some (ImgList il) ->
  heap w !! gt_texts batch = Some (StrList tl) ->
  Forall (word_or_missing (heap w)) il ->
  batch_size batch = Z.of_nat (length il) -> length tl = length il ->
  il !! k = Some None ->
  exists w', process_batch self batch w = Raise AttributeError w'.
Proof.
  intros Hmode Himgs Htexts Hwords Hbs Hlen Hk.
  assert (Hkl : (k < length il)%nat) by by eapply lookup_lt_Some.
  set (p := length (heap w)). set (q := S (length (heap w))).
  set (w2 := set_heap (set_heap w (heap w ++ [ImgList []]))
               ((heap w ++ [ImgList []]) ++ [StrList []])).
  assert (Hloop : wpx (for_each (seq 0 (length il))
                         (fun i (_ : unit) => simulate_line self batch p q i) tt) w2
            (fun _ w' => (forall l, (l < length (heap w))%nat -> heap w' !! l = heap w !! l) /\
               lines_done (fun k _ _ => exists r, il !! k = Some (Some r)) p q
                 (0 + length il) (heap w'))
            (fun e _ => e = AttributeError)).
  { apply (simulate_lines_gen self batch p q _ _ (length (heap w)) (length il) (heap w)).
    - unfold p, q. lia.
    - unfold p. lia.
    - unfold q. lia.
    - intros i w' lp lq Hi Hagree Hp Hq.
      apply (simulate_line_mixed self batch (heap w) il tl); try done;
        unfold p, q; lia.
    - lia.
    - intros l Hl. simpl. rewrite <- app_assoc. by apply lookup_app_l.
    - exists [], []. simpl. split; [|split; [|done]].
      + rewrite <- app_assoc. by apply list_lookup_middle.
      + unfold q. replace (S (length (heap w))) with (length (heap w ++ [ImgList []]))
          by (rewrite length_app; simpl; lia).
        apply lookup_last. }
  unfold wpx in Hloop.
  destruct (for_each (seq 0 (length il))
              (fun i (_ : unit) => simulate_line self batch p q i) tt w2)
    as [u w'|e w'] eqn:Hrun.
  - destruct Hloop as (_ & canv & txts & _ & _ & Hlc & _ & Hall).
    destruct (lookup_lt_is_Some_2 canv k ltac:(lia)) as [t Ht].
    destruct (Hall _ _ Ht) as (_ & _ & c & tr & _ & _ & r & Hr). congruence.
  - subst e. exists w'.
    rewrite process_batch_unfold, Hmode.
    apply bind_raise. unfold _simulate_text_line.
    rewrite (bind_ok _ _ _ _ _ (alloc_ok _ _)).
    rewrite (bind_ok _ _ _ _ _ (alloc_ok _ _)).
    cbn [heap set_heap]. rewrite length_app. simpl length.
    replace (length (heap w) + 1)%nat with q by (unfold q; lia).
    unfold range. rewrite Hbs, Nat2Z.id. fold p. fold w2.
    by rewrite (bind_raise _ _ _ _ _ Hrun).
Qed.

(** ** Augmented lines, and line mode end to end *)

Lemma Zsum_bounds lo hi ss :
  Forall (fun s => lo <= s <= hi) ss ->
  lo * Z.of_nat (length ss) <= Zsum ss <= hi * Z.of_nat (length ss).
Proof. induction 1 as [|s ss Hs _ IH]; simpl; lia. Qed.

(** X12: with data augmentation, whatever the random source draws, line [i]
    of a batch of present uint8 word images is made of between 1 and 8 words,
    the samples at the cyclic indices from [i] on, so that word [i] always
    comes first; the transcript joins their texts with one space; between two
    words there is a gap of 20 to 50 columns, none before the first; the
    canvas is as high as the highest word and as wide as the words and the
    gaps together, holds each word in its window and 255 elsewhere. *)
Theorem simulate_text_line_augmented self batch w
    (il : list (option loc)) (tl : list string) (arrs : list (ndarray Z)) :
  data_augmentation self = true ->
  heap w !! imgs batch = Some (ImgList il) ->
  heap w !! gt_texts batch = Some (StrList tl) ->
  Forall2 (fun x a => exists r, x = Some r /\ heap w !! r = Some (NdUint8 a)) il arrs ->
  batch_size batch = Z.of_nat (length il) -> length tl = length il ->
  exists mid w1 canv txts,
    _simulate_text_line self batch w = Ok mid w1 /\
    batch_size mid = batch_size batch /\
    heap w1 !! imgs mid = Some (ImgList (Some <$> canv)) /\
    heap w1 !! gt_texts mid = Some (StrList txts) /\
    length canv = length il /\ length txts = length il /\
    forall i, (i < length il)%nat ->
      exists t c texts words ss,
        canv !! i = Some t /\ heap w1 !! t = Some (NdUint8 c) /\
        (1 <= length words <= 8)%nat /\ words !! 0%nat = arrs !! i /\
        Forall2 (fun j tx => tl !! cyclic (batch_size batch) i j = Some tx)
                (seq 0 (length words)) texts /\
        Forall2 (fun j a => arrs !! cyclic (batch_size batch) i j = Some a)
                (seq 0 (length words)) words /\
        txts !! i = Some (String.concat " " texts) /\
        length ss = (length words - 1)%nat /\ Forall (fun s => 20 <= s <= 50) ss /\
        canvas_of words (0 :: ss) c /\
        Z.of_nat (sum_list_with shape1 words) + 20 * Z.of_nat (length words - 1)
          <= Z.of_nat (shape1 c)
          <= Z.of_nat (sum_list_with shape1 words) + 50 * Z.of_nat (length words - 1).
Proof.
  intros Haug Himgs Htexts Harr Hbs Hlen.
  destruct (simulate_text_line_ok self batch w il tl arrs Himgs Htexts Harr Hbs Hlen)
    as (w1 & Hsim & _ & canv & txts & Hp & Hq & Hlc & Hlt & Hall).
  eexists _, w1, canv, txts. split; [exact Hsim|]. simpl.
  split; [done|]. split; [done|]. split; [done|]. split; [done|]. split; [done|].
  intros i Hi.
  destruct (lookup_lt_is_Some_2 canv i ltac:(lia)) as [t Ht].
  destruct (Hall i t Ht) as (_ & _ & c & tr & Hc & Htr & Hline).
  destruct Hline as (nw & texts & words & ss & Hnw & Htx & Hws & Hlss & Hss & -> & Hcanvas).
  unfold valid_num_words in Hnw. rewrite Haug in Hnw.
  assert (Hss' : Forall (fun s => 20 <= s <= 50) ss).
  { eapply Forall_impl; [|exact Hss]. intros s Hs. unfold valid_sep in Hs.
    by rewrite Haug in Hs. }
  assert (Hlw : length words = Z.to_nat nw).
  { apply Forall2_length in Hws. by rewrite length_seq in Hws. }
  exists t, c, texts, words, ss. rewrite Hlw.
  split; [done|]. split; [done|]. split; [lia|]. split.
  { destruct (Z.to_nat nw) as [|n] eqn:Hn; [lia|]. simpl in Hws.
    inversion Hws as [|? a0 ? ? H0 _]; subst. simpl.
    by rewrite <- H0, cyclic_0 by lia. }
  split; [done|]. split; [done|]. split; [done|]. split; [done|]. split; [done|].
  split; [done|].
  destruct Hcanvas as (_ & Hwd & _). simpl in Hwd.
  pose proof (Zsum_bounds 20 50 ss Hss') as Hb. rewrite Hlss in Hb. lia.
Qed.

Lemma simulate_text_line_augmented_witness :
  exists mid w1 canv,
    _simulate_text_line (mk_Preprocessor (8, 4) 0 false true true) ex_batch ex_world
    = Ok mid w1 /\
    heap w1 !! imgs mid = Some (ImgList (Some <$> canv)) /\ length canv = 2%nat.
Proof.
  destruct (simulate_text_line_augmented (mk_Preprocessor (8, 4) 0 false true true)
              ex_batch ex_world
              [Some 0%nat; Some 1%nat] ["aab"; "ccd"]%string [ex_img0; ex_img1])
    as (mid & w1 & canv & txts & Hrun & _ & Hp & _ & Hlc & _).
  - reflexivity.
  - reflexivity.
  - reflexivity.
  - constructor; [exists 0%nat; split; reflexivity|].
    constructor; [exists 1%nat; split; reflexivity|]. constructor.
  - reflexivity.
  - reflexivity.
  - exists mid, w1, canv. split; [exact Hrun|]. split; [exact Hp|exact Hlc].
Defined.

(** X13: [process_batch] in line mode without augmentation, end to end, on
    a non-empty batch of present uint8 word images in which every line
    selects a word of positive height (so that its canvas has cells): output
    image [i] is the normalised (transposed, [v / 255 - 0.5]) canvas of line
    [i], the line of the 5 samples from [i] on; output text [i] is the
    transcript of line [i], truncated; and the one cap is a quarter of the
    width of line 0, that is of the widths of the first 5 selected words plus
    120. *)
Theorem process_batch_line_mode self batch w
    (il : list (option loc)) (tl : list string) (arrs : list (ndarray Z)) :
  line_mode self = true -> data_augmentation self = false ->
  heap w !! imgs batch = Some (ImgList il) ->
  heap w !! gt_texts batch = Some (StrList tl) ->
  Forall2 (fun x a => exists r, x = Some r /\ heap w !! r = Some (NdUint8 a)) il arrs ->
  batch_size batch = Z.of_nat (length il) -> length tl = length il ->
  il <> [] ->
  (forall i, (i < length il)%nat ->
     exists j a, (j < 5)%nat /\ arrs !! cyclic (batch_size batch) i j = Some a /\
                 (0 < shape0 a)%nat) ->
  exists b' w' res out cap,
    process_batch self batch w = Ok b' w' /\
    batch_size b' = batch_size batch /\
    heap w' !! imgs b' = Some (ImgList (Some <$> res)) /\
    heap w' !! gt_texts b' = Some (StrList out) /\
    length res = length il /\ length out = length il /\
    (exists words0,
       Forall2 (fun j a => arrs !! cyclic (batch_size batch) 0 j = Some a) (seq 0 5) words0 /\
       cap = (Z.of_nat (sum_list_with shape1 words0) + 120) `div` 4) /\
    forall i, (i < length il)%nat ->
      exists r c texts words,
        res !! i = Some r /\
        Forall2 (fun j tx => tl !! cyclic (batch_size batch) i j = Some tx) (seq 0 5) texts /\
        Forall2 (fun j a => arrs !! cyclic (batch_size batch) i j = Some a) (seq 0 5) words /\
        fixed_line words c /\
        heap w' !! r = Some (NdFloat64 (normalized (nd_map u8_to_float c))) /\
        out !! i = Some (_truncate_label (String.concat " " texts) cap).
Proof.
  intros Hmode Haug Himgs Htexts Harr Hbs Hlen Hne Hhigh.
  destruct (simulate_text_line_ok self batch w il tl arrs Himgs Htexts Harr Hbs Hlen)
    as (w1 & Hsim & _ & canv & txts & Hp & Hq & Hlc & Hlt & Hall).
  set (mid := mk_Batch (length (heap w)) (S (length (heap w))) (batch_size batch)) in *.
  assert (Hlines : forall i t, canv !! i = Some t ->
            exists c texts words,
              heap w1 !! t = Some (NdUint8 c) /\
              Forall2 (fun j tx => tl !! cyclic (batch_size batch) i j = Some tx)
                      (seq 0 5) texts /\
              Forall2 (fun j a => arrs !! cyclic (batch_size batch) i j = Some a)
                      (seq 0 5) words /\
              txts !! i = Some (String.concat " " texts) /\ fixed_line words c /\
              nonempty c).
  { intros i t Ht. destruct (Hall i t Ht) as (_ & _ & c & tr & Hc & Htr & Hline).
    apply line_of_fixed in Hline as (texts & words & Htx & Hws & -> & Hfixed); [|done].
    exists c, texts, words. repeat (split; [done|]).
    assert (Hi : (i < length il)%nat) by (apply lookup_lt_Some in Ht; lia).
    destruct (Hhigh i Hi) as (j & a & Hj & Ha & Hpos).
    assert (Hjs : seq 0 5 !! j = Some j) by (by apply lookup_seq).
    destruct (Forall2_lookup_l _ _ _ _ _ Hws Hjs) as (a' & Ha' & Hlook).
    rewrite Ha in Hlook. injection Hlook as <-.
    pose proof (max_list_with_ge shape0 words a ltac:(by eapply list_elem_of_lookup_2)).
    destruct Hfixed as (_ & Hc0 & Hc1 & _). split; lia. }
  assert (Hok : Forall (fun img => exists a, image_source self (heap w1) img a)
                  (Some <$> canv)).
  { apply Forall_fmap, Forall_lookup. intros i t Hi.
    destruct (Hlines i t Hi) as (c & _ & _ & Hc & _ & _ & _ & _ & Hnec).
    exists (nd_map u8_to_float c), (NdUint8 c). done. }
  destruct (list_comp_process_ok self _ w1 Hok) as (res & w2 & Hcomp).
  pose proof (normalize_batch_run self mid w1 _ _ _ _ Hp Hq Hcomp) as Hrun.
  pose proof (list_comp_process_inv _ _ _ _ _ Hcomp) as ((ext & Hext) & Hres & _).
  destruct canv as [|t0 canv']; [destruct il; [done|simpl in Hlc; lia]|].
  destruct Hrun as (r0 & src & _ & (o0 & Ho0 & Hsrc & _) & _ & Hrun).
  destruct (Hlines 0%nat t0 eq_refl) as (c0 & _ & words0 & Hc0 & _ & Hws0 & _ & Hfix0 & _).
  rewrite Hc0 in Ho0. injection Ho0 as <-. injection Hsrc as <-.
  rewrite (line_stage_run self batch w mid w1) by (unfold line_stage; by rewrite Hmode).
  eexists _, _, res, _, (Z.of_nat (shape1 c0) `div` 4). split; [exact Hrun|]. cbn [heap set_heap batch_size imgs gt_texts mid].
  split; [done|]. split; [by apply list_lookup_middle|]. split; [apply lookup_last2|].
  assert (Hlr : length res = length il).
  { apply Forall2_length in Hres. rewrite length_fmap in Hres. lia. }
  split; [done|]. split; [rewrite length_fmap; lia|]. split.
  { exists words0. split; [done|]. destruct Hfix0 as (_ & _ & Hwd & _).
    rewrite Hwd. f_equal. lia. }
  intros i Hi.
  destruct (lookup_lt_is_Some_2 (t0 :: canv') i ltac:(lia)) as [t Ht].
  destruct (Hlines i t Ht) as (c & texts & words & Hc & Htx & Hws & Htr & Hfix & _).
  assert (Hit : (Some <$> t0 :: canv') !! i = Some (Some t)) by by rewrite list_lookup_fmap, Ht.
  destruct (Forall2_lookup_l _ _ _ _ _ Hres Hit)
    as (r & Hr & _ & a & (o & Ho & Ha & _) & Hlook).
  rewrite Hext, (lookup_app_l_Some _ _ _ _ Hc) in Ho. injection Ho as <-.
  injection Ha as <-.
  exists r, c, texts, words. split; [done|]. split; [done|]. split; [done|].
  split; [done|]. split; [by apply lookup_app_l_Some|].
  by rewrite list_lookup_fmap, Htr.
Qed.

Lemma process_batch_line_mode_witness :
  exists b' w' res,
    process_batch ex_lines ex_batch ex_world = Ok b' w' /\
    heap w' !! imgs b' = Some (ImgList (Some <$> res)) /\ length res = 2%nat.
Proof.
  destruct (process_batch_line_mode ex_lines ex_batch ex_world
              [Some 0%nat; Some 1%nat] ["aab"; "ccd"]%string [ex_img0; ex_img1])
    as (b' & w' & res & out & cap & Hrun & _ & Hp & _ & Hlr & _).
  - reflexivity.
  - reflexivity.
  - reflexivity.
  - reflexivity.
  - constructor; [exists 0%nat; split; reflexivity|].
    constructor; [exists 1%nat; split; reflexivity|]. constructor.
  - reflexivity.
  - reflexivity.
  - discriminate.
  - intros i Hi. destruct i as [|[|i]].
    + exists 0%nat, ex_img0. split; [lia|]. split; [reflexivity|simpl; lia].
    + exists 0%nat, ex_img1. split; [lia|]. split; [reflexivity|simpl; lia].
    + simpl in Hi. lia.
  - exists b', w', res. split; [exact Hrun|]. split; [exact Hp|exact Hlr].
Defined.

(** ** Randomness and unused options *)

Lemma ir_ret {A} (a : A) : ignores_random (mret a).
Proof. done. Qed.

Lemma ir_raise {A} e : ignores_random (@raise A e).
Proof. done. Qed.

Lemma ir_bind {A B} (m : M A) (f : A -> M B) :
  ignores_random m -> (forall a, ignores_random (f a)) -> ignores_random (m ≫= f).
Proof.
  intros Hm Hf w t d. cbv [mbind M_bind]. rewrite Hm.
  destruct (m w) as [a w1|e w1]; simpl; [apply Hf|done].
Qed.

Lemma ir_alloc o : ignores_random (alloc o).
Proof. done. Qed.

Lemma ir_load l : ignores_random (load l).
Proof. intros w t d. unfold load. simpl. by destruct (heap w !! l). Qed.

Lemma ir_store l o : ignores_random (store l o).
Proof. done. Qed.

Lemma ir_for_each {A S} (xs : list A) (body : A -> S -> M S) :
  (forall x s, ignores_random (body x s)) -> forall s, ignores_random (for_each xs body s).
Proof.
  intros Hbody. induction xs as [|x xs IH]; intros s; simpl.
  - apply ir_ret.
  - apply ir_bind; [apply Hbody|apply IH].
Qed.

Lemma ir_list_comp {A B} (xs : list A) (f : A -> M B) :
  (forall x, ignores_random (f x)) -> ignores_random (list_comp xs f).
Proof.
  intros Hf. induction xs as [|x xs IH]; simpl.
  - apply ir_ret.
  - apply ir_bind; [apply Hf|]. intros y.
    apply ir_bind; [apply IH|]. intros ys. apply ir_ret.
Qed.

Lemma ir_list_items_img l : ignores_random (list_items_img l).
Proof.
  apply ir_bind; [apply ir_load|].
  intros []; first [apply ir_ret | apply ir_raise].
Qed.

Lemma ir_list_items_str l : ignores_random (list_items_str l).
Proof.
  apply ir_bind; [apply ir_load|].
  intros []; first [apply ir_ret | apply ir_raise].
Qed.

Lemma ir_list_getitem_img l k : ignores_random (list_getitem_img l k).
Proof.
  apply ir_bind; [apply ir_list_items_img|].
  intros xs. destruct (xs !! k); first [apply ir_ret | apply ir_raise].
Qed.

Lemma ir_list_getitem_str l k : ignores_random (list_getitem_str l k).
Proof.
  apply ir_bind; [apply ir_list_items_str|].
  intros xs. destruct (xs !! k); first [apply ir_ret | apply ir_raise].
Qed.

Lemma ir_list_append_img l x : ignores_random (list_append_img l x).
Proof. apply ir_bind; [apply ir_list_items_img|]. intros xs. apply ir_store. Qed.

Lemma ir_list_append_str l x : ignores_random (list_append_str l x).
Proof. apply ir_bind; [apply ir_list_items_str|]. intros xs. apply ir_store. Qed.

Lemma ir_shape_of img : ignores_random (shape_of img).
Proof.
  destruct img; [|apply ir_raise].
  apply ir_bind; [apply ir_load|].
  intros []; first [apply ir_ret | apply ir_raise].
Qed.

Lemma ir_np_ones_uint8 h wd : ignores_random (np_ones_uint8 h wd).
Proof. unfold np_ones_uint8. case_match; [apply ir_raise|apply ir_alloc]. Qed.

Lemma ir_np_zeros h wd : ignores_random (np_zeros h wd).
Proof. unfold np_zeros. case_match; [apply ir_raise|apply ir_alloc]. Qed.

Lemma ir_nd_mul_uint8 l k : ignores_random (nd_mul_uint8 l k).
Proof.
  apply ir_bind; [apply ir_load|].
  intros []; first [apply ir_alloc | apply ir_raise].
Qed.

Lemma ir_setitem_window target y y2 x x2 src :
  ignores_random (setitem_window target y y2 x x2 src).
Proof.
  destruct src; [|apply ir_raise].
  apply ir_bind; [apply ir_load|]. intros so.
  apply ir_bind; [apply ir_load|]. intros tobj.
  destruct tobj, so; try apply ir_raise.
  case_match; [apply ir_store|apply ir_raise].
Qed.

Lemma ir_astype_float l : ignores_random (astype_float l).
Proof.
  apply ir_bind; [apply ir_load|].
  intros []; first [apply ir_alloc | apply ir_raise].
Qed.

Lemma ir_float_op f l : ignores_random (float_op f l).
Proof.
  apply ir_bind; [apply ir_load|].
  intros []; first [apply ir_alloc | apply ir_raise].
Qed.

Lemma ir_cv2_transpose l : ignores_random (cv2_transpose l).
Proof.
  apply ir_bind; [apply ir_load|].
  intros []; try apply ir_raise.
  case_match; [apply ir_ret|].
  apply ir_bind; [apply ir_alloc|]. intros r. apply ir_ret.
Qed.

Lemma ir_nd_truediv img k : ignores_random (nd_truediv img k).
Proof. destruct img; [apply ir_float_op|apply ir_raise]. Qed.

Lemma ir_process_img self img : ignores_random (process_img self img).
Proof.
  unfold process_img. apply ir_bind.
  { destruct img; [apply ir_ret|apply ir_np_zeros]. }
  intros l. apply ir_bind; [apply ir_astype_float|]. intros l1.
  apply ir_bind; [apply ir_cv2_transpose|]. intros l2.
  apply ir_bind; [apply ir_nd_truediv|]. intros l3. apply ir_float_op.
Qed.

Lemma ir_paste_words target h sel seps : ignores_random (paste_words target h sel seps).
Proof.
  unfold paste_words. apply ir_for_each. intros [img sep] x.
  apply ir_bind; [apply ir_shape_of|]. intros [s0 s1].
  apply ir_bind; [apply ir_setitem_window|]. intros _. apply ir_ret.
Qed.

Lemma ir_simulate_text_line self batch :
  data_augmentation self = false -> ignores_random (_simulate_text_line self batch).
Proof.
  intros Haug. unfold _simulate_text_line.
  apply ir_bind; [apply ir_alloc|]. intros p.
  apply ir_bind; [apply ir_alloc|]. intros q.
  apply ir_bind; [|intros _; apply ir_ret].
  apply ir_for_each. intros i []. unfold simulate_line. rewrite Haug.
  apply ir_bind; [apply ir_ret|]. intros nw.
  apply ir_bind; [apply ir_list_comp; intros j; apply ir_list_getitem_str|]. intros words.
  apply ir_bind; [apply ir_list_append_str|]. intros _.
  apply ir_bind.
  { unfold select_words. apply ir_for_each. intros j [[[sel seps] h] wd].
    unfold select_word. rewrite Haug.
    apply ir_bind; [apply ir_list_getitem_img|]. intros img.
    apply ir_bind; [apply ir_ret|]. intros sep.
    apply ir_bind; [apply ir_shape_of|]. intros [s0 s1].
    case_match; apply ir_ret. }
  intros [[[sel seps] h] wd].
  apply ir_bind; [apply ir_np_ones_uint8|]. intros ones.
  apply ir_bind; [apply ir_nd_mul_uint8|]. intros target.
  apply ir_bind; [apply ir_paste_words|]. intros _.
  apply ir_list_append_img.
Qed.

Lemma retape_same w : retape (tape w) (drawn w) w = w.
Proof. by destruct w. Qed.

(** X14: randomness is used by augmented line synthesis only.  Without
    data augmentation, or without line mode, [process_batch] neither reads
    nor advances the random source: run with any other source it returns the
    same batch, or raises the same exception, with the same store, and the
    source is afterwards where it was. *)
Theorem process_batch_ignores_random self batch w :
  data_augmentation self = false \/ line_mode self = false ->
  (forall t d, process_batch self batch (retape t d w)
               = outcome_retape t d (process_batch self batch w)) /\
  tape (final (process_batch self batch w)) = tape w /\
  drawn (final (process_batch self batch w)) = drawn w.
Proof.
  intros Hcfg.
  assert (Hir : ignores_random (process_batch self batch)).
  { unfold process_batch. apply ir_bind.
    { destruct (line_mode self) eqn:Hmode; [|apply ir_ret].
      apply ir_simulate_text_line. by destruct Hcfg. }
    intros b. apply ir_bind; [apply ir_list_items_img|]. intros items.
    apply ir_bind; [apply ir_list_comp; intros img; apply ir_process_img|]. intros res.
    apply ir_bind; [apply ir_alloc|]. intros p.
    apply ir_bind; [apply ir_list_getitem_img|]. intros img0.
    apply ir_bind; [apply ir_shape_of|]. intros [s0 s1].
    apply ir_bind; [apply ir_list_items_str|]. intros texts.
    apply ir_bind; [apply ir_alloc|]. intros q. apply ir_ret. }
  split; [intros t d; apply Hir|].
  pose proof (Hir w (tape w) (drawn w)) as Hsame. rewrite retape_same in Hsame.
  rewrite Hsame. by destruct (process_batch self batch w).
Qed.

Lemma process_batch_ignores_random_witness :
  process_batch ex_lines ex_batch (retape (fun _ => 7) 3 ex_world)
  = outcome_retape (fun _ => 7) 3 (process_batch ex_lines ex_batch ex_world).
Proof.
  destruct (process_batch_ignores_random ex_lines ex_batch ex_world) as [Hany _].
  - left. reflexivity.
  - exact (Hany (fun _ => 7) 3%nat).
Defined.

(** X15: [padding] and [dynamic_width], which the constructor checks, are
    read by no method, and [data_augmentation] by the line synthesiser only:
    two preprocessors with the same target size and line mode, and in line
    mode the same augmentation flag, process every batch alike. *)
Theorem process_batch_unused_options self self' batch w :
  img_size self = img_size self' ->
  line_mode self = line_mode self' ->
  (line_mode self = true -> data_augmentation self = data_augmentation self') ->
  process_batch self batch w = process_batch self' batch w.
Proof.
  destruct self as [sz pad dw da lm], self' as [sz' pad' dw' da' lm']. simpl.
  intros <- <- Hda. destruct lm; [by rewrite (Hda eq_refl)|done].
Qed.

Lemma process_batch_unused_options_witness :
  process_batch (mk_Preprocessor (8, 4) 0 false false false) ex_batch ex_world
  = process_batch (mk_Preprocessor (8, 4) 5 true true false) ex_batch ex_world.
Proof.
  apply process_batch_unused_options.
  - reflexivity.
  - reflexivity.
  - simpl. discriminate.
Defined.

Lemma process_batch_missing_word_witness :
  exists w', process_batch ex_lines ex_batch_missing ex_world_missing
             = Raise AttributeError w'.
Proof.
  apply (process_batch_missing_word ex_lines ex_batch_missing ex_world_missing
           [Some 0%nat; None] ["aab"; "ccd"]%string 1%nat).
  - reflexivity.
  - reflexivity.
  - reflexivity.
  - constructor; [right; exists 0%nat, ex_img0; split; reflexivity|].
    constructor; [left; reflexivity|]. constructor.
  - reflexivity.
  - reflexivity.
  - reflexivity.
Defined.

(** ** Line mode counts by [batch_size] *)

Lemma selection_prefix (h0 : list object) (il : list (option loc)) (tl : list string)
    (n : nat) i :
  (0 < n)%nat -> (n <= length il)%nat -> (n <= length tl)%nat ->
  Forall (word_image h0) (take n il) ->
  forall m k, exists texts (words : list (loc * ndarray Z)),
    Forall2 (fun j t => tl !! cyclic (Z.of_nat n) i j = Some t) (seq k m) texts /\
    Forall2 (fun j ra => il !! cyclic (Z.of_nat n) i j = Some (Some ra.1) /\
                         h0 !! ra.1 = Some (NdUint8 ra.2)) (seq k m) words.
Proof.
  intros Hpos Hil Htl Hwords. induction m as [|m IH]; intros k.
  - exists [], []. split; constructor.
  - destruct (IH (S k)) as (texts & words & Ht & Hw).
    pose proof (cyclic_lt (Z.of_nat n) i k ltac:(lia)) as Hlt.
    destruct (lookup_lt_is_Some_2 il (cyclic (Z.of_nat n) i k) ltac:(lia)) as [x Hx].
    destruct (lookup_lt_is_Some_2 tl (cyclic (Z.of_nat n) i k) ltac:(lia)) as [t Htk].
    assert (Hx' : take n il !! cyclic (Z.of_nat n) i k = Some x).
    { rewrite lookup_take_lt by lia. done. }
    destruct (Forall_lookup_1 _ _ _ _ Hwords Hx') as (r & a & -> & Hr).
    exists (t :: texts), ((r, a) :: words). simpl. split; constructor; done.
Qed.

(** X16: in line mode the number of samples is [batch_size], not the
    length of the lists.  When the batch declares [n] samples and holds at
    least [n] images and texts, the first [n] images being uint8 arrays, the
    synthesiser returns exactly [n] lines and [n] transcripts, whatever the
    random source draws; what the lists hold from index [n] on, missing
    images included, is never read. *)
Theorem simulate_text_line_counts self batch w
    (il : list (option loc)) (tl : list string) (n : nat) :
  heap w !! imgs batch = Some (ImgList il) ->
  heap w !! gt_texts batch = Some (StrList tl) ->
  batch_size batch = Z.of_nat n -> (n <= length il)%nat -> (n <= length tl)%nat ->
  Forall (word_image (heap w)) (take n il) ->
  exists mid w1 canv txts,
    _simulate_text_line self batch w = Ok mid w1 /\
    batch_size mid = batch_size batch /\
    heap w1 !! imgs mid = Some (ImgList (Some <$> canv)) /\
    heap w1 !! gt_texts mid = Some (StrList txts) /\
    length canv = n /\ length txts = n /\
    (forall l, (l < length (heap w))%nat -> heap w1 !! l = heap w !! l).
Proof.
  intros Himgs Htexts Hbs Hil Htl Hwords.
  set (p := length (heap w)). set (q := S (length (heap w))).
  set (w2 := set_heap (set_heap w (heap w ++ [ImgList []]))
               ((heap w ++ [ImgList []]) ++ [StrList []])).
  assert (Hloop : wpx (for_each (seq 0 n)
                         (fun i (_ : unit) => simulate_line self batch p q i) tt) w2
            (fun _ w' => (forall l, (l < length (heap w))%nat -> heap w' !! l = heap w !! l) /\
               lines_done (fun _ _ _ => True) p q (0 + n) (heap w'))
            (fun _ _ => False)).
  { apply (simulate_lines_gen self batch p q _ _ (length (heap w)) n (heap w)).
    - unfold p, q. lia.
    - unfold p. lia.
    - unfold q. lia.
    - intros i w' lp lq Hi Hagree Hp Hq.
      destruct (draw_num_words_ok self w') as (nw & w1 & Hnw & Hw1 & Hdraw).
      assert (Hnw' : 1 <= nw <= 8).
      { unfold valid_num_words in Hnw. destruct (data_augmentation self); lia. }
      destruct (selection_prefix (heap w) il tl n i ltac:(lia) Hil Htl Hwords
                  (Z.to_nat nw) 0%nat) as (texts & words & Htx & Hws).
      rewrite <- Hbs in Htx, Hws.
      assert (Hpq : p <> q) by (unfold p, q; lia).
      eapply wpx_mono;
        [exact (wpx_conj _ _ _ _ _ _
                  (simulate_line_post self batch p q i w' lp lq Hp Hq Hpq)
                  (simulate_line_returns self batch (heap w) il tl p q i w' lp lq nw w1
                     texts words Himgs Htexts Hdraw Hw1 Hnw' Htx Hws Hagree
                     ltac:(unfold p; lia) ltac:(unfold q; lia) Hpq Hp Hq))| |].
      + intros u w'' [(t & tr & c & H1 & H2 & H3 & H4 & H5) _].
        by exists t, tr, c.
      + by intros e w'' [_ ?].
    - lia.
    - intros l Hl. simpl. rewrite <- app_assoc. by apply lookup_app_l.
    - exists [], []. simpl. split; [|split; [|done]].
      + rewrite <- app_assoc. by apply list_lookup_middle.
      + unfold q. replace (S (length (heap w))) with (length (heap w ++ [ImgList []]))
          by (rewrite length_app; simpl; lia).
        apply lookup_last. }
  apply wpx_total in Hloop as (u & w1 & Hrun & Hagree & canv & txts & Hp & Hq & Hlc & Hlt & _).
  exists (mk_Batch p q (batch_size batch)), w1, canv, txts. split.
  { unfold _simulate_text_line.
    rewrite (bind_ok _ _ _ _ _ (alloc_ok _ _)).
    rewrite (bind_ok _ _ _ _ _ (alloc_ok _ _)).
    cbn [heap set_heap]. rewrite length_app. simpl length.
    replace (length (heap w) + 1)%nat with q by (unfold q; lia).
    unfold range. rewrite Hbs, Nat2Z.id. fold p. fold w2.
    by rewrite (bind_ok _ _ _ _ _ Hrun). }
  simpl. done.
Qed.

Lemma simulate_text_line_counts_witness :
  exists mid w1 canv,
    _simulate_text_line ex_lines ex_batch_short ex_world_missing = Ok mid w1 /\
    heap w1 !! imgs mid = Some (ImgList (Some <$> canv)) /\ length canv = 1%nat.
Proof.
  destruct (simulate_text_line_counts ex_lines ex_batch_short ex_world_missing
              [Some 0%nat; None] ["aab"; "ccd"]%string 1%nat)
    as (mid & w1 & canv & txts & Hrun & _ & Hp & _ & Hlc & _).
  - reflexivity.
  - reflexivity.
  - reflexivity.
  - simpl. lia.
  - simpl. lia.
  - constructor; [exists 0%nat, ex_img0; split; reflexivity|]. constructor.
  - exists mid, w1, canv. split; [exact Hrun|]. split; [exact Hp|exact Hlc].
Defined.
